(** * kaijs: the artifact loader, its handlers and its updater

    A shallow embedding of
      - [src/msg_handlers.ts]     ([customMerge], [mkThreadId], [makeState]),
      - [src/dbMsgHandlers.ts]    ([mk_thread_id], [mk_state],
                                   [actualize_current_states],
                                   [handler_rpm_build_test_common],
                                   [handler_buildsys_tag], [get_handler]),
      - [src/db.ts]               ([Artifacts.findOrCreate],
                                   [Artifacts.mk_update_set], [Artifacts.add],
                                   [Artifacts.add_to_db], the constructors,
                                   [get_collection], [cfg_indexes]),
      - [src/loader_opensearch.ts] (the bulk loop of [start]),
      - the listener that follows [get_handler] in [src/dbMsgHandlers.ts]
        ([create_links], [close_all_links], [connection_details],
        [convert_body_to_string], [process_msg]).

    JavaScript objects are modelled as JSON-like values whose objects are
    association lists in insertion order; the lodash functions the code calls
    are written out next to their callers. *)

From Stdlib Require Import List String Ascii ZArith Bool Lia Arith PeanoNat.
From Stdlib Require Import DecimalString Permutation.
From Stdlib Require DecimalZ DecimalPos.
Import ListNotations.
Local Open Scope string_scope.
Local Open Scope list_scope.

Set Implicit Arguments.

(* ===================================================================== *)
(** * JavaScript values                                                   *)
(* ===================================================================== *)

Module JS.

Unset Elimination Schemes.

(** The values that travel through the handlers and the document store.
    [VNum] carries the integers the code handles (ids, versions, counters,
    millisecond timestamps); [VNaN] is JavaScript's [NaN]; [VOid] is a
    MongoDB [ObjectId]. *)
Inductive value : Type :=
| VUndefined
| VNull
| VBool (b : bool)
| VNum (n : Z)
| VNaN
| VStr (s : string)
| VOid (n : nat)
| VArr (items : list value)
| VObj (fields : list (string * value)).

Set Elimination Schemes.

(** Induction over values, with the hypotheses for the elements of an array
    and for the fields of an object. *)
Definition value_ind (P : value -> Prop)
  (Hundef : P VUndefined) (Hnull : P VNull)
  (Hbool : forall b, P (VBool b)) (Hnum : forall n, P (VNum n))
  (Hnan : P VNaN) (Hstr : forall s, P (VStr s)) (Hoid : forall n, P (VOid n))
  (Harr : forall items, Forall P items -> P (VArr items))
  (Hobj : forall fields, Forall (fun kv => P (snd kv)) fields -> P (VObj fields))
  : forall v, P v :=
  fix F (v : value) : P v :=
    match v with
    | VUndefined => Hundef
    | VNull => Hnull
    | VBool b => Hbool b
    | VNum n => Hnum n
    | VNaN => Hnan
    | VStr s => Hstr s
    | VOid n => Hoid n
    | VArr items =>
        Harr items
          ((fix G (l : list value) : Forall P l :=
              match l with
              | [] => Forall_nil P
              | x :: r => Forall_cons x (F x) (G r)
              end) items)
    | VObj fields =>
        Hobj fields
          ((fix G (l : list (string * value)) : Forall (fun kv => P (snd kv)) l :=
              match l with
              | [] => Forall_nil _
              | kv :: r => Forall_cons kv (F (snd kv)) (G r)
              end) fields)
    end.

(** [object[key]] for an own property; [None] when the key is absent.  The
    same association lists serve for the objects lodash builds ([_.groupBy],
    [_.mapValues]), whatever their values are. *)
Fixpoint lookup {B : Type} (k : string) (fields : list (string * B)) : option B :=
  match fields with
  | [] => None
  | (k', v) :: rest => if String.eqb k k' then Some v else lookup k rest
  end.

(** [key in object]. *)
Definition has_key {B : Type} (k : string) (fields : list (string * B)) : bool :=
  match lookup k fields with Some _ => true | None => false end.

(** [object[key] = v]: an existing key keeps its position, a new key goes
    last. *)
Fixpoint set_field {B : Type} (k : string) (v : B) (fields : list (string * B))
  : list (string * B) :=
  match fields with
  | [] => [(k, v)]
  | (k', v') :: rest =>
      if String.eqb k k' then (k', v) :: rest else (k', v') :: set_field k v rest
  end.

Definition keys {B : Type} (fields : list (string * B)) : list string :=
  map fst fields.

(** [_.get(object, path)] where the path is an array of property names:
    [object[k1][k2]...], [undefined] as soon as a name is missing. *)
Fixpoint get (v : value) (path : list string) : value :=
  match path with
  | [] => v
  | k :: rest =>
      match v with
      | VObj fields =>
          match lookup k fields with
          | Some x => get x rest
          | None => VUndefined
          end
      | _ => VUndefined
      end
  end.

Definition isArray (v : value) : bool :=
  match v with VArr _ => true | _ => false end.

Definition isString (v : value) : bool :=
  match v with VStr _ => true | _ => false end.

Definition isUndefined (v : value) : bool :=
  match v with VUndefined => true | _ => false end.

(** A string that may be [undefined], as a value. *)
Definition string_or_undefined (o : option string) : value :=
  match o with
  | Some s => VStr s
  | None => VUndefined
  end.

Definition isNull (v : value) : bool :=
  match v with VNull => true | _ => false end.

(** [_.isEmpty]: no elements, no characters, no own keys; every number,
    boolean, [null] and [undefined] is empty. *)
Definition isEmpty (v : value) : bool :=
  match v with
  | VArr [] => true
  | VArr _ => false
  | VStr s => String.eqb s ""
  | VObj [] => true
  | VObj _ => false
  | VOid _ => false
  | _ => true
  end.

(** [_.size]: length of an array or string, number of own keys, else 0. *)
Definition size (v : value) : nat :=
  match v with
  | VArr l => List.length l
  | VStr s => String.length s
  | VObj f => List.length f
  | _ => 0%nat
  end.

(** [_.isEqual]: deep comparison; [NaN] equals [NaN]; two objects are equal
    when they have as many keys and every key of the first has an equal value
    in the second. *)
Fixpoint isEqual (a b : value) {struct a} : bool :=
  match a, b with
  | VUndefined, VUndefined => true
  | VNull, VNull => true
  | VBool x, VBool y => Bool.eqb x y
  | VNum x, VNum y => Z.eqb x y
  | VNaN, VNaN => true
  | VStr x, VStr y => String.eqb x y
  | VOid x, VOid y => Nat.eqb x y
  | VArr l1, VArr l2 =>
      (fix go (l1 l2 : list value) : bool :=
         match l1, l2 with
         | [], [] => true
         | x :: r, y :: s => isEqual x y && go r s
         | _, _ => false
         end) l1 l2
  | VObj f1, VObj f2 =>
      Nat.eqb (List.length f1) (List.length f2)
      && (fix go (f : list (string * value)) : bool :=
            match f with
            | [] => true
            | (k, x) :: r =>
                match lookup k f2 with
                | Some y => isEqual x y
                | None => false
                end && go r
            end) f1
  | _, _ => false
  end.

End JS.
Export JS.

(* ===================================================================== *)
(** * The sub-record merge: [customMerge] under [_.mergeWith]             *)
(* ===================================================================== *)

Module Merge.

(** [customMerge] of msg_handlers.ts and dbMsgHandlers.ts.  [None] is the
    JavaScript [undefined] the function returns by falling off its end, which
    hands the property back to lodash. *)
Definition customMerge (presentVaule newValue : value) : option value :=
  if isArray presentVaule && isArray newValue && isEmpty newValue then
    Some presentVaule
  else if isString presentVaule && isString newValue && isEmpty newValue then
    Some presentVaule
  else None.

(** [array[i] = v] the JavaScript way: an index past the end extends the
    array, the hole being [undefined]. *)
Fixpoint set_index (i : nat) (v : value) (items : list value) : list value :=
  match i, items with
  | O, [] => [v]
  | O, _ :: rest => v :: rest
  | S j, [] => VUndefined :: set_index j v []
  | S j, x :: rest => x :: set_index j v rest
  end.

(** lodash's [assignMergeValue] on a named property: a defined value is
    stored; [undefined] is stored only when the key does not exist yet. *)
Definition assignMergeValue (k : string) (v : value)
  (object : list (string * value)) : list (string * value) :=
  match v with
  | VUndefined => if has_key k object then object else set_field k v object
  | _ => set_field k v object
  end.

(** The value lodash leaves in [object[key]] after it has merged
    [source[key] = srcValue] into it, [objValue] being [object[key]] before
    ([VUndefined] when the key is absent).  This is [baseMerge] and
    [baseMergeDeep] with [customMerge] as customizer:
      - the customizer is asked first, at every level;
      - an array source merges element by element into an array destination,
        and into a fresh [[]] when the destination is not an array;
      - a plain-object source merges key by key into an object destination,
        and into a fresh [{}] when the destination is not an object;
      - any other source value is assigned.
    A plain-object source met by an array or [ObjectId] destination sets its
    properties on that destination; the destination is returned as it is,
    which is what a JSON value shows of it when none of the source's keys is
    an index or [length].  An object destination with a numeric [length] is
    array-like for lodash, which copies its indexed properties before an
    array source is merged; it is taken for a destination that is not an
    array here. *)
Fixpoint mergeValue (objValue srcValue : value) {struct srcValue} : value :=
  match srcValue with
  | VArr src =>
      match customMerge objValue srcValue with
      | Some v => v
      | None =>
          let dest := match objValue with VArr d => d | _ => [] end in
          VArr
            ((fix go (i : nat) (src : list value) (dest : list value)
                : list value :=
                match src with
                | [] => dest
                | s :: src' =>
                    let merged := mergeValue (nth i dest VUndefined) s in
                    go (S i) src'
                       (match merged with
                        | VUndefined =>
                            if Nat.ltb i (List.length dest) then dest
                            else set_index i merged dest
                        | _ => set_index i merged dest
                        end)
                end) O src dest)
      end
  | VObj src =>
      let merge_into (dest : list (string * value)) :=
        (fix go (src : list (string * value)) (dest : list (string * value))
           : list (string * value) :=
           match src with
           | [] => dest
           | (k, s) :: src' =>
               let objv := match lookup k dest with
                           | Some x => x
                           | None => VUndefined
                           end in
               go src' (assignMergeValue k (mergeValue objv s) dest)
           end) src dest in
      match objValue with
      | VObj d => VObj (merge_into d)
      | VArr _ | VOid _ => objValue
      | _ => VObj (merge_into [])
      end
  | VUndefined => objValue
  | _ =>
      match customMerge objValue srcValue with
      | Some v => v
      | None => srcValue
      end
  end.

(** [baseMerge(object, source)] for a plain-object source: every key of the
    source in turn. *)
Fixpoint merge_fields (src dest : list (string * value))
  : list (string * value) :=
  match src with
  | [] => dest
  | (k, s) :: src' =>
      let objv := match lookup k dest with
                  | Some x => x
                  | None => VUndefined
                  end in
      merge_fields src' (assignMergeValue k (mergeValue objv s) dest)
  end.

(** [baseMerge(object, source)] for an array source: every index in turn. *)
Fixpoint merge_items (i : nat) (src dest : list value) : list value :=
  match src with
  | [] => dest
  | s :: src' =>
      let merged := mergeValue (nth i dest VUndefined) s in
      merge_items (S i) src'
        (match merged with
         | VUndefined =>
             if Nat.ltb i (List.length dest) then dest
             else set_index i merged dest
         | _ => set_index i merged dest
         end)
  end.

(** [_.mergeWith(object, source, customMerge)] as the handlers call it:
    [object] is the artifact's sub-record, possibly [undefined] (lodash then
    starts from [Object(undefined) = {}]), [source] is the partial record
    built from the event.  A sub-record that is neither an object nor missing
    would take the properties without showing them, as above. *)
Definition mergeWith (object : value) (source : list (string * value)) : value :=
  match object with
  | VObj d => VObj (merge_fields source d)
  | VUndefined | VNull => VObj (merge_fields source [])
  | _ => object
  end.

(** [_.isArrayLikeObject]: an array, or an object whose [length] is a
    number that can be a length. *)
Definition isArrayLikeObject (v : value) : bool :=
  match v with
  | VArr _ => true
  | VObj fields =>
      match lookup "length" fields with
      | Some (VNum n) => Z.leb 0 n
      | _ => false
      end
  | _ => false
  end.

End Merge.

(* ===================================================================== *)
(** * Strings the code builds                                             *)
(* ===================================================================== *)

Module Str.

(** Decimal notation of an integer, as JavaScript prints it. *)
Definition of_Z (n : Z) : string :=
  DecimalString.NilZero.string_of_int (Z.to_int n).

(** [Array.prototype.join(',')]. *)
Fixpoint join_comma (l : list string) : string :=
  match l with
  | [] => ""
  | [x] => x
  | x :: r => (x ++ "," ++ join_comma r)%string
  end.

(** [String(v)], which is also what a template literal and a property key
    make of a value.  Inside an array [null] and [undefined] print as the
    empty string.  An [ObjectId] prints as its number here, in place of its
    24 hexadecimal digits. *)
Fixpoint String_ (v : value) : string :=
  match v with
  | VUndefined => "undefined"
  | VNull => "null"
  | VBool true => "true"
  | VBool false => "false"
  | VNum n => of_Z n
  | VNaN => "NaN"
  | VStr s => s
  | VOid n => ("ObjectId:" ++ of_Z (Z.of_nat n))%string
  | VArr l =>
      join_comma
        ((fix go (l : list value) : list string :=
            match l with
            | [] => []
            | VUndefined :: r => "" :: go r
            | VNull :: r => "" :: go r
            | x :: r => String_ x :: go r
            end) l)
  | VObj _ => "[object Object]"
  end.

(** [_.toString(v)]: as [String(v)], but [null] and [undefined] give the
    empty string. *)
Definition toString (v : value) : string :=
  match v with
  | VUndefined | VNull => ""
  | _ => String_ v
  end.

(** [_.split(s, '.')]. *)
Fixpoint split_dot (s : string) : list string :=
  match s with
  | EmptyString => [""]
  | String c rest =>
      if Ascii.eqb c "."%char then "" :: split_dot rest
      else
        match split_dot rest with
        | [] => [String c ""]
        | h :: t => String c h :: t
        end
  end.

(** [_.last(array)]; [None] is [undefined]. *)
Fixpoint last (l : list string) : option string :=
  match l with
  | [] => None
  | [x] => Some x
  | _ :: r => last r
  end.

(** [_.nth(array, -2)]: the element before the last one. *)
Fixpoint nth_minus_2 (l : list string) : option string :=
  match l with
  | [] => None
  | [_] => None
  | [x; _] => Some x
  | _ :: r => nth_minus_2 r
  end.

(** A string that may be [undefined], inside a template literal. *)
Definition template (o : option string) : string :=
  match o with
  | Some s => s
  | None => "undefined"
  end.

End Str.

(* ===================================================================== *)
(** * [_.get] and [_.property] with a string for a path                   *)
(* ===================================================================== *)

Module PathString.

(** The string has a dot. *)
Fixpoint has_dot (s : string) : bool :=
  match s with
  | EmptyString => false
  | String c rest => Ascii.eqb c "."%char || has_dot rest
  end.

(** [isKey(path, object)] of lodash for a string without brackets, as the
    paths of the code are: a string without a dot is a property name; a
    string with dots is one when [path in Object(object)], that is, when the
    object has a key of that very name. *)
Definition isKey (path : string) (object : value) : bool :=
  negb (has_dot path)
  || match object with
     | VObj fields => has_key path fields
     | _ => false
     end.

(** [castPath(path, object)]: the property names to walk, the split at the
    dots being [stringToPath] for a string without brackets. *)
Definition castPath (path : string) (object : value) : list string :=
  if isKey path object then [path] else Str.split_dot path.

(** [_.get(object, path)] and [_.property(path)(object)] where the path is a
    string: ['pipeline.id'] reads the key [pipeline.id] of an object that has
    a key of that name, and [object.pipeline.id] of any other. *)
Definition get_str (object : value) (path : string) : value :=
  get object (castPath path object).

End PathString.
Export PathString.

(* ===================================================================== *)
(** * Types of dbInterface.ts, errors, envelopes                          *)
(* ===================================================================== *)

Module Interface.

(** The errors the code throws. *)
Inductive error : Type :=
| NoThreadIdError (m : string)
| NoAssociatedHandlerError (m : string) (broker_topic : string)
| ValidationError (schema : string)
| AssertionError (m : string)
| Error (m : string).

(** A computation that returns or throws. *)
Inductive result (A : Type) : Type :=
| Ok (a : A)
| Throw (e : error).
Arguments Ok {A} a.
Arguments Throw {A} e.

Definition is_no_thread_id {A : Type} (r : result A) : bool :=
  match r with
  | Throw (NoThreadIdError _) => true
  | _ => false
  end.

(** The envelope read from the file queue, with the fields the code
    destructures.  msg_handlers.ts, db.ts and the loader read [fq_msg_id],
    [broker_msg_id], [broker_topic] and [body], the fields of the
    [FileQueueMessage] type.  The handlers of dbMsgHandlers.ts take the
    envelope as [any] and read [address], [message_id] and [body], the names
    [process_msg] writes; on an envelope that has no property of these two
    names they read [undefined], which is [None]. *)
Record FileQueueMessage : Type := {
  fq_msg_id : string;
  broker_msg_id : string;
  broker_topic : string;
  body : value;
  address : option string;
  message_id : option string
}.

(** [KaiState].  [thread_id] is whatever [mkThreadId] returned, [None] being
    [undefined]; [msg_id] is the envelope's identifier, [undefined] when
    [mk_state] finds no [message_id]; [stage] is [_.nth(.., -2)], [undefined]
    for a topic of one segment; [timestamp] is in milliseconds. *)
Record KaiState : Type := {
  thread_id : option string;
  msg_id : option string;
  version : value;
  stage : option string;
  state : string;
  timestamp : Z;
  origin_creator : string;
  origin_reason : string;
  test_case_name : option string
}.

Record ArtifactState : Type := {
  broker_msg_body : value;
  kai_state : KaiState
}.

End Interface.
Export Interface.

(* ===================================================================== *)
(** * msg_handlers.ts: [mkThreadId] and [makeState]                       *)
(* ===================================================================== *)

Module MsgHandlers.

Section Router.

(** [crypto.createHash('sha256').update(s).digest('hex')]. *)
Variable sha256_hex : string -> string.

(** [Date.parse] of the value at [generated_at]; [None] is [NaN]. *)
Variable Date_parse : value -> option Z.

(** [assert_is_valid(kai_state, 'kai_state')] passes.  The schema is not part
    of these sources. *)
Variable kai_state_valid : KaiState -> bool.

(** [mkThreadId].  The last statement builds a [NoThreadIdError] and drops
    it: there is no [throw], so the function ends and returns [undefined],
    here [Ok None]. *)
Definition mkThreadId (fq_msg : FileQueueMessage) : result (option string) :=
  let thread_id := get_str (body fq_msg) "pipeline.id" in
  if negb (isEmpty thread_id) && isString thread_id then
    Ok (Some (Str.String_ thread_id))
  else
    let run_url := get_str (body fq_msg) "run.url" in
    if negb (isEmpty run_url) && isString run_url then
      let hash := sha256_hex (Str.String_ run_url) in
      Ok (Some ("dummy-thread-" ++ hash)%string)
    else
      let _unused :=
        NoThreadIdError
          ("Cannot make thread-id for broker msg-id: "
             ++ broker_msg_id fq_msg)%string in
      Ok None.

(** The optional [test_case_name]: set when [_.size] of each of the three
    parts is not zero. *)
Definition mk_test_case_name (body : value) : option string :=
  let namespace := get_str body "test.namespace" in
  let type := get_str body "test.type" in
  let category := get_str body "test.category" in
  if negb (Nat.eqb (size namespace) 0)
     && negb (Nat.eqb (size type) 0)
     && negb (Nat.eqb (size category) 0)
  then Some (Str.String_ namespace ++ "." ++ Str.String_ type ++ "."
             ++ Str.String_ category)%string
  else None.

(** [makeState].  The kai_state schema is not part of these sources; by
    section 8 of the spec a [NaN] timestamp does not pass it (the envelope
    goes to the invalid store), so [timestamp] is an integer in every state
    that is returned.  Everything else the schema asks is [kai_state_valid]. *)
Definition makeState (fq_msg : FileQueueMessage) : result ArtifactState :=
  match mkThreadId fq_msg with
  | Throw e => Throw e
  | Ok thread_id =>
      let msg_id := Some (broker_msg_id fq_msg) in
      let version := get (body fq_msg) ["version"] in
      let state :=
        match Str.last (Str.split_dot (broker_topic fq_msg)) with
        | Some s => s
        | None => ""
        end in
      let stage := Str.nth_minus_2 (Str.split_dot (broker_topic fq_msg)) in
      match Date_parse (get (body fq_msg) ["generated_at"]) with
      | None => Throw (ValidationError "kai_state")
      | Some timestamp =>
          let kai_state := {|
            thread_id := thread_id;
            msg_id := msg_id;
            version := version;
            stage := stage;
            state := state;
            timestamp := timestamp;
            origin_creator := "kaijs-loader";
            origin_reason := "broker message";
            test_case_name := mk_test_case_name (body fq_msg)
          |} in
          if kai_state_valid kai_state then
            Ok {| broker_msg_body := body fq_msg; kai_state := kai_state |}
          else Throw (ValidationError "kai_state")
      end
  end.

End Router.

End MsgHandlers.

(* ===================================================================== *)
(** * paths.ts                                                            *)
(* ===================================================================== *)

Module Paths.

(** A MongoDB path ([rpm_build.task_id]) by its segments.  With arrays packed
    no segment is an index, so [path_mongodb_to_lodash] changes nothing.  A
    path stands for its names one by one, as it does in a document none of
    whose keys has a dot, MongoDB refusing such a key. *)
Definition path : Type := list string.

(** Modelled from the spec: paths.ts is missing.  The paths of the leaves of
    a document, an array counting as a leaf ("arrays are always written
    whole"): the update set of section 4.5 is a set of leaf paths. *)
Fixpoint paths_mongodb_pack_array (obj : value) : list path :=
  match obj with
  | VObj fields =>
      (fix go (fields : list (string * value)) : list path :=
         match fields with
         | [] => []
         | (k, v) :: rest =>
             map (cons k) (paths_mongodb_pack_array v) ++ go rest
         end) fields
  | _ => [[]]
  end.

(** Modelled from the spec: paths.ts is missing.  By the comment at the call
    in db.ts, the paths that resolve to [null] or [undefined] are dropped. *)
Definition drop_empty_paths (paths : list path) (obj : value) : list path :=
  filter (fun p => negb (isNull (get obj p) || isUndefined (get obj p))) paths.

Definition path_mongodb_to_lodash (p : path) : path := p.

End Paths.
Export Paths.

(* ===================================================================== *)
(** * db.ts: the collection, [findOrCreate], [mk_update_set]              *)
(* ===================================================================== *)

Module Db.

(** The artifacts collection: its documents in storage order and the counter
    the server draws fresh [_id]s from. *)
Record collection : Type := {
  docs : list value;
  next_id : nat
}.

(** A document matches an equality filter when it carries every field of the
    filter with an equal value. *)
Definition matches (filter : list (string * value)) (doc : value) : bool :=
  forallb (fun kv => isEqual (get doc [fst kv]) (snd kv)) filter.

(** The first document that matches. *)
Definition findOne (filter : list (string * value)) (c : collection)
  : option value :=
  find (matches filter) (docs c).

(** Replaces the first document that matches by its image. *)
Fixpoint replace_first (filter : list (string * value)) (new_doc : value)
  (ds : list value) : list value :=
  match ds with
  | [] => []
  | d :: rest =>
      if matches filter d then new_doc :: rest
      else d :: replace_first filter new_doc rest
  end.

Section FindOrCreate.

(** [assert_is_valid(document, 'db_artifact')] passes.  The schema is not
    part of these sources. *)
Variable db_artifact_valid : value -> bool.

(** [Artifacts.findOrCreate]: [findOneAndUpdate] with the filter
    [{type, aid}], the update [{$setOnInsert: {type, aid, _version: 1}}] and
    the options [upsert: true, returnOriginal: false].  A document that
    matches is not touched by [$setOnInsert] and is the one returned; with no
    match the server inserts the filter's fields, the [$setOnInsert] fields
    and a fresh [_id].  The document then has to pass the schema. *)
Definition findOrCreate (type aid : value) (c : collection)
  : result value * collection :=
  let query := [("type", type); ("aid", aid)] in
  let '(document, c') :=
    match findOne query c with
    | Some d => (d, c)
    | None =>
        let d := VObj [("_id", VOid (next_id c)); ("type", type); ("aid", aid);
                       ("_version", VNum 1)] in
        (d, {| docs := docs c ++ [d]; next_id := S (next_id c) |})
    end in
  if db_artifact_valid document then (Ok document, c')
  else (Throw (ValidationError "db_artifact"), c').

End FindOrCreate.

(** [_.differenceWith(array, values, comparator)]: the elements of [array]
    for which the comparator holds with no element of [values]. *)
Definition differenceWith {A B : Type} (array : list A) (values : list B)
  (comparator : A -> B -> bool) : list A :=
  filter (fun arrVal => negb (existsb (comparator arrVal) values)) array.

(** [Artifacts.mk_update_set].  The comparator receives a path of the
    proposal and a path of the persisted document, any two of them, and
    compares the values found there.  The result of [_.fromPairs] is kept as
    the list of its pairs. *)
Definition mk_update_set (present newdata : value) : list (path * value) :=
  let paths_new := paths_mongodb_pack_array newdata in
  let paths_present := paths_mongodb_pack_array present in
  let paths_new := drop_empty_paths paths_new newdata in
  let paths_present := drop_empty_paths paths_present present in
  let paths_update :=
    differenceWith paths_new paths_present
      (fun new_path old_path =>
         let new_path_lodash := path_mongodb_to_lodash new_path in
         let old_path_lodash := path_mongodb_to_lodash old_path in
         let new_value := get newdata new_path_lodash in
         let old_value := get present old_path_lodash in
         let drop := isEqual new_value old_value in
         drop) in
  let pairs := map (fun p => (p, get newdata p)) paths_update in
  pairs.

(** [$set] of one path: the field is created with the embedded documents on
    the way; the server refuses a path that runs through a value that is not
    a document ([None]). *)
Fixpoint set_path (doc : value) (p : path) (v : value) : option value :=
  match p with
  | [] => Some v
  | k :: rest =>
      match doc with
      | VObj fields =>
          let child := match lookup k fields with
                       | Some x => x
                       | None => VObj []
                       end in
          match set_path child rest v with
          | Some child' => Some (VObj (set_field k child' fields))
          | None => None
          end
      | _ => None
      end
  end.

(** [$set: update_set]. *)
Fixpoint apply_set (update_set : list (path * value)) (doc : value)
  : option value :=
  match update_set with
  | [] => Some doc
  | (p, v) :: rest =>
      match set_path doc p v with
      | Some doc' => apply_set rest doc'
      | None => None
      end
  end.

(** [$inc: {_version: 1}]: a missing field starts from 0, a field that is
    not a number is refused. *)
Definition inc_version (doc : value) : option value :=
  match doc with
  | VObj fields =>
      match lookup "_version" fields with
      | Some (VNum n) => Some (VObj (set_field "_version" (VNum (n + 1)) fields))
      | None => Some (VObj (set_field "_version" (VNum 1) fields))
      | Some _ => None
      end
  | _ => None
  end.

(** [_.pick(db_entry, '_id', '_version')]. *)
Definition pick_id_version (db_entry : value) : list (string * value) :=
  match db_entry with
  | VObj fields =>
      filter (fun kv => String.eqb (fst kv) "_id" || String.eqb (fst kv) "_version")
             fields
  | _ => []
  end.

End Db.

(* ===================================================================== *)
(** * dbMsgHandlers.ts                                                    *)
(* ===================================================================== *)

Module DbMsgHandlers.

(** ** [_.groupBy], [_.orderBy], [new Set] *)

Section Lodash.

Variable A : Type.

(** One more element for the group of its key; a new key opens a group at
    the end. *)
Fixpoint group_insert (k : string) (x : A) (groups : list (string * list A))
  : list (string * list A) :=
  match groups with
  | [] => [(k, [x])]
  | (k', xs) :: rest =>
      if String.eqb k k' then (k', xs ++ [x]) :: rest
      else (k', xs) :: group_insert k x rest
  end.

(** [_.groupBy(collection, key)]. *)
Definition groupBy (key : A -> string) (collection : list A)
  : list (string * list A) :=
  fold_left (fun groups x => group_insert (key x) x groups) collection [].

(** Insertion before the first element that is not greater: elements of
    equal rank keep their order. *)
Fixpoint insert_desc (rank : A -> Z) (x : A) (sorted : list A) : list A :=
  match sorted with
  | [] => [x]
  | y :: rest =>
      if Z.leb (rank y) (rank x) then x :: y :: rest
      else y :: insert_desc rank x rest
  end.

(** [_.orderBy(collection, rank, 'desc')], a stable sort. *)
Fixpoint orderBy_desc (rank : A -> Z) (collection : list A) : list A :=
  match collection with
  | [] => []
  | x :: rest => insert_desc rank x (orderBy_desc rank rest)
  end.

(** [[...new Set(list)]]: the distinct elements in the order of their first
    occurrence. *)
Fixpoint uniq (eqb : A -> A -> bool) (l : list A) : list A :=
  match l with
  | [] => []
  | x :: rest => x :: filter (fun y => negb (eqb x y)) (uniq eqb rest)
  end.

End Lodash.

(** ** [mk_thread_id] and [mk_state] *)

Section State.

Variable sha256_hex : string -> string.
Variable Date_parse : value -> option Z.
Variable kai_state_valid : KaiState -> bool.

(** [mk_thread_id]: the text of [mkThreadId] of msg_handlers.ts, the
    envelope's identifier being read from [message_id].  The
    [NoThreadIdError] of the last statement is built and dropped. *)
Definition mk_thread_id (broker_msg : FileQueueMessage) : result (option string) :=
  let msg := body broker_msg in
  let message_id := message_id broker_msg in
  let thread_id := get_str msg "pipeline.id" in
  if negb (isEmpty thread_id) && isString thread_id then
    Ok (Some (Str.String_ thread_id))
  else
    let run_url := get_str msg "run.url" in
    if negb (isEmpty run_url) && isString run_url then
      let hash := sha256_hex (Str.String_ run_url) in
      Ok (Some ("dummy-thread-" ++ hash)%string)
    else
      let _unused :=
        NoThreadIdError
          ("Cannot make thread-id for broker msg-id: "
             ++ Str.template message_id)%string in
      Ok None.

(** [mk_state], with the [NaN] timestamp treated as in [makeState].  The
    topic is read from [address] and the identifier from [message_id];
    [_.split] makes the empty string of an [undefined] topic. *)
Definition mk_state (broker_msg : FileQueueMessage) : result ArtifactState :=
  let msg := body broker_msg in
  let routingKey :=
    match address broker_msg with
    | Some topic => topic
    | None => ""
    end in
  match mk_thread_id broker_msg with
  | Throw e => Throw e
  | Ok thread_id =>
      let msg_id := message_id broker_msg in
      let version := get msg ["version"] in
      let state :=
        match Str.last (Str.split_dot routingKey) with
        | Some s => s
        | None => ""
        end in
      let stage := Str.nth_minus_2 (Str.split_dot routingKey) in
      match Date_parse (get msg ["generated_at"]) with
      | None => Throw (ValidationError "kai_state")
      | Some timestamp =>
          let kai_state := {|
            thread_id := thread_id;
            msg_id := msg_id;
            version := version;
            stage := stage;
            state := state;
            timestamp := timestamp;
            origin_creator := "kaijs-loader";
            origin_reason := "broker message";
            test_case_name := MsgHandlers.mk_test_case_name msg
          |} in
          if kai_state_valid kai_state then
            Ok {| broker_msg_body := msg; kai_state := kai_state |}
          else Throw (ValidationError "kai_state")
      end
  end.

End State.

(** ** [actualize_current_states] *)

(** The property key lodash makes of a thread id: [String(undefined)] for a
    state without one. *)
Definition thread_key (thread_id : option string) : string :=
  match thread_id with
  | Some s => s
  | None => "undefined"
  end.

Definition option_string_eqb (a b : option string) : bool :=
  match a, b with
  | Some x, Some y => String.eqb x y
  | None, None => true
  | _, _ => false
  end.

(** The constants of [actualize_current_states], each as a function of
    [db_artifact.states].  The entries are read through what the function
    takes from them: the thread id, the timestamp, the state and the test
    case name under [kai_state]. *)
Section CurrentStates.

Variable A : Type.
Variable thread_id_of : A -> option string.
Variable timestamp_of : A -> Z.
Variable state_of : A -> string.
Variable test_case_name_of : A -> option string.

Definition states_for_same_thread (states : list A) : list (list A) :=
  map snd (groupBy (fun e => thread_key (thread_id_of e)) states).

(** [_.first] of the sorted group; a group is never empty, and the
    [_.flatten] that follows leaves the entries as they are. *)
Definition recent_for_each_thread (states : list A) : list A :=
  flat_map
    (fun group =>
       match orderBy_desc timestamp_of group with
       | [] => []
       | first :: _ => [first]
       end)
    (states_for_same_thread states).

Definition known_states (states : list A) : list string :=
  filter (fun s => negb (String.eqb s ""))
         (uniq String.eqb (map state_of states)).

(** [current_state] after the [_.assign] of the known states that have no
    group. *)
Definition current_state (states : list A) : list (string * list A) :=
  let grouped := groupBy state_of (recent_for_each_thread states) in
  let current_state_empty :=
    map (fun s => (s, @nil A)) (known_states states) in
  grouped
  ++ filter (fun kv => negb (existsb (String.eqb (fst kv)) (keys grouped)))
            current_state_empty.

Definition current_state_lenghts (states : list A) : list (string * nat) :=
  map (fun kv => (fst kv, List.length (snd kv))) (current_state states).

Definition resultsdb_testcase (states : list A) : list string :=
  flat_map
    (fun t => match t with
              | Some s => if String.eqb s "" then [] else [s]
              | None => []
              end)
    (uniq option_string_eqb (map test_case_name_of states)).

End CurrentStates.

(** The three derived fields over typed states. *)
Definition state_thread_id (e : ArtifactState) : option string :=
  thread_id (kai_state e).
Definition state_timestamp (e : ArtifactState) : Z := timestamp (kai_state e).
Definition state_state (e : ArtifactState) : string := state (kai_state e).

(** The same fields read from a stored state by their paths.  In a document
    that has passed the db_artifact schema the thread id and the state are
    strings and the timestamp is a number; for anything else the default of
    each reading stands in. *)
Definition doc_thread_id (e : value) : option string :=
  match get_str e "kai_state.thread_id" with
  | VUndefined => None
  | v => Some (Str.String_ v)
  end.
Definition doc_timestamp (e : value) : Z :=
  match get_str e "kai_state.timestamp" with
  | VNum n => n
  | _ => 0%Z
  end.
Definition doc_state (e : value) : string :=
  match get_str e "kai_state.state" with
  | VUndefined | VNull => ""
  | v => Str.String_ v
  end.
Definition doc_test_case_name (e : value) : option string :=
  match get_str e "kai_state.test_case_name" with
  | VStr s => Some s
  | _ => None
  end.

(** [db_artifact.field = v]. *)
Definition assign_field (k : string) (v : value) (obj : value) : value :=
  match obj with
  | VObj fields => VObj (set_field k v fields)
  | _ => obj
  end.

(** [actualize_current_states(db_artifact)] on a stored document. *)
Definition actualize_current_states (db_artifact : value) : value :=
  let states :=
    match get db_artifact ["states"] with
    | VArr l => l
    | _ => []
    end in
  let cs := current_state doc_thread_id doc_timestamp doc_state states in
  let lenghts :=
    current_state_lenghts doc_thread_id doc_timestamp doc_state states in
  let testcases := resultsdb_testcase doc_test_case_name states in
  let db_artifact :=
    assign_field "current_state"
      (VObj (map (fun kv => (fst kv, VArr (snd kv))) cs)) db_artifact in
  let db_artifact :=
    assign_field "current_state_lenghts"
      (VObj (map (fun kv => (fst kv, VNum (Z.of_nat (snd kv)))) lenghts))
      db_artifact in
  assign_field "resultsdb_testcase" (VArr (map VStr testcases)) db_artifact.

(** The object [mk_state] returns, as the document store receives it. *)
Definition state_to_value (s : ArtifactState) : value :=
  let k := kai_state s in
  let opt := string_or_undefined in
  VObj [("broker_msg_body", broker_msg_body s);
        ("kai_state",
         VObj ([("thread_id", opt (thread_id k));
                ("msg_id", opt (msg_id k));
                ("version", version k);
                ("stage", opt (stage k));
                ("state", VStr (state k));
                ("timestamp", VNum (timestamp k));
                ("origin", VObj [("creator", VStr (origin_creator k));
                                 ("reason", VStr (origin_reason k))])]
               ++ match test_case_name k with
                  | Some t => [("test_case_name", VStr t)]
                  | None => []
                  end))].

(** ** The handlers *)

Section Handlers.

Variable sha256_hex : string -> string.
Variable Date_parse : value -> option Z.
Variable kai_state_valid : KaiState -> bool.
Variable db_artifact_valid : value -> bool.

(** [koji_query(hub_name, 'getBuild', build_id)] followed by
    [assert_is_valid(buildInfo, 'koji_build_info')]; the hub is an outside
    service. *)
Variable koji_getBuild : string -> value -> result value.

(** [atype_to_hub_map] of dbInterface.ts, which is not part of these
    sources: the hub of an artifact type. *)
Variable atype_to_hub_map : string -> option string.

(** A handler: the collection it works on and the envelope, giving the
    proposed document or an error, and the collection afterwards. *)
Definition handler : Type :=
  Db.collection -> FileQueueMessage -> result value * Db.collection.

(** [handler_rpm_build_test_common].  Reading a property of [undefined] or
    [null] is a TypeError. *)
Definition handler_rpm_build_test_common : handler :=
  fun artifacts broker_msg =>
  let message_id := message_id broker_msg in
  let msg := body broker_msg in
  let artifact := get msg ["artifact"] in
  match artifact with
  | VUndefined | VNull =>
      (Throw (Error "TypeError: cannot read properties of undefined"), artifacts)
  | _ =>
  let type := get artifact ["type"] in
  let task_id := get artifact ["id"] in
  match Db.findOrCreate db_artifact_valid type (VStr (Str.toString task_id))
          artifacts with
  | (Throw e, artifacts') => (Throw e, artifacts')
  | (Ok db_artifact, artifacts') =>
      let rpm_build :=
        [("task_id", task_id);
         ("nvr", get artifact ["nvr"]);
         ("source", get artifact ["source"]);
         ("issuer", get artifact ["issuer"]);
         ("scratch", get artifact ["scratch"]);
         ("component", get artifact ["component"])] in
      match mk_state sha256_hex Date_parse kai_state_valid broker_msg with
      | Throw e => (Throw e, artifacts')
      | Ok artifact_new_state =>
          let states :=
            match get db_artifact ["states"] with
            | VUndefined | VNull | VNaN => VArr []
            | v => v
            end in
          let db_artifact := assign_field "states" states db_artifact in
          let state_list :=
            match states with VArr l => l | _ => [] end in
          let db_artifact :=
            if negb (existsb
                       (fun e => isEqual (get_str e "kai_state.msg_id")
                                         (string_or_undefined message_id))
                       state_list)
            then
              actualize_current_states
                (assign_field "states"
                   (VArr (state_list ++ [state_to_value artifact_new_state]))
                   db_artifact)
            else db_artifact in
          let db_artifact :=
            assign_field "rpm_build"
              (Merge.mergeWith (get db_artifact ["rpm_build"]) rpm_build)
              db_artifact in
          (Ok db_artifact, artifacts')
      end
  end
  end.

(** [handler_buildsys_tag], partially applied to its artifact type.  The
    assertion needs the type among the keys of [atype_to_hub_map]. *)
Definition handler_buildsys_tag (type : string) : handler :=
  fun artifacts msg =>
  match atype_to_hub_map type with
  | None =>
      (Throw (AssertionError
                ("handler_buildsys_tag() was called for unknown artifact type: "
                 ++ type)%string),
       artifacts)
  | Some hub_name =>
  let tag_msg := body msg in
  let build_id := get tag_msg ["build_id"] in
  match koji_getBuild hub_name build_id with
  | Throw e => (Throw e, artifacts)
  | Ok buildInfo =>
      let task_id := get buildInfo ["task_id"] in
      match Db.findOrCreate db_artifact_valid (VStr type)
              (VStr (Str.toString task_id)) artifacts with
      | (Throw e, artifacts') => (Throw e, artifacts')
      | (Ok artifact, artifacts') =>
          let rpm_build :=
            [("task_id", task_id);
             ("build_id", build_id);
             ("nvr", get buildInfo ["nvr"]);
             ("issuer", get tag_msg ["owner"]);
             ("source", get_str buildInfo "extra.source.original_url");
             ("scratch", VBool false);
             ("component", get buildInfo ["name"])] in
          (Ok (assign_field "rpm_build"
                 (Merge.mergeWith (get artifact ["rpm_build"]) rpm_build)
                 artifact),
           artifacts')
      end
  end
  end.

(** A pattern without alternatives, anchored at its start: a dot stands for
    any character but a line break.  The rest of the topic is returned. *)
Fixpoint match_prefix (pattern topic : string) : option string :=
  match pattern with
  | EmptyString => Some topic
  | String p pattern' =>
      match topic with
      | EmptyString => None
      | String c topic' =>
          if Ascii.eqb p "."%char then
            if Ascii.eqb c "010"%char || Ascii.eqb c "013"%char then None
            else match_prefix pattern' topic'
          else if Ascii.eqb p c then match_prefix pattern' topic'
          else None
      end
  end.

Definition match_whole (pattern topic : string) : bool :=
  match match_prefix pattern topic with
  | Some EmptyString => true
  | _ => false
  end.

(** [get_handler]: the first pattern of the map, in the order of the
    [handlers.set] calls, that the topic matches. *)
Definition get_handler (broker_topic : string) : option handler :=
  if match_whole "org.centos.prod.buildsys.tag" broker_topic then
    Some (handler_buildsys_tag "koji-build-cs")
  else if match_whole "org.fedoraproject.prod.buildsys.tag" broker_topic then
    Some (handler_buildsys_tag "koji-build")
  else
    match match_prefix "org.centos.prod.ci.koji-build.test." broker_topic with
    | Some rest =>
        if String.eqb rest "complete" || String.eqb rest "queued"
           || String.eqb rest "running" || String.eqb rest "error"
        then Some handler_rpm_build_test_common
        else None
    | None => None
    end.

End Handlers.

End DbMsgHandlers.

(* ===================================================================== *)
(** * db.ts: [Artifacts.add]                                              *)
(* ===================================================================== *)

Module Updater.

Import Db.

(** What the world outside the loop does to one attempt. *)
Inductive fault : Type :=
| NoFault
| FindOrCreateFails
    (** the re-read throws *)
| ConcurrentWrite (writer : collection -> collection)
    (** another writer acts between the re-read and the update *)
| UpdateFails.
    (** [findOneAndUpdate] throws *)

(** What one call of [add] did, in order. *)
Inductive event : Type :=
| HandlerInvoked
| ReRead
| Written (document : value)
| WriteMissed.

Definition count_handler_calls (trace : list event) : nat :=
  List.length (filter (fun e => match e with HandlerInvoked => true | _ => false end)
                      trace).

Definition is_write (e : event) : bool :=
  match e with Written _ => true | _ => false end.

Record outcome : Type := {
  returned : result value;
  store : collection;
  trace : list event
}.

Section Add.

Variable db_artifact_valid : value -> bool.

(** The faults of the attempt made with a given value of [retries_left]. *)
Variable faults : nat -> fault.

(** The update of one attempt: [findOneAndUpdate(filter, updateDoc, options)]
    with [$inc: {_version: 1}] and [$set: update_set], then the two
    assertions.  The server refuses an update whose [$set] names [_version],
    the path of the [$inc].  [None] when nothing was modified or something
    was thrown. *)
Definition cas_update (db_entry : value) (update_set : list (path * value))
  (c : collection) : option (value * collection) :=
  let filter := pick_id_version db_entry in
  if existsb (fun pv => match fst pv with
                        | k :: _ => String.eqb k "_version"
                        | [] => true
                        end) update_set
  then None
  else
    match findOne filter c with
    | None => None
    | Some d =>
        match inc_version d with
        | None => None
        | Some d1 =>
            match apply_set update_set d1 with
            | None => None
            | Some d2 =>
                Some (d2, {| docs := replace_first filter d2 (docs c);
                             next_id := next_id c |})
            end
        end
    end.

(** The message of the final [throw]. *)
Definition all_attempts_failed (artifact : value) : error :=
  Error ("Cannot set missing fields for type: "
         ++ Str.String_ (get artifact ["type"]) ++ " and aid: "
         ++ Str.String_ (get artifact ["aid"]) ++ ". All attempts failed.")%string.

(** The [while] loop of [add] and the [throw] after it.  The argument is the
    value of [retries_left] when the condition is tested; [modifiedDocument]
    is [null] at every test, since a document that was modified is returned
    from inside the body. *)
Fixpoint add_loop (handler : DbMsgHandlers.handler) (message : FileQueueMessage)
  (retries_left : nat) (artifact : value) (c : collection)
  (log : list event) {struct retries_left} : outcome :=
  let exhausted :=
    {| returned := Throw (all_attempts_failed artifact);
       store := c; trace := log |} in
  if Nat.ltb 1 retries_left then
    match retries_left with
    | O => exhausted
    | S retries_left =>
        if Nat.eqb retries_left 0 then exhausted
        else
          match handler c message with
          | (Throw e, c1) =>
              {| returned := Throw e; store := c1;
                 trace := log ++ [HandlerInvoked] |}
          | (Ok artifact, c1) =>
              let log := log ++ [HandlerInvoked] in
              if negb (db_artifact_valid artifact) then
                {| returned := Throw (ValidationError "db_artifact");
                   store := c1; trace := log |}
              else
                let type := get artifact ["type"] in
                let aid := get artifact ["aid"] in
                let reread :=
                  match faults retries_left with
                  | FindOrCreateFails => (Throw (Error "findOrCreate"), c1)
                  | _ => findOrCreate db_artifact_valid type aid c1
                  end in
                match reread with
                | (Throw _, c2) =>
                    add_loop handler message retries_left artifact c2
                             (log ++ [ReRead])
                | (Ok db_entry, c2) =>
                    let log := log ++ [ReRead] in
                    let update_set := mk_update_set db_entry artifact in
                    match update_set with
                    | [] =>
                        {| returned := Ok artifact; store := c2; trace := log |}
                    | _ :: _ =>
                        let c3 :=
                          match faults retries_left with
                          | ConcurrentWrite writer => writer c2
                          | _ => c2
                          end in
                        let updated :=
                          match faults retries_left with
                          | UpdateFails => None
                          | _ => cas_update db_entry update_set c3
                          end in
                        match updated with
                        | Some (modifiedDocument, c4) =>
                            {| returned := Ok modifiedDocument; store := c4;
                               trace := log ++ [Written modifiedDocument] |}
                        | None =>
                            add_loop handler message retries_left artifact c3
                                     (log ++ [WriteMissed])
                        end
                    end
                end
          end
    end
  else exhausted.

Variable sha256_hex : string -> string.
Variable Date_parse : value -> option Z.
Variable kai_state_valid : KaiState -> bool.
Variable koji_getBuild : string -> value -> result value.
Variable atype_to_hub_map : string -> option string.

(** [Artifacts.add], the collection being initialized. *)
Definition add (message : FileQueueMessage) (c : collection) : outcome :=
  let message_id := broker_msg_id message in
  match DbMsgHandlers.get_handler sha256_hex Date_parse kai_state_valid
          db_artifact_valid koji_getBuild atype_to_hub_map
          (broker_topic message) with
  | None =>
      {| returned :=
           Throw (NoAssociatedHandlerError
                    ("broker msg-id: " ++ message_id
                     ++ ": does not have associated handler for topic '"
                     ++ broker_topic message ++ "'.")%string
                    (broker_topic message));
         store := c; trace := [] |}
  | Some handler =>
      let retries_left := 30%nat in
      add_loop handler message retries_left VUndefined c []
  end.

End Add.

End Updater.

(* ===================================================================== *)
(** * loader_opensearch.ts: the bulk loop of [start]                      *)
(* ===================================================================== *)

Module Loader.

(** What [fq.tpop] hands over: the message; [commit] and [rollback] are the
    two things that can be done with the entry. *)
Record FileQueueEntry : Type := {
  message : FileQueueMessage
}.

Definition bulkSecondsThreshold : Z := 3.
Definition bulkMaxEntries : nat := 100.
Definition bulkMaxSize : Z := 1024 * 1024 * 1024 * 50.

(** How [opensearchClient.bulkUpdate] ends: it returns, it throws an
    [Error], or it throws something that is not an [Error]. *)
Inductive bulk_result : Type :=
| BulkOk
| BulkError
| BulkThrown.

Section Loop.

(** [Upsert], [getMsgUpserts] and the client are in opensearch/opensearch.ts,
    which is not part of these sources; [schemas['fq_msg']] is fetched at run
    time.  [getMsgUpserts] is taken to return its upserts. *)
Variable Upsert : Type.
Variable getMsgUpserts : FileQueueMessage -> list Upsert.

(** [getObjectSize(upsert.upsertDoc)], in bytes. *)
Variable getObjectSize : Upsert -> Z.

(** [Joi.assert(fq_msg, schemas['fq_msg'], {allowUnknown: true})] passes. *)
Variable fq_msg_valid : FileQueueMessage -> bool.

Variable bulkUpdate : list Upsert -> bulk_result.

(** What the loop does to the outside. *)
Inductive action : Type :=
| Commit (fq_entry : FileQueueEntry)
| Rollback (fq_entry : FileQueueEntry)
| BulkUpdate (ops : list Upsert)
| Exit (code : Z).

(** What [await fq.tpop(fqueue)] gives: an entry, at the time the loop reads
    the clock for it (milliseconds), or an exception. *)
Inductive popped : Type :=
| Popped (fq_entry : FileQueueEntry) (newMsgTime : Z)
| PopFails.

(** The variables declared before the [while (true)]. *)
Record loader_state : Type := {
  fqEntries : list FileQueueEntry;
  bulkUpserts : list Upsert;
  bulkSizeBytes : Z;
  prevMsgTime : Z
}.

Definition initial (start_time : Z) : loader_state :=
  {| fqEntries := []; bulkUpserts := []; bulkSizeBytes := 0;
     prevMsgTime := start_time |}.

Definition sum (l : list Z) : Z := fold_left Z.add l 0%Z.

(** The accumulate-or-flush test.  [secondsBetweenMessages] is the gap in
    milliseconds divided by 1000, so it is below the threshold exactly when
    the gap is below a thousand times the threshold. *)
Definition keeps_accumulating (gap_ms : Z) (bulkUpserts : list Upsert)
  (bulkSizeBytes : Z) : bool :=
  Z.ltb gap_ms (bulkSecondsThreshold * 1000)
  && Nat.ltb (List.length bulkUpserts) bulkMaxEntries
  && Z.ltb bulkSizeBytes bulkMaxSize.

(** One turn of the [while (true)] loop: the state for the next turn, [None]
    when the process exits, and what was done. *)
Definition iteration (st : loader_state) (input : popped)
  : option loader_state * list action :=
  match input with
  | PopFails => (None, [Exit 1])
  | Popped fq_entry newMsgTime =>
      let fq_msg := message fq_entry in
      if negb (fq_msg_valid fq_msg) then
        (Some st, [Commit fq_entry])
      else
        let gap_ms := (newMsgTime - prevMsgTime st)%Z in
        let msgUpserts := getMsgUpserts fq_msg in
        let upsertsSizeBytes := sum (map getObjectSize msgUpserts) in
        let bulkSizeBytes := (bulkSizeBytes st + upsertsSizeBytes)%Z in
        let bulkUpserts := bulkUpserts st ++ msgUpserts in
        let fqEntries := fqEntries st ++ [fq_entry] in
        if keeps_accumulating gap_ms bulkUpserts bulkSizeBytes then
          (Some {| fqEntries := fqEntries; bulkUpserts := bulkUpserts;
                   bulkSizeBytes := bulkSizeBytes;
                   prevMsgTime := newMsgTime |},
           [])
        else
          match bulkUpdate bulkUpserts with
          | BulkOk =>
              (Some {| fqEntries := []; bulkUpserts := [];
                       bulkSizeBytes := 0; prevMsgTime := newMsgTime |},
               BulkUpdate bulkUpserts :: map Commit fqEntries)
          | BulkError =>
              (None,
               BulkUpdate bulkUpserts :: map Rollback fqEntries ++ [Exit 1])
          | BulkThrown =>
              (None, [BulkUpdate bulkUpserts; Exit 1])
          end
  end.

(** The loop over what the queue delivers.  When the list is used up the
    loop is waiting in [fq.tpop]. *)
Fixpoint run (st : loader_state) (inputs : list popped)
  : option loader_state * list action :=
  match inputs with
  | [] => (Some st, [])
  | input :: rest =>
      match iteration st input with
      | (Some st', acts) =>
          let '(final, acts') := run st' rest in (final, acts ++ acts')
      | (None, acts) => (None, acts)
      end
  end.

Definition bulk_calls (acts : list action) : list (list Upsert) :=
  flat_map (fun a => match a with BulkUpdate ops => [ops] | _ => [] end) acts.

End Loop.

End Loader.

(* ===================================================================== *)
(** * Well-formed values                                                  *)
(* ===================================================================== *)

Module WellFormed.

Fixpoint nodupb (l : list string) : bool :=
  match l with
  | [] => true
  | x :: r => negb (existsb (String.eqb x) r) && nodupb r
  end.

(** A JavaScript object has each key once, at every depth. *)
Fixpoint well_formed (v : value) : bool :=
  match v with
  | VArr l => forallb well_formed l
  | VObj f => nodupb (keys f) && forallb (fun kv => well_formed (snd kv)) f
  | _ => true
  end.

(** The values that are neither [undefined] nor arrays nor plain objects. *)
Definition is_scalar (v : value) : bool :=
  match v with
  | VUndefined | VArr _ | VObj _ => false
  | _ => true
  end.

End WellFormed.
Export WellFormed.

(* ===================================================================== *)
(** * Concrete envelopes and collaborators for the scenarios              *)
(* ===================================================================== *)

Module Scenario.

(** Stand-ins for the collaborators outside these sources.  The digest is
    only ever compared with itself; the clock knows the two dates the
    scenarios use; the schemas accept what they are shown; no hub answers. *)
Definition digest (s : string) : string := s.

Definition parse_date (v : value) : option Z :=
  match v with
  | VStr "2022-01-01T00:00:00Z" => Some 1640995200000%Z
  | VStr "2022-01-01T00:05:00Z" => Some 1640995500000%Z
  | _ => None
  end.

Definition accept_kai_state (_ : KaiState) : bool := true.
Definition accept_document (_ : value) : bool := true.
Definition no_hub (_ : string) (_ : value) : result value :=
  Throw (Error "no hub").
Definition no_hub_map (_ : string) : option string := None.

Definition empty_collection : Db.collection :=
  {| Db.docs := []; Db.next_id := 0 |}.

(** A test-queued event for the koji build with the given task id.  The
    envelope carries its topic and its identifier under both pairs of names:
    those of the [FileQueueMessage] type and those the handlers of
    dbMsgHandlers.ts read. *)
Definition queued_envelope (task_id : Z) (extra : list (string * value))
  : FileQueueMessage :=
  {| fq_msg_id := "1640995200-ID:1";
     broker_msg_id := "ID:1";
     broker_topic := "org.centos.prod.ci.koji-build.test.queued";
     address := Some "org.centos.prod.ci.koji-build.test.queued";
     message_id := Some "ID:1";
     body :=
       VObj ([("version", VStr "0.2.1");
              ("artifact",
               VObj [("type", VStr "koji-build"); ("id", VNum task_id);
                     ("nvr", VStr "pkg-1.0-1.fc33");
                     ("component", VStr "pkg");
                     ("issuer", VStr "alice");
                     ("scratch", VBool false)]);
              ("generated_at", VStr "2022-01-01T00:00:00Z");
              ("test", VObj [("namespace", VStr "x"); ("type", VStr "y");
                             ("category", VStr "z")])]
             ++ extra) |}.

Definition with_pipeline : list (string * value) :=
  [("pipeline", VObj [("id", VStr "PIPE-1")])].

(** [Artifacts.add] with the stand-ins. *)
Definition deliver (faults : nat -> Updater.fault) :=
  Updater.add accept_document faults digest parse_date accept_kai_state
              no_hub no_hub_map.

Definition no_faults (_ : nat) : Updater.fault := Updater.NoFault.
Definition update_always_fails (_ : nat) : Updater.fault := Updater.UpdateFails.

(** The bulk loader with one upsert per envelope, each of 10 bytes, every
    envelope passing the schema and every bulk call succeeding. *)
Definition one_upsert (m : FileQueueMessage) : list string := [fq_msg_id m].
Definition ten_bytes (_ : string) : Z := 10.
Definition accept_envelope (_ : FileQueueMessage) : bool := true.
Definition bulk_succeeds (_ : list string) : Loader.bulk_result := Loader.BulkOk.

Definition entry (id : string) : Loader.FileQueueEntry :=
  {| Loader.message :=
       {| fq_msg_id := id; broker_msg_id := id;
          broker_topic := "org.centos.prod.ci.koji-build.test.queued";
          body := VObj []; address := None; message_id := None |} |}.

Definition run_loader :=
  Loader.run one_upsert ten_bytes accept_envelope bulk_succeeds.

(** An envelope schema that asks for a file-queue id. *)
Definition envelope_with_id (m : FileQueueMessage) : bool :=
  negb (String.eqb (fq_msg_id m) "").

End Scenario.

(* ===================================================================== *)
(** * The derived fields of typed states; what the proofs speak of        *)
(* ===================================================================== *)

Module Derived.

Import DbMsgHandlers.

(** The derived fields of typed states. *)
Definition current_state_of (states : list ArtifactState)
  : list (string * list ArtifactState) :=
  current_state state_thread_id state_timestamp state_state states.

Definition current_state_lenghts_of (states : list ArtifactState)
  : list (string * nat) :=
  current_state_lenghts state_thread_id state_timestamp state_state states.

(** A state with the given thread, state name and time. *)
Definition a_state (thread : string) (name : string) (time : Z) : ArtifactState :=
  {| broker_msg_body := VObj [];
     kai_state := {| thread_id := Some thread; msg_id := Some "ID:1";
                     version := VStr "0.2.1"; stage := Some "test";
                     state := name; timestamp := time;
                     origin_creator := "kaijs-loader";
                     origin_reason := "broker message";
                     test_case_name := None |} |}.

(** [db_artifact.states] as the refresh reads it. *)
Definition states_of_doc (db_artifact : value) : list value :=
  match get db_artifact ["states"] with
  | VArr l => l
  | _ => []
  end.

(** What the kai_state schema asks of a stored state, path by path: the
    state is a string; the timestamp is a number; the test case name, when
    there is one, is not an array, an object or an [ObjectId]. *)
Definition state_is_string (e : value) : bool :=
  isString (get_str e "kai_state.state").

Definition timestamp_is_number (e : value) : bool :=
  match get_str e "kai_state.timestamp" with
  | VNum _ => true
  | _ => false
  end.

Definition test_case_name_is_plain (e : value) : bool :=
  match get_str e "kai_state.test_case_name" with
  | VArr _ | VObj _ | VOid _ => false
  | _ => true
  end.

(** The property key [_.groupBy] makes of the thread id of a stored state:
    [String(e.kai_state.thread_id)]. *)
Definition thread_of (e : value) : string :=
  Str.String_ (get_str e "kai_state.thread_id").

(** The update set in the words of the spec (section 4.5, step 2c): the leaf
    paths of the proposal, arrays whole, that do not resolve to [null] or
    [undefined] and whose value differs from the persisted value at the same
    path. *)
Definition update_set_of_the_spec (present newdata : value)
  : list (path * value) :=
  map (fun p => (p, get newdata p))
      (filter (fun p => negb (isEqual (get newdata p) (get present p)))
              (drop_empty_paths (paths_mongodb_pack_array newdata) newdata)).

(** The elements of a collection that go under one key, in order. *)
Definition bucket {A : Type} (key : A -> string) (k : string) (l : list A)
  : list A :=
  filter (fun x => String.eqb (key x) k) l.

(** The groups built so far hold, key by key, the elements seen so far. *)
Definition groups_of {A : Type} (key : A -> string)
  (g : list (string * list A)) (seen : list A) : Prop :=
  NoDup (keys g)
  /\ forall k, lookup k g = match bucket key k seen with
                            | [] => None
                            | b => Some b
                            end.

(** The entries waiting in the batch have all passed the schema. *)
Definition batch_valid {Upsert : Type}
  (fq_msg_valid : FileQueueMessage -> bool)
  (st : Loader.loader_state Upsert) : Prop :=
  Forall (fun e => fq_msg_valid (Loader.message e) = true)
         (Loader.fqEntries st).

End Derived.
Export Derived.

(* ===================================================================== *)
(** * db.ts: the collection classes, [cfg_indexes], [add_to_db]           *)
(* ===================================================================== *)

Module Collections.

(** [a || b] where [a] is a string or [undefined]: the empty string is
    falsy, as [undefined] is. *)
Definition or_else (a : option string) (b : string) : string :=
  match a with
  | Some s => if String.eqb s "" then b else s
  | None => b
  end.

(** The fields of a [DBCollection] that its constructor computes from its
    arguments and the configuration. *)
Record DBCollection : Type := {
  cfg_entry : string;
  collection_name : string;
  url : string;
  db_name : string
}.

(** An index of the configuration: its [keys] and what
    [_.get(index, 'options.name')] gives, [None] for [undefined]. *)
Record IndexConfig : Type := {
  index_keys : value;
  index_options_name : option string
}.

(** What [cfg_indexes] asks of the collection. *)
Inductive index_action : Type :=
| dropIndex (name : string)
| createIndex (index : IndexConfig).

Section Config.

(** [cfg.loader.db] comes from [getcfg()], which is not part of these
    sources. *)
Variable cfg_db_url : string.
Variable cfg_db_name : string.
Variable cfg_collections_name : string -> string.
Variable cfg_collections_indexes : string -> list IndexConfig.

(** The constructor of [DBCollection]. *)
Definition new_DBCollection (cfg_entry : string)
  (url collection_name db_name : option string) : DBCollection :=
  {| cfg_entry := cfg_entry;
     url := or_else url cfg_db_url;
     collection_name := or_else collection_name (cfg_collections_name cfg_entry);
     db_name := or_else db_name cfg_db_name |}.

(** The constructors of the three subclasses, each with its call of
    [super]. *)
Definition new_ValidationErrors (url collection_name db_name : option string)
  : DBCollection :=
  new_DBCollection "invalid" collection_name url db_name.

Definition new_UnknownBrokerTopics (url collection_name db_name : option string)
  : DBCollection :=
  new_DBCollection "no_handler" collection_name url db_name.

Definition new_Artifacts (url collection_name db_name : option string)
  : DBCollection :=
  new_DBCollection "artifacts" collection_name url db_name.

(** [get_collection], up to the object it constructs; [init] and
    [cfg_indexes] follow on that object. *)
Definition get_collection (name : string)
  (url collection_name db_name : option string) : result DBCollection :=
  if String.eqb name "artifacts" then
    Ok (new_Artifacts url collection_name db_name)
  else if String.eqb name "invalid" then
    Ok (new_ValidationErrors url collection_name db_name)
  else if String.eqb name "no_handler" then
    Ok (new_UnknownBrokerTopics url collection_name db_name)
  else Throw (Error "Unknown collection name.").

(** [cfg_indexes], the collection being initialized: what it asks of the
    collection, in order, [indexes_active] being the names
    [collection.indexes()] reported. *)
Definition cfg_indexes (this : DBCollection) (indexes_active : list string)
  : list index_action :=
  let indexes_config := cfg_collections_indexes (cfg_entry this) in
  let preserve := [Some "_id_"] in
  let keep := preserve ++ map index_options_name indexes_config in
  let includes (name : string) :=
    existsb (fun k => match k with
                      | Some n => String.eqb n name
                      | None => false
                      end) keep in
  let dropped :=
    if Nat.eqb (List.length indexes_active) 0 then []
    else map dropIndex
             (filter (fun name => negb (includes name)) indexes_active) in
  if Nat.eqb (List.length indexes_config) 0 then dropped
  else
    let is_present (index : IndexConfig) :=
      match index_options_name index with
      | Some name => existsb (fun active => String.eqb active name)
                             indexes_active
      | None => false
      end in
    dropped
    ++ map createIndex
           (filter (fun index => negb (is_present index)) indexes_config).

End Config.

Section Server.

(** The name the server gives an index that is created without one; it is
    made of the keys. *)
Variable name_of_keys : value -> string.

Definition index_name (index : IndexConfig) : string :=
  match index_options_name index with
  | Some name => name
  | None => name_of_keys (index_keys index)
  end.

(** The names of the indexes of the collection after the server has done
    what it was asked.  The names are followed, not the specifications: an
    index asked for under a name in use is taken to be the one in place. *)
Definition server_index (names : list string) (a : index_action)
  : list string :=
  match a with
  | dropIndex name => filter (fun n => negb (String.eqb n name)) names
  | createIndex index =>
      if existsb (String.eqb (index_name index)) names then names
      else names ++ [index_name index]
  end.

Definition server_indexes (names : list string) (acts : list index_action)
  : list string :=
  fold_left server_index acts names.

End Server.

Section AddToDb.

Variable db_artifact_valid : value -> bool.
Variable faults : nat -> Updater.fault.
Variable sha256_hex : string -> string.
Variable Date_parse : value -> option Z.
Variable kai_state_valid : KaiState -> bool.
Variable koji_getBuild : string -> value -> result value.
Variable atype_to_hub_map : string -> option string.

(** [assert_is_valid(message.body, broker_topic)] passes; the schemas are
    fetched at run time. *)
Variable body_valid : string -> value -> bool.

(** [Artifacts.add_to_db]: the body is checked against the schema of its
    topic, then [add] does the rest; what [add] throws is thrown again. *)
Definition add_to_db (message : FileQueueMessage) (c : Db.collection)
  : Updater.outcome :=
  if body_valid (broker_topic message) (body message) then
    Updater.add db_artifact_valid faults sha256_hex Date_parse kai_state_valid
                koji_getBuild atype_to_hub_map message c
  else
    {| Updater.returned := Throw (ValidationError (broker_topic message));
       Updater.store := c;
       Updater.trace := [] |}.

End AddToDb.

End Collections.

(* ===================================================================== *)
(** * The listener: receiver links and their queue names                  *)
(* ===================================================================== *)

Module Listener.

(** [s.indexOf(c)] for a character; [None] is JavaScript's [-1]. *)
Fixpoint indexOf (c : ascii) (s : string) : option nat :=
  match s with
  | EmptyString => None
  | String x rest =>
      if Ascii.eqb x c then Some 0%nat else option_map S (indexOf c rest)
  end.

(** A receiver link, by the address of its source. *)
Record Receiver : Type := {
  source_address : string
}.

(** The queue name [close_all_links] makes of a link. *)
Definition queue_name_of (l : Receiver) : string :=
  let queue_name := source_address l in
  let n := indexOf "?"%char queue_name in
  String.substring 0
    (match n with Some n => n | None => String.length queue_name end)
    queue_name.

Section Links.

(** [l.isOpen()], and whether [l.close({closeSession: true})] returns. *)
Variable isOpen : Receiver -> bool.
Variable close_returns : Receiver -> bool.

(** [close_all_links]: how it ends, the links left in the set, and the queue
    names of the links it set out to close, in order. *)
Fixpoint close_all_links (links : list Receiver)
  : result unit * list Receiver * list string :=
  match links with
  | [] => (Ok tt, [], [])
  | l :: rest =>
      let queue_name := queue_name_of l in
      if isOpen l then
        if close_returns l then
          let '(r, remaining, closing) := close_all_links rest in
          (r, remaining, queue_name :: closing)
        else (Throw (Error "close"), l :: rest, [queue_name])
      else
        let '(r, remaining, closing) := close_all_links rest in
        (r, l :: remaining, closing)
  end.

End Links.

Section Broker.

(** [broker_cfg.client_name], the subscription id (configured or a fresh
    uuid), [broker_cfg.prefetch] and [topics_cfg]. *)
Variable client_name : string.
Variable subscription_id : string.
Variable prefetch : Z.
Variable topics_cfg : list string.

(** [connection.createReceiver(receiverOptions)] resolves, by the address
    of the source. *)
Variable createReceiver_resolves : string -> bool.

Definition receiver_address (topic : string) : string :=
  ("Consumer." ++ client_name ++ "." ++ subscription_id ++ "." ++ topic)%string.

Definition activemq_address (topic : string) : string :=
  ((receiver_address topic ++ "?consumer.prefetchSize=" ++ Str.of_Z prefetch)
   ++ "&consumer.exclusive=true")%string.

(** [create_links]: one receiver for each distinct topic, added to the set
    of links unless it could not be created. *)
Definition create_links (links : list Receiver) : list Receiver :=
  let topics := DbMsgHandlers.uniq String.eqb topics_cfg in
  fold_left
    (fun links topic =>
       if createReceiver_resolves (activemq_address topic) then
         links ++ [{| source_address := activemq_address topic |}]
       else links)
    topics links.

End Broker.

(** [_.split(s, ':')]. *)
Fixpoint split_colon (s : string) : list string :=
  match s with
  | EmptyString => [""]
  | String c rest =>
      if Ascii.eqb c ":"%char then "" :: split_colon rest
      else
        match split_colon rest with
        | [] => [String c ""]
        | h :: t => String c h :: t
        end
  end.

(** What [connection_details] returns, as far as the host and the port go:
    [details.host] and [details.options.port]. *)
Record ConnectionDetails : Type := {
  host : string;
  options_port : value
}.

Section Failover.

(** [broker_cfg.failover.set], [connectionOptions.host] and
    [connectionOptions.port]. *)
Variable failover : list string.
Variable connectionOptions_host : value.
Variable connectionOptions_port : value.

(** [connection_details], which the connection calls before each attempt
    to connect; [attempt] is the counter it reads and increments. *)
Definition connection_details (attempt : nat) : ConnectionDetails * nat :=
  let '(host, port) :=
    match failover with
    | _ :: _ =>
        let host_port :=
          nth (attempt mod List.length failover) failover "" in
        match split_colon host_port with
        | host :: port :: _ => (VStr host, VStr port)
        | [host] => (VStr host, VUndefined)
        | [] => (VUndefined, VUndefined)
        end
    | [] => (connectionOptions_host, connectionOptions_port)
    end in
  let attempt := S attempt in
  ({| host := Str.toString host; options_port := port |}, attempt).

End Failover.









Section ProcessMsg.

(** [JSON.parse] of a text; [None] when it throws. *)
Variable JSON_parse : string -> option value.


End ProcessMsg.

End Listener.

(* ===================================================================== *)
(** * What the further properties speak of                                *)
(* ===================================================================== *)

Module Further.


(** [_.map(states, 'kai_state.msg_id')]. *)
Definition msg_ids (states : list value) : list value :=
  map (fun e => get_str e "kai_state.msg_id") states.

(** What [handler_rpm_build_test_common] does with the document it found
    or created and the state it made: the statements after [mk_state]. *)
Definition rpm_proposal (db_artifact : value) (broker_msg : FileQueueMessage)
  (artifact_new_state : ArtifactState) : value :=
  let message_id := message_id broker_msg in
  let artifact := get (body broker_msg) ["artifact"] in
  let rpm_build :=
    [("task_id", get artifact ["id"]);
     ("nvr", get artifact ["nvr"]);
     ("source", get artifact ["source"]);
     ("issuer", get artifact ["issuer"]);
     ("scratch", get artifact ["scratch"]);
     ("component", get artifact ["component"])] in
  let states :=
    match get db_artifact ["states"] with
    | VUndefined | VNull | VNaN => VArr []
    | v => v
    end in
  let db_artifact := DbMsgHandlers.assign_field "states" states db_artifact in
  let state_list := match states with VArr l => l | _ => [] end in
  let db_artifact :=
    if negb (existsb
               (fun e => isEqual (get_str e "kai_state.msg_id")
                                 (string_or_undefined message_id))
               state_list)
    then
      DbMsgHandlers.actualize_current_states
        (DbMsgHandlers.assign_field "states"
           (VArr (state_list
                  ++ [DbMsgHandlers.state_to_value artifact_new_state]))
           db_artifact)
    else db_artifact in
  DbMsgHandlers.assign_field "rpm_build"
    (Merge.mergeWith (get db_artifact ["rpm_build"]) rpm_build)
    db_artifact.

(** The string has the character. *)
Fixpoint has_char (c : ascii) (s : string) : bool :=
  match s with
  | EmptyString => false
  | String x rest => Ascii.eqb x c || has_char c rest
  end.

(** The entries the queue handed over. *)
Definition popped_entries (inputs : list Loader.popped)
  : list Loader.FileQueueEntry :=
  flat_map (fun i => match i with
                     | Loader.Popped e _ => [e]
                     | Loader.PopFails => []
                     end) inputs.

(** The entries committed and the entries rolled back, in order. *)
Definition committed {Upsert : Type} (acts : list (Loader.action Upsert))
  : list Loader.FileQueueEntry :=
  flat_map (fun a => match a with Loader.Commit _ e => [e] | _ => [] end) acts.

Definition rolled_back {Upsert : Type} (acts : list (Loader.action Upsert))
  : list Loader.FileQueueEntry :=
  flat_map (fun a => match a with Loader.Rollback _ e => [e] | _ => [] end) acts.

(** The upserts of a list of entries. *)
Definition upserts_of {Upsert : Type}
  (getMsgUpserts : FileQueueMessage -> list Upsert)
  (entries : list Loader.FileQueueEntry) : list Upsert :=
  flat_map (fun e => getMsgUpserts (Loader.message e)) entries.

(** The entry's envelope passes the envelope schema. *)
Definition passes (fq_msg_valid : FileQueueMessage -> bool)
  (e : Loader.FileQueueEntry) : bool :=
  fq_msg_valid (Loader.message e).

(** The batch is the upserts of the waiting entries, and its size is theirs. *)
Definition batch_consistent {Upsert : Type}
  (getMsgUpserts : FileQueueMessage -> list Upsert)
  (getObjectSize : Upsert -> Z)
  (st : Loader.loader_state Upsert) : Prop :=
  Loader.bulkUpserts st = upserts_of getMsgUpserts (Loader.fqEntries st)
  /\ Loader.bulkSizeBytes st
     = Loader.sum (map getObjectSize (Loader.bulkUpserts st)).

(** A bulk update that throws an [Error], whatever it is given. *)
Definition bulk_fails (_ : list string) : Loader.bulk_result :=
  Loader.BulkError.

(** What [findOrCreate] tells documents apart by. *)
Definition type_aid (d : value) : value * value :=
  (get d ["type"], get d ["aid"]).

(** A hub for every artifact type, which knows one build. *)
Definition one_hub (_ : string) : option string := Some "fedora".
Definition build_found (_ : string) (_ : value) : result value :=
  Ok (VObj [("task_id", VNum 42); ("nvr", VStr "pkg-1.0-1.fc33");
            ("name", VStr "pkg")]).

(** A tag event for that build. *)
Definition tag_envelope : FileQueueMessage :=
  {| fq_msg_id := "1640995200-ID:2";
     broker_msg_id := "ID:2";
     broker_topic := "org.fedoraproject.prod.buildsys.tag";
     address := Some "org.fedoraproject.prod.buildsys.tag";
     message_id := Some "ID:2";
     body := VObj [("build_id", VNum 1728223); ("owner", VStr "alice");
                   ("tag", VStr "f33-updates")] |}.

(** The two tests of [cfg_indexes]: the name is among the names to keep;
    the configured index is among the active ones. *)
Definition kept_name (indexes_config : list Collections.IndexConfig)
  (name : string) : bool :=
  existsb (fun k => match k with
                    | Some n => String.eqb n name
                    | None => false
                    end)
          ([Some "_id_"] ++ map Collections.index_options_name indexes_config).

Definition index_present (indexes_active : list string)
  (index : Collections.IndexConfig) : bool :=
  match Collections.index_options_name index with
  | Some name => existsb (fun active => String.eqb active name) indexes_active
  | None => false
  end.

(** The host and the port that [connection_details] takes from an entry of
    the failover set. *)
Definition host_and_port (host_port : string) : string * value :=
  match Listener.split_colon host_port with
  | host :: port :: _ => (host, VStr port)
  | [host] => (host, VUndefined)
  | [] => ("", VUndefined)
  end.

(** The hosts and ports of the attempts made with the counter at the given
    values. *)
Definition attempts_made (failover : list string) (counters : list nat)
  : list (string * value) :=
  map (fun attempt =>
         let details :=
           fst (Listener.connection_details failover VUndefined VUndefined
                  attempt) in
         (Listener.host details, Listener.options_port details))
      counters.

(** The three patterns of [get_handler] against a topic. *)
Definition is_centos_tag (topic : string) : bool :=
  DbMsgHandlers.match_whole "org.centos.prod.buildsys.tag" topic.

Definition is_fedora_tag (topic : string) : bool :=
  DbMsgHandlers.match_whole "org.fedoraproject.prod.buildsys.tag" topic.

Definition is_koji_build_test (topic : string) : bool :=
  match DbMsgHandlers.match_prefix "org.centos.prod.ci.koji-build.test." topic
  with
  | Some rest =>
      String.eqb rest "complete" || String.eqb rest "queued"
      || String.eqb rest "running" || String.eqb rest "error"
  | None => false
  end.

(** No event of the trace is a write: the call has made no update with
    [$inc] and [$set]. *)
Definition no_write (trace : list Updater.event) : Prop :=
  existsb Updater.is_write trace = false.

(** A document as the upsert of [findOrCreate] inserts it. *)
Definition upserted (d : value) : Prop :=
  exists id type aid,
    d = VObj [("_id", VOid id); ("type", type); ("aid", aid);
              ("_version", VNum 1)].

(** No attempt meets another writer. *)
Definition no_other_writer (faults : nat -> Updater.fault) : Prop :=
  forall n, match faults n with
            | Updater.ConcurrentWrite _ => False
            | _ => True
            end.

(** The documents stored before are in their places, unchanged, and the
    documents after them are upserts. *)
Definition grown_by_upserts (before after : Db.collection) : Prop :=
  exists added,
    Db.docs after = Db.docs before ++ added /\ Forall upserted added.

(** The state [mk_state] makes of the queued envelope of the scenarios. *)
Definition queued_state : ArtifactState :=
  {| broker_msg_body := body (Scenario.queued_envelope 42 Scenario.with_pipeline);
     kai_state := {| thread_id := Some "PIPE-1"; msg_id := Some "ID:1";
                     version := VStr "0.2.1"; stage := Some "test";
                     state := "queued"; timestamp := 1640995200000;
                     origin_creator := "kaijs-loader";
                     origin_reason := "broker message";
                     test_case_name := Some "x.y.z" |} |}.

End Further.
Export Further.

(* ===================================================================== *)
(** * Facts about objects                                                 *)
(* ===================================================================== *)

Section ObjectFacts.

Context {B : Type}.

Lemma lookup_set_field_eq (k : string) (v : B) (f : list (string * B)) :
  lookup k (set_field k v f) = Some v.
Proof.
  induction f as [|[k' v'] f IH]; simpl.
  - now rewrite String.eqb_refl.
  - destruct (String.eqb k k') eqn:E; simpl; rewrite E; auto.
Qed.

Lemma lookup_set_field_ne (k k' : string) (v : B) (f : list (string * B)) :
  k <> k' -> lookup k (set_field k' v f) = lookup k f.
Proof.
  intros Hne. induction f as [|[k'' v''] f IH]; simpl.
  - apply String.eqb_neq in Hne. now rewrite Hne.
  - destruct (String.eqb k' k'') eqn:E; simpl.
    + apply String.eqb_eq in E. subst k''.
      apply String.eqb_neq in Hne. now rewrite Hne.
    + now rewrite IH.
Qed.

Lemma lookup_None_not_In (k : string) (f : list (string * B)) :
  lookup k f = None <-> ~ In k (keys f).
Proof.
  induction f as [|[k' v'] f IH]; simpl.
  - tauto.
  - destruct (String.eqb k k') eqn:E.
    + apply String.eqb_eq in E. subst. split; [discriminate | tauto].
    + apply String.eqb_neq in E. rewrite IH. split; intros H.
      * intros [H1 | H1]; [congruence | tauto].
      * tauto.
Qed.

Lemma set_field_fresh (k : string) (v : B) (f : list (string * B)) :
  lookup k f = None -> set_field k v f = f ++ [(k, v)].
Proof.
  induction f as [|[k' v'] f IH]; simpl; auto.
  destruct (String.eqb k k'); [discriminate|].
  intros H. now rewrite IH.
Qed.

Lemma lookup_app_fresh (k : string) (f g : list (string * B)) :
  lookup k f = None -> lookup k (f ++ g) = lookup k g.
Proof.
  induction f as [|[k' v'] f IH]; simpl; auto.
  destruct (String.eqb k k'); [discriminate | auto].
Qed.

(** In an object every key has one value. *)
Lemma In_lookup (k : string) (v : B) (g : list (string * B)) :
  NoDup (keys g) -> In (k, v) g -> lookup k g = Some v.
Proof.
  induction g as [|[k' v'] g IH]; simpl; intros Hnd Hin; [contradiction|].
  inversion Hnd as [|? ? Hk Hnd']; subst.
  destruct Hin as [E|Hin].
  - inversion E; subst. now rewrite String.eqb_refl.
  - destruct (String.eqb k k') eqn:E; auto.
    apply String.eqb_eq in E. subst k'.
    exfalso. apply Hk. change k with (fst (k, v)). now apply in_map.
Qed.

Lemma lookup_In (k : string) (v : B) (g : list (string * B)) :
  lookup k g = Some v -> In (k, v) g.
Proof.
  induction g as [|[k' v'] g IH]; simpl; [discriminate|].
  destruct (String.eqb k k') eqn:E; auto.
  apply String.eqb_eq in E. subst. intros H. inversion H. auto.
Qed.

End ObjectFacts.

Lemma existsb_eqb_In (x : string) (l : list string) :
  existsb (String.eqb x) l = true <-> In x l.
Proof.
  rewrite existsb_exists. split.
  - intros [y [Hy E]]. apply String.eqb_eq in E. now subst.
  - intros H. exists x. split; auto. apply String.eqb_refl.
Qed.

Lemma nodupb_NoDup (l : list string) : nodupb l = true <-> NoDup l.
Proof.
  induction l as [|x l IH]; simpl.
  - split; [constructor | reflexivity].
  - rewrite andb_true_iff, negb_true_iff, IH. split.
    + intros [H1 H2]. constructor; auto.
      intros Hin. apply existsb_eqb_In in Hin. congruence.
    + intros H. inversion H; subst. split; auto.
      destruct (existsb (String.eqb x) l) eqn:E; auto.
      apply existsb_eqb_In in E. contradiction.
Qed.

(* ===================================================================== *)
(** * The merge rule set                                                  *)
(* ===================================================================== *)

Section MergeFacts.

Import Merge.

Lemma merge_into_eq (s d : list (string * value)) :
  (fix go (src : list (string * value)) (dest : list (string * value))
     : list (string * value) :=
     match src with
     | [] => dest
     | (k, s) :: src' =>
         let objv := match lookup k dest with
                     | Some x => x
                     | None => VUndefined
                     end in
         go src' (assignMergeValue k (mergeValue objv s) dest)
     end) s d = merge_fields s d.
Proof.
  revert d. induction s as [|[k v] s IH]; intros d; simpl; auto.
Qed.

Lemma merge_elems_eq (s d : list value) (i : nat) :
  (fix go (i : nat) (src : list value) (dest : list value) : list value :=
     match src with
     | [] => dest
     | s :: src' =>
         let merged := mergeValue (nth i dest VUndefined) s in
         go (S i) src'
            (match merged with
             | VUndefined =>
                 if Nat.ltb i (List.length dest) then dest
                 else set_index i merged dest
             | _ => set_index i merged dest
             end)
     end) i s d = merge_items i s d.
Proof.
  revert d i. induction s as [|v s IH]; intros d i; simpl; auto.
Qed.

Lemma mergeValue_obj_obj (d s : list (string * value)) :
  mergeValue (VObj d) (VObj s) = VObj (merge_fields s d).
Proof. simpl. now rewrite merge_into_eq. Qed.

Lemma mergeValue_obj_fresh (o : value) (s : list (string * value)) :
  match o with VObj _ | VArr _ | VOid _ => False | _ => True end ->
  mergeValue o (VObj s) = VObj (merge_fields s []).
Proof.
  intros H. destruct o; try contradiction; simpl; now rewrite merge_into_eq.
Qed.

Lemma mergeValue_arr (o : value) (s : list value) :
  customMerge o (VArr s) = None ->
  mergeValue o (VArr s)
  = VArr (merge_items 0 s (match o with VArr d => d | _ => [] end)).
Proof.
  intros H. simpl mergeValue. rewrite H. now rewrite merge_elems_eq.
Qed.

Lemma mergeValue_undefined_inv (o s : value) :
  mergeValue o s = VUndefined -> o = VUndefined.
Proof.
  destruct s; simpl; auto;
    unfold customMerge; destruct o; simpl; try discriminate; auto;
    repeat match goal with
           | |- context [if ?c then _ else _] => destruct c
           | |- context [match ?l with [] => _ | _ :: _ => _ end] => destruct l
           end; simpl; try discriminate; auto.
Qed.

Lemma set_index_length (v : value) (d : list value) :
  set_index (List.length d) v d = d ++ [v].
Proof. induction d as [|x d IH]; simpl; auto. now rewrite IH. Qed.

Lemma merge_items_fresh (s d : list value) :
  Forall (fun v => mergeValue VUndefined v = v) s ->
  merge_items (List.length d) s d = d ++ s.
Proof.
  revert d. induction s as [|v s IH]; intros d Hall; simpl.
  - now rewrite app_nil_r.
  - inversion Hall as [|? ? Hv Hs]; subst.
    rewrite nth_overflow by lia. rewrite Hv.
    rewrite Nat.ltb_irrefl.
    assert (E : (match v with
                 | VUndefined => set_index (List.length d) v d
                 | _ => set_index (List.length d) v d
                 end) = d ++ [v]).
    { destruct v; apply set_index_length. }
    rewrite E.
    replace (S (List.length d)) with (List.length (d ++ [v]))
      by (rewrite length_app; simpl; lia).
    rewrite IH by assumption. now rewrite <- app_assoc.
Qed.

Lemma assignMergeValue_fresh (k : string) (v : value)
  (d : list (string * value)) :
  lookup k d = None -> assignMergeValue k v d = d ++ [(k, v)].
Proof.
  intros H. unfold assignMergeValue, has_key. rewrite H.
  destruct v; now apply set_field_fresh.
Qed.

Lemma merge_fields_fresh (s d : list (string * value)) :
  NoDup (keys s) ->
  (forall k, In k (keys s) -> lookup k d = None) ->
  Forall (fun kv => mergeValue VUndefined (snd kv) = snd kv) s ->
  merge_fields s d = d ++ s.
Proof.
  revert d. induction s as [|[k v] s IH]; intros d Hnd Hdis Hall; simpl.
  - now rewrite app_nil_r.
  - inversion Hnd as [|? ? Hk Hnd']; subst.
    inversion Hall as [|? ? Hv Hs]; subst. simpl in Hv.
    rewrite (Hdis k) by (simpl; auto). rewrite Hv.
    rewrite assignMergeValue_fresh by (apply Hdis; simpl; auto).
    rewrite IH; auto.
    + now rewrite <- app_assoc.
    + intros k' Hk'. rewrite lookup_app_fresh by (apply Hdis; simpl; auto).
      simpl. destruct (String.eqb k' k) eqn:E; auto.
      apply String.eqb_eq in E. subst. contradiction.
Qed.

(** Merged into nothing, a value comes out as it is. *)
Lemma mergeValue_fresh (v : value) :
  well_formed v = true -> mergeValue VUndefined v = v.
Proof.
  induction v as [| | | | | | |items IH|fields IH] using value_ind;
    intros Hwf; auto.
  - rewrite mergeValue_arr by reflexivity.
    change (merge_items 0 items []) with
      (merge_items (List.length (@nil value)) items []).
    rewrite (@merge_items_fresh items []); auto.
    simpl in Hwf. rewrite forallb_forall in Hwf.
    rewrite Forall_forall in *. intros x Hx. apply IH; auto.
  - rewrite mergeValue_obj_fresh by exact I.
    simpl in Hwf. apply andb_true_iff in Hwf. destruct Hwf as [Hnd Hall].
    rewrite merge_fields_fresh; auto.
    + now apply nodupb_NoDup.
    + rewrite forallb_forall in Hall.
      rewrite Forall_forall in *. intros x Hx. apply IH; auto.
Qed.

Lemma lookup_assignMergeValue_ne (k k' : string) (v : value)
  (d : list (string * value)) :
  k <> k' -> lookup k (assignMergeValue k' v d) = lookup k d.
Proof.
  intros Hne. unfold assignMergeValue.
  destruct v; try (now apply lookup_set_field_ne).
  destruct (has_key k' d); auto. now apply lookup_set_field_ne.
Qed.

Lemma merge_fields_lookup_other (k : string) (s d : list (string * value)) :
  ~ In k (keys s) -> lookup k (merge_fields s d) = lookup k d.
Proof.
  revert d. induction s as [|[k' v] s IH]; intros d Hk; simpl; auto.
  rewrite IH by (simpl in Hk; tauto).
  apply lookup_assignMergeValue_ne. simpl in Hk. intros E. subst. tauto.
Qed.

(** What the merge leaves under a key of the source. *)
Lemma get_merge_fields (k : string) (nv : value) (s d : list (string * value)) :
  NoDup (keys s) ->
  lookup k s = Some nv ->
  get (VObj (merge_fields s d)) [k] = mergeValue (get (VObj d) [k]) nv.
Proof.
  revert d. induction s as [|[k' v] s IH]; intros d Hnd Hk; simpl in Hk.
  - discriminate.
  - inversion Hnd as [|? ? Hk' Hnd']; subst.
    destruct (String.eqb k k') eqn:E.
    + apply String.eqb_eq in E. subst k'. inversion Hk; subst v. clear Hk.
      simpl merge_fields. simpl get.
      rewrite merge_fields_lookup_other by assumption.
      set (objv := match lookup k d with Some x => x | None => VUndefined end).
      unfold assignMergeValue, has_key.
      destruct (mergeValue objv nv) eqn:M;
        try (now rewrite lookup_set_field_eq).
      apply mergeValue_undefined_inv in M.
      subst objv. destruct (lookup k d) eqn:L.
      * subst. now rewrite L.
      * now rewrite lookup_set_field_eq.
    + simpl merge_fields.
      rewrite (IH _ Hnd' Hk). f_equal. simpl.
      rewrite lookup_assignMergeValue_ne; auto.
      now apply String.eqb_neq.
Qed.

Lemma length_set_index (i : nat) (v : value) (d : list value) :
  List.length (set_index i v d) = Nat.max (S i) (List.length d).
Proof.
  revert d. induction i as [|i IH]; intros [|x d]; simpl; auto;
    now rewrite IH.
Qed.

Lemma nth_error_set_index_ne (i j : nat) (v : value) (d : list value) :
  (i < j)%nat -> nth_error (set_index i v d) j = nth_error d j.
Proof.
  revert j d. induction i as [|i IH]; intros [|j] [|x d] Hlt; simpl; try lia; auto.
  - now destruct j.
  - rewrite IH by lia. now destruct j.
  - apply IH. lia.
Qed.

(** An array merged into an array leaves the destination beyond its own
    length as it was. *)
Lemma merge_items_tail (s d : list value) (i j : nat) :
  (i + List.length s <= j)%nat ->
  nth_error (merge_items i s d) j = nth_error d j.
Proof.
  revert d i. induction s as [|v s IH]; intros d i Hj; simpl in *; auto.
  rewrite IH by lia.
  destruct (mergeValue (nth i d VUndefined) v);
    try (apply nth_error_set_index_ne; lia).
  destruct (Nat.ltb i (List.length d)); auto.
  apply nth_error_set_index_ne; lia.
Qed.

End MergeFacts.

(** ** C8: the rule set of the sub-record merge *)

(** C8, counterexample.  Both sides are arrays and the new array [[3]] is not
    empty, yet the new value does not overwrite the destination [[1, 2]]:
    lodash merges the two arrays index by index and leaves [[3, 2]]. *)
Lemma customMerge_array_not_overwritten :
  let dest := [("a", VArr [VNum 1; VNum 2])] in
  let src := [("a", VArr [VNum 3])] in
  isArray (get (VObj dest) ["a"]) = true
  /\ isArray (get (VObj src) ["a"]) = true
  /\ isEmpty (get (VObj src) ["a"]) = false
  /\ get (Merge.mergeWith (VObj dest) src) ["a"] = VArr [VNum 3; VNum 2]
  /\ get (Merge.mergeWith (VObj dest) src) ["a"] <> get (VObj src) ["a"].
Proof.
  repeat split; try reflexivity. simpl. discriminate.
Qed.

(** C8, amended.  For a key [k] of the new partial record, [old] being the
    destination's value and [merged] the value after
    [_.mergeWith(dest, src, customMerge)]:
      - a missing destination field is assigned the new value;
      - both arrays and the new one empty: the destination is kept;
      - both strings and the new one empty: the destination is kept;
      - both plain objects: they merge recursively;
      - both arrays and the new one not empty: they merge index by index,
        and the destination's elements beyond the new array's length stay;
      - an [undefined] new value keeps the destination;
      - a plain object does not overwrite a destination that is an array or
        an [ObjectId]: the destination stays an array or an [ObjectId];
      - in the other cases the new value overwrites the destination: a new
        value that is not [undefined], an array or a plain object, unless
        both are strings and the new one is empty; an array, empty or not,
        met by a destination that is neither an array nor an object with a
        numeric [length]; a plain object met by a destination that is not an
        object. *)
Theorem customMerge_rule_set
  (dest src : list (string * value)) (k : string) (newValue : value) :
  nodupb (keys src) = true ->
  well_formed newValue = true ->
  lookup k src = Some newValue ->
  let old := get (VObj dest) [k] in
  let merged := get (Merge.mergeWith (VObj dest) src) [k] in
  (old = VUndefined -> merged = newValue)
  /\ (isArray old = true -> newValue = VArr [] -> merged = old)
  /\ (isString old = true -> newValue = VStr "" -> merged = old)
  /\ (forall d s, old = VObj d -> newValue = VObj s ->
        merged = VObj (Merge.merge_fields s d))
  /\ (forall a x l, old = VArr a -> newValue = VArr (x :: l) ->
        merged = VArr (Merge.merge_items 0 (x :: l) a)
        /\ forall j, (List.length (x :: l) <= j)%nat ->
             nth_error (Merge.merge_items 0 (x :: l) a) j = nth_error a j)
  /\ (newValue = VUndefined -> merged = old)
  /\ (forall s, newValue = VObj s ->
        match old with VArr _ | VOid _ => True | _ => False end ->
        merged <> newValue
        /\ match merged with VArr _ | VOid _ => True | _ => False end)
  /\ (is_scalar newValue = true ->
      isString old && isString newValue && isEmpty newValue = false ->
      merged = newValue)
  /\ (forall l, newValue = VArr l -> Merge.isArrayLikeObject old = false ->
        merged = newValue)
  /\ (forall s, newValue = VObj s ->
        match old with VObj _ | VArr _ | VOid _ => False | _ => True end ->
        merged = newValue).
Proof.
  intros Hnd Hwf Hk old merged.
  assert (Hm : merged = Merge.mergeValue old newValue).
  { subst merged old. unfold Merge.mergeWith.
    apply get_merge_fields; auto. now apply nodupb_NoDup. }
  rewrite Hm. clear Hm merged.
  split; [|split; [|split; [|split; [|split; [|split; [|split;
    [|split; [|split]]]]]]]].
  - intros E. rewrite E. now apply mergeValue_fresh.
  - intros Ha E. subst newValue. destruct old; try discriminate. reflexivity.
  - intros Hs E. subst newValue. destruct old; try discriminate. reflexivity.
  - intros d s Eo En. rewrite Eo, En. apply mergeValue_obj_obj.
  - intros a x l Eo En. split.
    + rewrite Eo, En. now rewrite mergeValue_arr.
    + intros j Hj. apply merge_items_tail. simpl in *. lia.
  - intros E. rewrite E. reflexivity.
  - intros s En Ho. rewrite En.
    destruct old; try contradiction; simpl; split; auto; discriminate.
  - intros Hs Hc. destruct newValue; try discriminate; simpl;
      unfold Merge.customMerge; simpl; try rewrite !andb_false_r; auto.
    simpl in Hc. rewrite Hc. reflexivity.
  - intros l En Ha. rewrite En in *.
    assert (Hn : isArray old = false) by (destruct old; auto; discriminate).
    rewrite mergeValue_arr.
    + destruct old; try discriminate;
        rewrite <- (mergeValue_arr VUndefined) by reflexivity;
        now apply mergeValue_fresh.
    + unfold Merge.customMerge. rewrite Hn. simpl.
      now rewrite andb_false_r.
  - intros s En Ho. rewrite En in *.
    rewrite mergeValue_obj_fresh by assumption.
    rewrite <- (@mergeValue_obj_fresh VUndefined) by exact I.
    now apply mergeValue_fresh.
Qed.

(** Two more cases: an empty array overwrites a string, and an object does
    not overwrite an array. *)
Example customMerge_empty_array_and_object :
  get (Merge.mergeWith (VObj [("a", VStr "x")]) [("a", VArr [])]) ["a"]
  = VArr []
  /\ get (Merge.mergeWith (VObj [("a", VArr [VNum 1])])
            [("a", VObj [("k", VNum 2)])]) ["a"]
     = VArr [VNum 1].
Proof. split; reflexivity. Qed.

(** The rule set at a record with an array and a string, for the key of the
    array. *)
Lemma customMerge_rule_set_witness :
  let dest := [("a", VArr [VNum 1; VNum 2]); ("s", VStr "x")] in
  let src := [("a", VArr [VNum 3]); ("s", VStr "")] in
  nodupb (keys src) = true
  /\ well_formed (VArr [VNum 3]) = true
  /\ lookup "a" src = Some (VArr [VNum 3])
  /\ get (Merge.mergeWith (VObj dest) src) ["a"]
     = VArr (Merge.merge_items 0 [VNum 3] [VNum 1; VNum 2]).
Proof.
  split; [reflexivity | split; [reflexivity | split; [reflexivity | ]]].
  exact (proj1 (proj1 (proj2 (proj2 (proj2 (proj2
    (@customMerge_rule_set
       [("a", VArr [VNum 1; VNum 2]); ("s", VStr "x")]
       [("a", VArr [VNum 3]); ("s", VStr "")]
       "a" (VArr [VNum 3]) eq_refl eq_refl eq_refl)))))
    [VNum 1; VNum 2] (VNum 3) [] eq_refl eq_refl)).
Defined.

(* ===================================================================== *)
(** * The router: thread ids                                              *)
(* ===================================================================== *)

Section RouterFacts.

Variable sha256_hex : string -> string.
Variable Date_parse : value -> option Z.
Variable kai_state_valid : KaiState -> bool.

(** [mkThreadId] and [mk_thread_id] return on every envelope. *)
Lemma mkThreadId_returns (m : FileQueueMessage) :
  exists t, MsgHandlers.mkThreadId sha256_hex m = Ok t
            /\ DbMsgHandlers.mk_thread_id sha256_hex m = Ok t.
Proof.
  unfold MsgHandlers.mkThreadId, DbMsgHandlers.mk_thread_id.
  destruct (negb (isEmpty (get_str (body m) "pipeline.id"))
            && isString (get_str (body m) "pipeline.id")); eauto.
  destruct (negb (isEmpty (get_str (body m) "run.url"))
            && isString (get_str (body m) "run.url")); eauto.
Qed.

(** Neither [makeState] nor [mk_state] ever raises [NoThreadIdError]. *)
Lemma makeState_never_NoThreadIdError (m : FileQueueMessage) :
  is_no_thread_id
    (MsgHandlers.makeState sha256_hex Date_parse kai_state_valid m) = false
  /\ is_no_thread_id
       (DbMsgHandlers.mk_state sha256_hex Date_parse kai_state_valid m) = false.
Proof.
  destruct (mkThreadId_returns m) as [t [H1 H2]].
  unfold MsgHandlers.makeState, DbMsgHandlers.mk_state.
  rewrite H1, H2.
  destruct (Date_parse (get (body m) ["generated_at"])); simpl; auto.
  split.
  - match goal with |- context [if ?c then _ else _] => destruct c end; auto.
  - match goal with |- context [if ?c then _ else _] => destruct c end; auto.
Qed.

End RouterFacts.

(** ** C1: an envelope with neither [pipeline.id] nor [run.url] *)

(** C1, the code at the failing input.  The body of the envelope has no
    [pipeline.id] and no [run.url].  The claim asks for [NoThreadIdError];
    [mkThreadId] returns [undefined] instead, and [makeState] returns an
    [ArtifactState] whose [thread_id] is [undefined] (the same for
    [mk_thread_id] and [mk_state]).  Whatever the schema and the envelope,
    [NoThreadIdError] is never raised. *)
Theorem makeState_without_thread_id :
  let m := Scenario.queued_envelope 42 [] in
  get (body m) ["pipeline"; "id"] = VUndefined
  /\ get (body m) ["run"; "url"] = VUndefined
  /\ MsgHandlers.mkThreadId Scenario.digest m = Ok None
  /\ DbMsgHandlers.mk_thread_id Scenario.digest m = Ok None
  /\ (exists s,
        MsgHandlers.makeState Scenario.digest Scenario.parse_date
          Scenario.accept_kai_state m = Ok s
        /\ DbMsgHandlers.mk_state Scenario.digest Scenario.parse_date
             Scenario.accept_kai_state m = Ok s
        /\ thread_id (kai_state s) = None)
  /\ (forall sha256_hex Date_parse kai_state_valid m',
        is_no_thread_id
          (MsgHandlers.makeState sha256_hex Date_parse kai_state_valid m')
        = false
        /\ is_no_thread_id
             (DbMsgHandlers.mk_state sha256_hex Date_parse kai_state_valid m')
           = false).
Proof.
  repeat split; try reflexivity.
  - eexists. repeat split; reflexivity.
  - apply makeState_never_NoThreadIdError.
  - apply makeState_never_NoThreadIdError.
Qed.

(* ===================================================================== *)
(** * The update set                                                      *)
(* ===================================================================== *)

(** What [mk_update_set] keeps: the non-empty leaf paths of the proposal
    whose value equals the value at no non-empty leaf path of the persisted
    document, each with the proposal's value. *)
Lemma mk_update_set_spec (present newdata : value) (p : path) (v : value) :
  In (p, v) (Db.mk_update_set present newdata)
  <-> (In p (drop_empty_paths (paths_mongodb_pack_array newdata) newdata)
       /\ v = get newdata p
       /\ forall q,
            In q (drop_empty_paths (paths_mongodb_pack_array present) present) ->
            isEqual (get newdata p) (get present q) = false).
Proof.
  unfold Db.mk_update_set, Db.differenceWith, path_mongodb_to_lodash.
  cbv zeta. rewrite in_map_iff. split.
  - intros [p' [E Hin]]. inversion E; subst. clear E.
    apply filter_In in Hin. destruct Hin as [Hin Hex].
    repeat split; auto.
    intros q Hq. apply negb_true_iff in Hex.
    destruct (isEqual (get newdata p) (get present q)) eqn:Eq; auto.
    assert (existsb (fun old_path => isEqual (get newdata p) (get present old_path))
                    (drop_empty_paths (paths_mongodb_pack_array present) present)
            = true) as Hc.
    { apply existsb_exists. eauto. }
    exact (eq_trans (eq_sym Hc) Hex).
  - intros [Hin [Ev Hall]]. exists p. split; [now subst|].
    apply filter_In. split; auto.
    apply negb_true_iff.
    destruct (existsb _ _) eqn:Ex; auto.
    apply existsb_exists in Ex. destruct Ex as [q [Hq Eq]].
    rewrite (Hall q Hq) in Eq. discriminate.
Qed.

Lemma paths_object (fields : list (string * value)) :
  paths_mongodb_pack_array (VObj fields)
  = flat_map (fun kv => map (cons (fst kv)) (paths_mongodb_pack_array (snd kv)))
             fields.
Proof.
  simpl. induction fields as [|[k v] fields IH]; simpl; auto.
  now rewrite IH.
Qed.

(** A leaf path ends at a value that is not a document. *)
Lemma paths_end_at_leaves (v : value) :
  well_formed v = true ->
  forall p, In p (paths_mongodb_pack_array v) ->
            match get v p with VObj _ => False | _ => True end.
Proof.
  induction v as [| | | | | | |items IH|fields IH] using value_ind;
    intros Hwf p Hp;
    try (destruct Hp as [<-|[]]; exact I).
  rewrite paths_object in Hp. apply in_flat_map in Hp.
  destruct Hp as [[k x] [Hkx Hp]]. simpl in Hp.
  apply in_map_iff in Hp. destruct Hp as [p' [<- Hp']].
  simpl in Hwf. apply andb_true_iff in Hwf. destruct Hwf as [Hnd Hall].
  simpl. rewrite (In_lookup k x fields) by (auto; now apply nodupb_NoDup).
  rewrite Forall_forall in IH. apply (IH (k, x) Hkx).
  - rewrite forallb_forall in Hall. now apply (Hall (k, x)).
  - exact Hp'.
Qed.

(** A path that is not a leaf path ends nowhere or at a document. *)
Lemma paths_or_no_leaf (v : value) (p : path) :
  In p (paths_mongodb_pack_array v)
  \/ get v p = VUndefined
  \/ exists f, get v p = VObj f.
Proof.
  revert p.
  induction v as [| | | | | | |items IH|fields IH] using value_ind;
    intros p;
    try (destruct p; simpl; auto; fail).
  destruct p as [|k rest]; simpl get.
  - right. right. eauto.
  - destruct (lookup k fields) as [x|] eqn:El; auto.
    apply lookup_In in El.
    rewrite Forall_forall in IH.
    destruct (IH (k, x) El rest) as [H|H]; auto.
    left. rewrite paths_object. apply in_flat_map.
    exists (k, x). split; auto. simpl. now apply in_map.
Qed.

Lemma isEqual_leaf_no_document (a : value) (f : list (string * value)) :
  match a with VObj _ => False | _ => True end -> isEqual a (VObj f) = false.
Proof. destruct a; simpl; auto. contradiction. Qed.

Lemma isEqual_null_undefined (a b : value) :
  isNull b || isUndefined b = true ->
  isNull a || isUndefined a = false ->
  isEqual a b = false.
Proof.
  destruct b; simpl; try discriminate; destruct a; simpl; auto; discriminate.
Qed.

(** The update set of the code is within the update set of the spec: what
    the code writes, the spec writes too. *)
Lemma mk_update_set_within_spec (present newdata : value)
  (p : path) (v : value) :
  well_formed newdata = true ->
  In (p, v) (Db.mk_update_set present newdata) ->
  In (p, v) (update_set_of_the_spec present newdata).
Proof.
  intros Hwf Hin. apply mk_update_set_spec in Hin.
  destruct Hin as [Hp [Hv Hall]].
  unfold update_set_of_the_spec. apply in_map_iff. exists p.
  split; [now subst|]. apply filter_In. split; auto.
  apply negb_true_iff.
  pose proof Hp as Hp'. unfold drop_empty_paths in Hp'.
  apply filter_In in Hp'. destruct Hp' as [Hleaf Hdef].
  apply negb_true_iff in Hdef.
  destruct (paths_or_no_leaf present p) as [Hq|[Hq|[f Hq]]].
  - destruct (isNull (get present p) || isUndefined (get present p)) eqn:E.
    + now apply isEqual_null_undefined.
    + apply Hall. unfold drop_empty_paths. apply filter_In.
      split; auto. now rewrite E.
  - apply isEqual_null_undefined; auto. rewrite Hq. reflexivity.
  - rewrite Hq. apply isEqual_leaf_no_document.
    now apply paths_end_at_leaves.
Qed.

(** ** C3: the update set against the persisted document *)

(** C3, the code at two failing inputs.  In the first the proposal raises
    [current_state_lenghts.queued] from 1 to 2 on a document at [_version] 2;
    in the second, a fresh artifact at [_version] 1, it adds
    [current_state_lenghts.queued = 1].  Either path differs from the
    persisted value at the same path, so it is in the update set the claim
    describes; the comparator of [_.differenceWith] looks at the persisted
    values of all paths, finds an equal one under [_version], and drops the
    path: both update sets of the code are empty. *)
Theorem mk_update_set_drops_changed_path :
  let present := VObj [("_id", VOid 0); ("type", VStr "koji-build");
                       ("aid", VStr "42"); ("_version", VNum 2);
                       ("current_state_lenghts", VObj [("queued", VNum 1)])] in
  let newdata := VObj [("_id", VOid 0); ("type", VStr "koji-build");
                       ("aid", VStr "42"); ("_version", VNum 2);
                       ("current_state_lenghts", VObj [("queued", VNum 2)])] in
  let fresh := VObj [("_id", VOid 0); ("type", VStr "koji-build");
                     ("aid", VStr "42"); ("_version", VNum 1)] in
  let proposal := VObj [("_id", VOid 0); ("type", VStr "koji-build");
                        ("aid", VStr "42"); ("_version", VNum 1);
                        ("current_state_lenghts", VObj [("queued", VNum 1)])] in
  update_set_of_the_spec present newdata
  = [(["current_state_lenghts"; "queued"], VNum 2)]
  /\ Db.mk_update_set present newdata = []
  /\ update_set_of_the_spec fresh proposal
     = [(["current_state_lenghts"; "queued"], VNum 1)]
  /\ Db.mk_update_set fresh proposal = [].
Proof.
  cbv zeta. repeat split.
Qed.

(* ===================================================================== *)
(** * [findOrCreate]                                                      *)
(* ===================================================================== *)

(** ** C10: [findOrCreate] on a document that exists *)

(** C10.  When a document for [(type, aid)] exists, [findOrCreate] leaves
    the collection as it is, every document included, and returns the stored
    document unchanged (it has to pass the db_artifact schema, as every
    document the function returns; a document that does not is thrown back
    as a validation error, the collection still untouched).  When none
    exists, the call appends one document, with [_version] 1, and nothing
    else changes. *)
Theorem findOrCreate_existing_unchanged
  (db_artifact_valid : value -> bool) (type aid : value)
  (c : Db.collection) (d : value) :
  Db.findOne [("type", type); ("aid", aid)] c = Some d ->
  snd (Db.findOrCreate db_artifact_valid type aid c) = c
  /\ In d (Db.docs c)
  /\ fst (Db.findOrCreate db_artifact_valid type aid c)
     = (if db_artifact_valid d then Ok d
        else Throw (ValidationError "db_artifact"))
  /\ (forall c',
        Db.findOne [("type", type); ("aid", aid)] c' = None ->
        exists d',
          snd (Db.findOrCreate db_artifact_valid type aid c')
          = {| Db.docs := Db.docs c' ++ [d']; Db.next_id := S (Db.next_id c') |}
          /\ get d' ["_version"] = VNum 1
          /\ get d' ["type"] = type /\ get d' ["aid"] = aid).
Proof.
  intros Hfind. split; [|split; [|split]].
  - unfold Db.findOrCreate. rewrite Hfind.
    now destruct (db_artifact_valid d).
  - unfold Db.findOne in Hfind. apply find_some in Hfind. tauto.
  - unfold Db.findOrCreate. rewrite Hfind.
    now destruct (db_artifact_valid d).
  - intros c' Hnone. unfold Db.findOrCreate. rewrite Hnone.
    eexists. split.
    + match goal with |- context [if ?b then _ else _] => destruct b end;
        reflexivity.
    + repeat split.
Qed.

(** A stored build, looked up again. *)
Lemma findOrCreate_existing_unchanged_witness :
  let d := VObj [("_id", VOid 0); ("type", VStr "koji-build");
                 ("aid", VStr "42"); ("_version", VNum 7)] in
  let c := {| Db.docs := [d]; Db.next_id := 1 |} in
  Db.findOne [("type", VStr "koji-build"); ("aid", VStr "42")] c = Some d
  /\ snd (Db.findOrCreate Scenario.accept_document (VStr "koji-build")
            (VStr "42") c) = c.
Proof.
  split; [reflexivity|].
  exact (proj1 (@findOrCreate_existing_unchanged
                  Scenario.accept_document (VStr "koji-build") (VStr "42")
                  {| Db.docs := [VObj [("_id", VOid 0);
                                       ("type", VStr "koji-build");
                                       ("aid", VStr "42");
                                       ("_version", VNum 7)]];
                     Db.next_id := 1 |}
                  _ eq_refl)).
Defined.

(* ===================================================================== *)
(** * The retry loop of [Artifacts.add]                                   *)
(* ===================================================================== *)

Section AddFacts.

Import Updater.

Variable db_artifact_valid : value -> bool.
Variable faults : nat -> fault.

Lemma count_handler_calls_app (l1 l2 : list event) :
  count_handler_calls (l1 ++ l2)
  = (count_handler_calls l1 + count_handler_calls l2)%nat.
Proof.
  unfold count_handler_calls. now rewrite filter_app, length_app.
Qed.

(** Every turn of the loop takes one from [retries_left] before it calls the
    handler, and the loop is left when 1 remains. *)
Lemma add_loop_handler_calls (handler : DbMsgHandlers.handler)
  (message : FileQueueMessage) (retries_left : nat) :
  forall (artifact : value) (c : Db.collection) (log : list event),
    (count_handler_calls
       (trace (add_loop db_artifact_valid faults handler message retries_left
                        artifact c log))
     <= count_handler_calls log + (retries_left - 1))%nat.
Proof.
  induction retries_left as [|n IH]; intros artifact c log.
  - simpl. lia.
  - destruct n as [|n].
    + simpl. lia.
    + assert (Hle : forall a' c' log',
                count_handler_calls log' = S (count_handler_calls log) ->
                (count_handler_calls
                   (trace (add_loop db_artifact_valid faults handler message
                                    (S n) a' c' log'))
                 <= count_handler_calls log + (S (S n) - 1))%nat).
      { intros a' c' log' Hc.
        eapply Nat.le_trans; [apply IH|]. rewrite Hc. lia. }
      assert (Hone : forall l,
                count_handler_calls (log ++ HandlerInvoked :: l)
                = S (count_handler_calls log + count_handler_calls l)).
      { intros l. rewrite count_handler_calls_app.
        unfold count_handler_calls. simpl. lia. }
      change (add_loop db_artifact_valid faults handler message (S (S n))
                       artifact c log)
        with (match handler c message with
              | (Throw e, c1) =>
                  {| returned := Throw e; store := c1;
                     trace := log ++ [HandlerInvoked] |}
              | (Ok artifact, c1) =>
                  let log := log ++ [HandlerInvoked] in
                  if negb (db_artifact_valid artifact) then
                    {| returned := Throw (ValidationError "db_artifact");
                       store := c1; trace := log |}
                  else
                    let type := get artifact ["type"] in
                    let aid := get artifact ["aid"] in
                    let reread :=
                      match faults (S n) with
                      | FindOrCreateFails => (Throw (Error "findOrCreate"), c1)
                      | _ => Db.findOrCreate db_artifact_valid type aid c1
                      end in
                    match reread with
                    | (Throw _, c2) =>
                        add_loop db_artifact_valid faults handler message (S n)
                                 artifact c2 (log ++ [ReRead])
                    | (Ok db_entry, c2) =>
                        let log := log ++ [ReRead] in
                        let update_set := Db.mk_update_set db_entry artifact in
                        match update_set with
                        | [] =>
                            {| returned := Ok artifact; store := c2;
                               trace := log |}
                        | _ :: _ =>
                            let c3 :=
                              match faults (S n) with
                              | ConcurrentWrite writer => writer c2
                              | _ => c2
                              end in
                            let updated :=
                              match faults (S n) with
                              | UpdateFails => None
                              | _ => cas_update db_entry update_set c3
                              end in
                            match updated with
                            | Some (modifiedDocument, c4) =>
                                {| returned := Ok modifiedDocument; store := c4;
                                   trace := log ++ [Written modifiedDocument] |}
                            | None =>
                                add_loop db_artifact_valid faults handler
                                         message (S n) artifact c3
                                         (log ++ [WriteMissed])
                            end
                        end
                    end
              end).
      destruct (handler c message) as [[a1|e] c1]; cbv zeta.
      * destruct (negb (db_artifact_valid a1)).
        { simpl. rewrite count_handler_calls_app.
          unfold count_handler_calls; simpl; lia. }
        destruct (match faults (S n) with
                  | FindOrCreateFails => (Throw (Error "findOrCreate"), c1)
                  | _ => Db.findOrCreate db_artifact_valid (get a1 ["type"])
                           (get a1 ["aid"]) c1
                  end) as [[db_entry|e] c2].
        { destruct (Db.mk_update_set db_entry a1) as [|u us].
          - simpl. rewrite !count_handler_calls_app.
            unfold count_handler_calls; simpl; lia.
          - destruct (match faults (S n) with
                      | UpdateFails => None
                      | _ => cas_update db_entry (u :: us)
                               match faults (S n) with
                               | ConcurrentWrite writer => writer c2
                               | _ => c2
                               end
                      end) as [[md c4]|].
            + simpl. rewrite !count_handler_calls_app.
            unfold count_handler_calls; simpl; lia.
            + apply Hle. rewrite <- !app_assoc. simpl.
              rewrite Hone. unfold count_handler_calls at 2. simpl. lia. }
        { apply Hle. rewrite <- !app_assoc. simpl.
          rewrite Hone. unfold count_handler_calls at 2. simpl. lia. }
      * simpl. rewrite count_handler_calls_app.
          unfold count_handler_calls; simpl; lia.
Qed.

End AddFacts.

(** ** C2: the number of attempts before the final throw *)

(** C2, the code at a failing input.  Every update of the envelope's document
    fails.  The claim asks for 30 attempts before the "All attempts failed"
    error; the loop starts from [retries_left = 30], takes one off before
    each attempt and stops when 1 is left: the handler is invoked 29 times,
    29 updates are missed, nothing is written, and the error is thrown.
    On no envelope is the handler invoked more than 29 times. *)
Theorem add_exhausted_after_29_attempts :
  let o := Scenario.deliver Scenario.update_always_fails
             (Scenario.queued_envelope 42 Scenario.with_pipeline)
             Scenario.empty_collection in
  Updater.count_handler_calls (Updater.trace o) = 29%nat
  /\ List.length (filter (fun e => match e with
                                   | Updater.WriteMissed => true
                                   | _ => false
                                   end) (Updater.trace o)) = 29%nat
  /\ existsb Updater.is_write (Updater.trace o) = false
  /\ Updater.returned o
     = Throw (Error "Cannot set missing fields for type: koji-build and aid: 42. All attempts failed.")
  /\ (forall db_artifact_valid faults sha256_hex Date_parse kai_state_valid
             koji_getBuild atype_to_hub_map message c,
        (Updater.count_handler_calls
           (Updater.trace
              (Updater.add db_artifact_valid faults sha256_hex Date_parse
                 kai_state_valid koji_getBuild atype_to_hub_map message c))
         <= 29)%nat).
Proof.
  split; [vm_compute; reflexivity|].
  split; [vm_compute; reflexivity|].
  split; [vm_compute; reflexivity|].
  split; [vm_compute; reflexivity|].
  intros. unfold Updater.add.
  destruct (DbMsgHandlers.get_handler _ _ _ _ _ _ _) as [h|].
  - eapply Nat.le_trans; [apply add_loop_handler_calls|].
    unfold Updater.count_handler_calls. simpl. lia.
  - unfold Updater.count_handler_calls. simpl. lia.
Qed.

(* ===================================================================== *)
(** * The handler and a message id it has seen                            *)
(* ===================================================================== *)

Section HandlerFacts.

Import DbMsgHandlers.

(** When the stored document already has a state with the envelope's
    message id, the handler proposes the stored states as they are and does
    not refresh the derived fields: only [rpm_build] can differ. *)
Lemma handler_known_msg_id
  (sha256_hex : string -> string) (Date_parse : value -> option Z)
  (kai_state_valid : KaiState -> bool) (db_artifact_valid : value -> bool)
  (artifacts artifacts' : Db.collection) (m : FileQueueMessage)
  (fields : list (string * value)) (l : list value) (s : ArtifactState) :
  isUndefined (get (body m) ["artifact"])
  || isNull (get (body m) ["artifact"]) = false ->
  Db.findOrCreate db_artifact_valid
    (get (get (body m) ["artifact"]) ["type"])
    (VStr (Str.toString (get (get (body m) ["artifact"]) ["id"])))
    artifacts = (Ok (VObj fields), artifacts') ->
  lookup "states" fields = Some (VArr l) ->
  existsb (fun e => isEqual (get_str e "kai_state.msg_id")
                            (string_or_undefined (message_id m))) l = true ->
  mk_state sha256_hex Date_parse kai_state_valid m = Ok s ->
  exists doc,
    handler_rpm_build_test_common sha256_hex Date_parse kai_state_valid
      db_artifact_valid artifacts m = (Ok doc, artifacts')
    /\ get doc ["states"] = VArr l
    /\ forall k, k <> "rpm_build" -> k <> "states" ->
                 get doc [k] = get (VObj fields) [k].
Proof.
  intros Hart Hfind Hstates Hseen Hmk.
  unfold handler_rpm_build_test_common.
  destruct (get (body m) ["artifact"]) eqn:Ea; try discriminate;
    rewrite Hfind, Hmk; cbv zeta;
    change (get (VObj fields) ["states"]) with
      (match lookup "states" fields with
       | Some x => x
       | None => VUndefined
       end);
    rewrite Hstates, Hseen; cbn [negb assign_field];
    (eexists; split; [reflexivity|]; split;
     [ cbn [get];
       rewrite lookup_set_field_ne by discriminate;
       now rewrite lookup_set_field_eq
     | intros k Hk1 Hk2; cbn [get];
       rewrite lookup_set_field_ne by assumption;
       now rewrite lookup_set_field_ne by assumption ]).
Qed.

End HandlerFacts.

(** ** C4: the same envelope a second time *)

(** C4, the code at a failing input.  The envelope is a test-queued event for
    the koji build with task id 1, delivered twice to an empty collection.
    On the first delivery [rpm_build.task_id = 1] equals the persisted
    [_version = 1], so [mk_update_set] leaves it out of the write (the defect
    of C3).  On the second delivery the handler does not append a second
    state, as the claim says; but it proposes [rpm_build.task_id] again, the
    persisted [_version] is now 2, the update set is not empty, a write is
    performed and [_version] goes from 2 to 3.  With task id 42 nothing
    collides and the second delivery writes nothing. *)
Theorem add_second_delivery_writes :
  let envelope := Scenario.queued_envelope 1 Scenario.with_pipeline in
  let first := Scenario.deliver Scenario.no_faults envelope
                 Scenario.empty_collection in
  let second := Scenario.deliver Scenario.no_faults envelope
                  (Updater.store first) in
  let stored o := hd VUndefined (Db.docs (Updater.store o)) in
  get (stored first) ["_version"] = VNum 2
  /\ get (stored first) ["rpm_build"; "task_id"] = VUndefined
  /\ size (get (stored first) ["states"]) = 1%nat
  /\ get (stored second) ["states"] = get (stored first) ["states"]
  /\ (exists proposal,
        DbMsgHandlers.handler_rpm_build_test_common Scenario.digest
          Scenario.parse_date Scenario.accept_kai_state
          Scenario.accept_document (Updater.store first) envelope
        = (Ok proposal, Updater.store first)
        /\ get proposal ["states"] = get (stored first) ["states"]
        /\ Db.mk_update_set (stored first) proposal
           = [(["rpm_build"; "task_id"], VNum 1)])
  /\ existsb Updater.is_write (Updater.trace second) = true
  /\ get (stored second) ["_version"] = VNum 3
  /\ get (stored second) ["rpm_build"; "task_id"] = VNum 1
  /\ Updater.store second <> Updater.store first
  /\ (let envelope := Scenario.queued_envelope 42 Scenario.with_pipeline in
      let first := Scenario.deliver Scenario.no_faults envelope
                     Scenario.empty_collection in
      let second := Scenario.deliver Scenario.no_faults envelope
                      (Updater.store first) in
      Updater.trace second = [Updater.HandlerInvoked; Updater.ReRead]
      /\ Updater.store second = Updater.store first).
Proof.
  cbv zeta.
  split; [vm_compute; reflexivity|].
  split; [vm_compute; reflexivity|].
  split; [vm_compute; reflexivity|].
  split; [vm_compute; reflexivity|].
  split; [eexists; split; [vm_compute; reflexivity|];
          split; vm_compute; reflexivity|].
  split; [vm_compute; reflexivity|].
  split; [vm_compute; reflexivity|].
  split; [vm_compute; reflexivity|].
  split; [|split; vm_compute; reflexivity].
  intros E.
  assert (H : get (hd VUndefined
                      (Db.docs (Updater.store
                         (Scenario.deliver Scenario.no_faults
                            (Scenario.queued_envelope 1 Scenario.with_pipeline)
                            (Updater.store
                               (Scenario.deliver Scenario.no_faults
                                  (Scenario.queued_envelope 1
                                     Scenario.with_pipeline)
                                  Scenario.empty_collection))))))
                ["_version"] = VNum 2).
  { rewrite E. vm_compute. reflexivity. }
  vm_compute in H. discriminate.
Qed.

(* ===================================================================== *)
(** * Grouping and ordering                                               *)
(* ===================================================================== *)

Section GroupFacts.

Import DbMsgHandlers.

Variable A : Type.

Lemma bucket_app (key : A -> string) (k : string) (l1 l2 : list A) :
  bucket key k (l1 ++ l2) = bucket key k l1 ++ bucket key k l2.
Proof. apply filter_app. Qed.

Lemma bucket_In (key : A -> string) (k : string) (l : list A) (x : A) :
  In x (bucket key k l) <-> In x l /\ key x = k.
Proof.
  unfold bucket. rewrite filter_In, String.eqb_eq. tauto.
Qed.

Lemma lookup_group_insert_eq (k : string) (x : A) (g : list (string * list A)) :
  lookup k (group_insert k x g)
  = Some (match lookup k g with Some xs => xs ++ [x] | None => [x] end).
Proof.
  induction g as [|[k' xs] g IH]; simpl.
  - now rewrite String.eqb_refl.
  - destruct (String.eqb k k') eqn:E; simpl; rewrite E; auto.
Qed.

Lemma lookup_group_insert_ne (k k' : string) (x : A)
  (g : list (string * list A)) :
  k' <> k -> lookup k' (group_insert k x g) = lookup k' g.
Proof.
  intros Hne. induction g as [|[k'' xs] g IH]; simpl.
  - apply String.eqb_neq in Hne. now rewrite Hne.
  - destruct (String.eqb k k'') eqn:E; simpl.
    + apply String.eqb_eq in E. subst k''.
      apply String.eqb_neq in Hne. now rewrite Hne.
    + now rewrite IH.
Qed.

Lemma keys_group_insert (k : string) (x : A) (g : list (string * list A)) :
  keys (group_insert k x g)
  = if existsb (String.eqb k) (keys g) then keys g else keys g ++ [k].
Proof.
  induction g as [|[k' xs] g IH]; simpl; auto.
  destruct (String.eqb k k') eqn:E; simpl; auto.
  rewrite IH. now destruct (existsb (String.eqb k) (keys g)).
Qed.

Lemma groups_of_insert (key : A -> string) (g : list (string * list A))
  (seen : list A) (x : A) :
  groups_of key g seen ->
  groups_of key (group_insert (key x) x g) (seen ++ [x]).
Proof.
  intros [Hnd Hl]. split.
  - rewrite keys_group_insert.
    destruct (existsb (String.eqb (key x)) (keys g)) eqn:E; auto.
    apply NoDup_app; auto.
    + repeat constructor. simpl. tauto.
    + intros a Ha [Hb|[]]. subst a.
      apply existsb_eqb_In in Ha. congruence.
  - intros k. rewrite bucket_app.
    destruct (string_dec k (key x)) as [->|Hne].
    + rewrite lookup_group_insert_eq, Hl.
      assert (E : bucket key (key x) [x] = [x])
        by (unfold bucket; simpl; now rewrite String.eqb_refl).
      rewrite E.
      destruct (bucket key (key x) seen); reflexivity.
    + rewrite lookup_group_insert_ne by assumption. rewrite Hl.
      assert (E : bucket key k [x] = []).
      { unfold bucket. simpl.
        assert (E : String.eqb (key x) k = false)
          by (apply String.eqb_neq; congruence).
        now rewrite E. }
      rewrite E, app_nil_r. reflexivity.
Qed.

Lemma groups_of_fold (key : A -> string) (l : list A) :
  forall g seen,
    groups_of key g seen ->
    groups_of key
      (fold_left (fun groups x => group_insert (key x) x groups) l g)
      (seen ++ l).
Proof.
  induction l as [|x l IH]; intros g seen H; simpl.
  - now rewrite app_nil_r.
  - replace (seen ++ x :: l) with ((seen ++ [x]) ++ l)
      by (now rewrite <- app_assoc).
    apply IH. now apply groups_of_insert.
Qed.

Lemma groupBy_groups_of (key : A -> string) (l : list A) :
  groups_of key (groupBy key l) l.
Proof.
  unfold groupBy.
  apply (@groups_of_fold key l [] []).
  split; [constructor | reflexivity].
Qed.

Lemma NoDup_keys_groupBy (key : A -> string) (l : list A) :
  NoDup (keys (groupBy key l)).
Proof. apply groupBy_groups_of. Qed.

(** A group is the bucket of its key, and is not empty. *)
Lemma lookup_groupBy (key : A -> string) (l : list A) (k : string)
  (g : list A) :
  lookup k (groupBy key l) = Some g <-> g = bucket key k l /\ g <> [].
Proof.
  destruct (groupBy_groups_of key l) as [_ H]. rewrite H.
  destruct (bucket key k l) eqn:E; split.
  - discriminate.
  - intros [-> Hne]. contradiction.
  - intros Heq. inversion Heq; subst. split; auto. discriminate.
  - intros [-> _]. reflexivity.
Qed.

Lemma lookup_groupBy_In (key : A -> string) (l : list A) (x : A) :
  In x l -> lookup (key x) (groupBy key l) = Some (bucket key (key x) l).
Proof.
  intros Hin. apply lookup_groupBy. split; auto.
  intros E. assert (H : In x (bucket key (key x) l)) by (apply bucket_In; auto).
  rewrite E in H. contradiction.
Qed.

Lemma In_keys_groupBy (key : A -> string) (l : list A) (k : string) :
  In k (keys (groupBy key l)) <-> In k (map key l).
Proof.
  destruct (groupBy_groups_of key l) as [_ H]. specialize (H k).
  destruct (bucket key k l) as [|y b] eqn:Eb.
  - apply lookup_None_not_In in H. split; [tauto|].
    intros Hin. apply in_map_iff in Hin. destruct Hin as [x [Hk Hx]].
    assert (Hb : In x (bucket key k l)) by (apply bucket_In; auto).
    rewrite Eb in Hb. contradiction.
  - split; intros _.
    + assert (Hy : In y (bucket key k l)) by (rewrite Eb; simpl; auto).
      apply bucket_In in Hy. destruct Hy as [Hy <-]. now apply in_map.
    + destruct (in_dec string_dec k (keys (groupBy key l))) as [Hin|Hout]; auto.
      apply lookup_None_not_In in Hout. congruence.
Qed.

(** ** The head of a descending sort *)

Lemma orderBy_desc_head (rank : A -> Z) (l : list A) :
  match orderBy_desc rank l with
  | [] => l = []
  | first :: _ => In first l /\ forall x, In x l -> (rank x <= rank first)%Z
  end.
Proof.
  induction l as [|x l IH]; simpl; auto.
  destruct (orderBy_desc rank l) as [|f rest]; simpl.
  - subst l. split; auto. intros y [<-|[]]. lia.
  - destruct IH as [Hf Hmax].
    destruct (Z.leb (rank f) (rank x)) eqn:E.
    + apply Z.leb_le in E. split; auto.
      intros y [<-|Hy]; [lia|]. specialize (Hmax y Hy). lia.
    + apply Z.leb_gt in E. split; auto.
      intros y [<-|Hy]; [lia|]. now apply Hmax.
Qed.

Lemma In_uniq (l : list string) (x : string) :
  In x (uniq String.eqb l) <-> In x l.
Proof.
  induction l as [|y l IH]; simpl; [tauto|].
  rewrite filter_In, IH, negb_true_iff.
  destruct (string_dec y x) as [->|Hne].
  - tauto.
  - apply String.eqb_neq in Hne. rewrite Hne. tauto.
Qed.

Lemma NoDup_uniq (l : list string) : NoDup (uniq String.eqb l).
Proof.
  induction l as [|y l IH]; simpl; constructor.
  - rewrite filter_In, String.eqb_refl. simpl. intros [_ H]. discriminate.
  - now apply NoDup_filter.
Qed.

Lemma lookup_app {B : Type} (k : string) (f g : list (string * B)) :
  lookup k (f ++ g)
  = match lookup k f with Some v => Some v | None => lookup k g end.
Proof.
  induction f as [|[k' v'] f IH]; simpl; auto.
  destruct (String.eqb k k'); auto.
Qed.

Lemma NoDup_map_filter {B : Type} (h : A -> B) (p : A -> bool) (l : list A) :
  NoDup (map h l) -> NoDup (map h (filter p l)).
Proof.
  induction l as [|x l IH]; simpl; auto.
  intros Hnd. inversion Hnd as [|? ? Hx Hnd']; subst.
  destruct (p x); simpl; auto. constructor; auto.
  intros Hin. apply Hx. apply in_map_iff in Hin.
  destruct Hin as [y [Ey Hy]]. apply filter_In in Hy.
  apply in_map_iff. exists y. tauto.
Qed.

Lemma keys_app {B : Type} (f g : list (string * B)) :
  keys (f ++ g) = keys f ++ keys g.
Proof. apply map_app. Qed.

Lemma NoDup_keys_filter {B : Type} (p : string * B -> bool)
  (g : list (string * B)) :
  NoDup (keys g) -> NoDup (keys (filter p g)).
Proof.
  induction g as [|[k v] g IH]; simpl; auto.
  intros Hnd. inversion Hnd as [|? ? Hk Hnd']; subst.
  destruct (p (k, v)); simpl; auto. constructor; auto.
  intros Hin. apply Hk. apply in_map_iff in Hin.
  destruct Hin as [y [Ey Hy]]. apply filter_In in Hy.
  apply in_map_iff. exists y. tauto.
Qed.

Lemma lookup_map_values {B C : Type} (h : B -> C) (k : string)
  (g : list (string * B)) :
  lookup k (map (fun kv => (fst kv, h (snd kv))) g)
  = option_map h (lookup k g).
Proof.
  induction g as [|[k' v'] g IH]; simpl; auto.
  destruct (String.eqb k k'); auto.
Qed.

Lemma keys_map_values {B C : Type} (h : B -> C) (g : list (string * B)) :
  keys (map (fun kv => (fst kv, h (snd kv))) g) = keys g.
Proof.
  unfold keys. rewrite map_map. now apply map_ext.
Qed.

End GroupFacts.

(* ===================================================================== *)
(** * The derived fields                                                  *)
(* ===================================================================== *)

Section CurrentStateFacts.

Import DbMsgHandlers.

Variable A : Type.
Variable thread_id_of : A -> option string.
Variable timestamp_of : A -> Z.
Variable state_of : A -> string.

Let tkey (e : A) : string := thread_key (thread_id_of e).
Let recent := recent_for_each_thread thread_id_of timestamp_of.
Let cs := current_state thread_id_of timestamp_of state_of.

(** An entry kept for its thread heads the sorted group of the thread. *)
Lemma recent_head (states : list A) (e : A) :
  In e (recent states) ->
  exists rest,
    orderBy_desc timestamp_of (bucket tkey (tkey e) states) = e :: rest.
Proof.
  unfold recent, recent_for_each_thread, states_for_same_thread.
  intros Hin. apply in_flat_map in Hin. destruct Hin as [g [Hg He]].
  apply in_map_iff in Hg. destruct Hg as [[k g'] [Eg Hkg]]. simpl in Eg.
  subst g'.
  apply In_lookup in Hkg; [|apply NoDup_keys_groupBy].
  apply lookup_groupBy in Hkg. destruct Hkg as [Eg Hne].
  pose proof (orderBy_desc_head timestamp_of g) as Hhead.
  destruct (orderBy_desc timestamp_of g) as [|f rest] eqn:Es.
  - contradiction.
  - destruct He as [Ef|[]]. subst f. destruct Hhead as [Hf _].
    rewrite Eg in Hf. apply bucket_In in Hf. destruct Hf as [_ Hk].
    exists rest. unfold tkey. rewrite Hk, <- Eg. exact Es.
Qed.

Lemma recent_In_states (states : list A) (e : A) :
  In e (recent states) ->
  In e states
  /\ forall x, In x states -> tkey x = tkey e ->
               (timestamp_of x <= timestamp_of e)%Z.
Proof.
  intros Hin. destruct (recent_head _ _ Hin) as [rest Hs].
  pose proof (orderBy_desc_head timestamp_of (bucket tkey (tkey e) states))
    as Hhead.
  rewrite Hs in Hhead. destruct Hhead as [Hf Hmax].
  apply bucket_In in Hf. split; [tauto|].
  intros x Hx Hk. apply Hmax. apply bucket_In. auto.
Qed.

Lemma recent_unique (states : list A) (e1 e2 : A) :
  In e1 (recent states) -> In e2 (recent states) ->
  tkey e1 = tkey e2 -> e1 = e2.
Proof.
  intros H1 H2 Hk.
  destruct (recent_head _ _ H1) as [r1 E1].
  destruct (recent_head _ _ H2) as [r2 E2].
  rewrite Hk in E1. rewrite E1 in E2. now inversion E2.
Qed.

Lemma recent_covers (states : list A) (x : A) :
  In x states -> exists e, In e (recent states) /\ tkey e = tkey x.
Proof.
  intros Hx.
  pose proof (lookup_groupBy_In tkey states x Hx) as Hl.
  apply lookup_In in Hl.
  pose proof (orderBy_desc_head timestamp_of (bucket tkey (tkey x) states))
    as Hhead.
  destruct (orderBy_desc timestamp_of (bucket tkey (tkey x) states))
    as [|f rest] eqn:Es.
  - assert (Hb : In x (bucket tkey (tkey x) states))
      by (apply bucket_In; auto).
    rewrite Hhead in Hb. contradiction.
  - destruct Hhead as [Hf _]. apply bucket_In in Hf. destruct Hf as [_ Hk].
    exists f. split; auto.
    unfold recent, recent_for_each_thread, states_for_same_thread.
    apply in_flat_map. exists (bucket tkey (tkey x) states). split.
    + apply in_map_iff. exists (tkey x, bucket tkey (tkey x) states).
      split; auto.
    + fold tkey. rewrite Es. simpl. auto.
Qed.

(** One entry is kept for each thread key. *)
Lemma recent_keys (states : list A) :
  map tkey (recent states) = keys (groupBy tkey states).
Proof.
  unfold recent, recent_for_each_thread, states_for_same_thread.
  assert (H : forall k g, In (k, g) (groupBy tkey states) ->
                          g = bucket tkey k states /\ g <> []).
  { intros k g Hin. apply lookup_groupBy. apply In_lookup; auto.
    apply NoDup_keys_groupBy. }
  fold tkey.
  induction (groupBy tkey states) as [|[k g] gs IH]; simpl; auto.
  rewrite map_app, IH by (intros; apply H; simpl; auto).
  destruct (H k g (or_introl eq_refl)) as [Eg Hne].
  pose proof (orderBy_desc_head timestamp_of g) as Hhead.
  destruct (orderBy_desc timestamp_of g) as [|f rest].
  - contradiction.
  - destruct Hhead as [Hf _]. rewrite Eg in Hf.
    apply bucket_In in Hf. destruct Hf as [_ Hk]. simpl. now rewrite Hk.
Qed.

Lemma NoDup_recent_keys (states : list A) : NoDup (map tkey (recent states)).
Proof. rewrite recent_keys. apply NoDup_keys_groupBy. Qed.

(** What a key of [current_state] holds: the kept entries of that state, or
    nothing for a known state that none of them has. *)
Lemma lookup_current_state (states : list A) (s : string) (b : list A) :
  lookup s (cs states) = Some b ->
  (b = bucket state_of s (recent states) /\ b <> [])
  \/ (b = [] /\ s <> "" /\ In s (map state_of states)
       /\ ~ In s (map state_of (recent states))).
Proof.
  unfold cs, current_state. cbv zeta. rewrite lookup_app.
  fold recent.
  destruct (lookup s (groupBy state_of (recent states))) as [g|] eqn:E.
  - intros H. inversion H; subst. left. now apply lookup_groupBy.
  - intros H. right. apply lookup_In in H. apply filter_In in H.
    destruct H as [H _]. apply in_map_iff in H.
    destruct H as [s' [Es Hs]]. inversion Es; subst.
    unfold known_states in Hs. apply filter_In in Hs.
    destruct Hs as [Hs Hne]. apply (proj1 (In_uniq _ _)) in Hs.
    apply negb_true_iff, String.eqb_neq in Hne.
    repeat split; auto.
    apply lookup_None_not_In in E.
    now rewrite In_keys_groupBy in E.
Qed.

Lemma keys_current_state (states : list A) (s : string) :
  In s (keys (cs states))
  <-> In s (map state_of (recent states))
      \/ (s <> "" /\ In s (map state_of states)).
Proof.
  unfold cs, current_state. cbv zeta. fold recent.
  rewrite keys_app, in_app_iff, In_keys_groupBy.
  split.
  - intros [H|H]; auto. right.
    apply in_map_iff in H. destruct H as [[k v] [Ek H]]. simpl in Ek. subst k.
    apply filter_In in H. destruct H as [H _].
    apply in_map_iff in H. destruct H as [s' [Es Hs]]. inversion Es; subst.
    unfold known_states in Hs. apply filter_In in Hs.
    destruct Hs as [Hs Hne]. apply (proj1 (In_uniq _ _)) in Hs.
    apply negb_true_iff, String.eqb_neq in Hne. auto.
  - intros [H|[Hne Hs]]; auto.
    destruct (in_dec string_dec s (map state_of (recent states)))
      as [Hin|Hout]; auto.
    right. apply in_map_iff. exists (s, []). split; auto.
    apply filter_In. split.
    + apply in_map_iff. exists s. split; auto.
      unfold known_states. apply filter_In. split.
      * now apply In_uniq.
      * apply negb_true_iff, String.eqb_neq. auto.
    + simpl. apply negb_true_iff.
      destruct (existsb _ _) eqn:Ex; auto.
      apply (proj1 (existsb_eqb_In _ _)) in Ex.
      apply (proj1 (In_keys_groupBy _ _ _)) in Ex. contradiction.
Qed.

Lemma NoDup_keys_current_state (states : list A) : NoDup (keys (cs states)).
Proof.
  unfold cs, current_state. cbv zeta. fold recent.
  rewrite keys_app.
  apply NoDup_app.
  - apply NoDup_keys_groupBy.
  - apply NoDup_keys_filter.
    unfold keys. rewrite map_map. simpl. rewrite map_id.
    unfold known_states. apply NoDup_filter, NoDup_uniq.
  - intros k Hk Hout.
    apply in_map_iff in Hout. destruct Hout as [[k' v] [Ek H]].
    simpl in Ek. subst k'. apply filter_In in H. destruct H as [_ H].
    simpl in H. apply negb_true_iff in H.
    apply (proj2 (existsb_eqb_In _ _)) in Hk. congruence.
Qed.

(** The keys and the lengths, whatever the entries are. *)
Lemma current_state_lenghts_facts (states : list A) :
  let lenghts :=
    current_state_lenghts thread_id_of timestamp_of state_of states in
  (forall s,
     lookup s lenghts = option_map (@List.length A) (lookup s (cs states)))
  /\ keys lenghts = keys (cs states)
  /\ (forall s,
        In s (keys lenghts)
        <-> (s <> "" /\ In s (map state_of states))
            \/ (s = "" /\ In "" (map state_of (recent states))))
  /\ NoDup (keys lenghts)
  /\ (forall s,
        s <> "" -> In s (map state_of states) ->
        ~ In s (map state_of (recent states)) ->
        lookup s (cs states) = Some [] /\ lookup s lenghts = Some 0%nat).
Proof.
  intros lenghts.
  assert (Hlook : forall s,
            lookup s lenghts
            = option_map (@List.length A) (lookup s (cs states))).
  { intros s. apply lookup_map_values. }
  assert (Hkeys : keys lenghts = keys (cs states)).
  { apply keys_map_values. }
  assert (Hsub : forall s,
            In s (map state_of (recent states)) -> In s (map state_of states)).
  { intros s Hs. apply in_map_iff in Hs. destruct Hs as [e [Es He]].
    apply in_map_iff. exists e. split; auto.
    now apply recent_In_states in He. }
  split; [exact Hlook|]. split; [exact Hkeys|]. split; [|split].
  - intros s. rewrite Hkeys, keys_current_state.
    destruct (string_dec s "") as [->|Hne].
    + split; [intros [H|[H _]]; tauto | intros [[H _]|[_ H]]; tauto].
    + split.
      * intros [H|H]; [left; split; auto | left; auto].
      * intros [H|[H _]]; [right; auto | contradiction].
  - rewrite Hkeys. apply NoDup_keys_current_state.
  - intros s Hne Hobs Hnot.
    assert (Hin : In s (keys (cs states))).
    { rewrite keys_current_state. right. auto. }
    destruct (lookup s (cs states)) as [b|] eqn:E.
    + pose proof E as E'. apply lookup_current_state in E'.
      destruct E' as [[Eb Hb]|[Eb _]].
      * exfalso. destruct b as [|e b]; [contradiction|].
        assert (He : In e (bucket state_of s (recent states)))
          by (rewrite <- Eb; simpl; auto).
        apply bucket_In in He. destruct He as [He Hs].
        apply Hnot. apply in_map_iff. exists e. auto.
      * subst b. split; auto. rewrite Hlook, E. reflexivity.
    + apply lookup_None_not_In in E. contradiction.
Qed.

(** The entries of the buckets are the entries kept for the threads, each
    under its state. *)
Lemma kept_entries (states : list A) (e : A) :
  In e (recent states)
  <-> exists s b, lookup s (cs states) = Some b /\ In e b.
Proof.
  split.
  - intros Hr.
    exists (state_of e), (bucket state_of (state_of e) (recent states)).
    split.
    + unfold cs, current_state. cbv zeta. rewrite lookup_app.
      fold recent. now rewrite (lookup_groupBy_In state_of _ _ Hr).
    + apply bucket_In; auto.
  - intros [s [b [Hl He]]].
    apply lookup_current_state in Hl. destruct Hl as [[Eb _]|[Eb _]].
    + rewrite Eb in He. now apply bucket_In in He.
    + subst b. contradiction.
Qed.

Lemma bucket_entry_state (states : list A) (s : string) (b : list A) (e : A) :
  lookup s (cs states) = Some b -> In e b -> state_of e = s.
Proof.
  intros Hl He.
  apply lookup_current_state in Hl. destruct Hl as [[Eb _]|[Eb _]].
  - rewrite Eb in He. now apply bucket_In in He.
  - subst b. contradiction.
Qed.

(** The entries of the buckets, whatever the entries are. *)
Lemma current_state_facts (states : list A) :
  (forall s b e,
     lookup s (cs states) = Some b -> In e b ->
     In e states
     /\ state_of e = s
     /\ forall e',
          In e' states -> thread_id_of e' = thread_id_of e ->
          (timestamp_of e' <= timestamp_of e)%Z)
  /\ (forall e',
        In e' states ->
        exists s b e,
          lookup s (cs states) = Some b /\ In e b /\ tkey e = tkey e')
  /\ (forall s1 b1 e1 s2 b2 e2,
        lookup s1 (cs states) = Some b1 -> In e1 b1 ->
        lookup s2 (cs states) = Some b2 -> In e2 b2 ->
        tkey e1 = tkey e2 ->
        e1 = e2 /\ s1 = s2)
  /\ (forall s b, lookup s (cs states) = Some b -> NoDup (map tkey b)).
Proof.
  assert (Hb : forall s b e,
            lookup s (cs states) = Some b -> In e b ->
            In e (recent states) /\ state_of e = s).
  { intros s b e Hl He.
    apply lookup_current_state in Hl. destruct Hl as [[Eb _]|[Eb _]].
    - rewrite Eb in He. apply bucket_In in He. exact He.
    - subst b. contradiction. }
  split; [|split; [|split]].
  - intros s b e Hl He. destruct (Hb s b e Hl He) as [Hr Hs].
    apply recent_In_states in Hr.
    destruct Hr as [Hin Hmax]. repeat split; auto.
    intros e' He' Ht. apply Hmax; auto. unfold tkey. now rewrite Ht.
  - intros e' He'.
    destruct (recent_covers states e' He') as [e [Hr Hk]].
    exists (state_of e), (bucket state_of (state_of e) (recent states)), e.
    assert (Hin : In e (bucket state_of (state_of e) (recent states)))
      by (apply bucket_In; auto).
    repeat split; auto.
    unfold cs, current_state. cbv zeta. rewrite lookup_app.
    fold recent. now rewrite (lookup_groupBy_In state_of _ _ Hr).
  - intros s1 b1 e1 s2 b2 e2 H1 He1 H2 He2 Hk.
    destruct (Hb _ _ _ H1 He1) as [Hr1 Hs1].
    destruct (Hb _ _ _ H2 He2) as [Hr2 Hs2].
    assert (E : e1 = e2) by (eapply recent_unique; eauto).
    subst e2. split; congruence.
  - intros s b Hl.
    apply lookup_current_state in Hl. destruct Hl as [[Eb _]|[Eb _]].
    + rewrite Eb. unfold bucket. apply NoDup_map_filter.
      apply NoDup_recent_keys.
    + subst b. constructor.
Qed.

End CurrentStateFacts.

(** ** The refresh on a stored document *)

Section ActualizeFacts.

Import DbMsgHandlers.

(** The three fields after [actualize_current_states]. *)
Lemma actualize_current_states_fields (fields : list (string * value)) :
  let doc := actualize_current_states (VObj fields) in
  let states := states_of_doc (VObj fields) in
  get doc ["current_state"]
  = VObj (map (fun kv => (fst kv, VArr (snd kv)))
              (current_state doc_thread_id doc_timestamp doc_state states))
  /\ get doc ["current_state_lenghts"]
     = VObj (map (fun kv => (fst kv, VNum (Z.of_nat (snd kv))))
                 (current_state_lenghts doc_thread_id doc_timestamp doc_state
                    states)).
Proof.
  unfold actualize_current_states, states_of_doc. cbv zeta.
  cbn [assign_field get]. split.
  - rewrite lookup_set_field_ne by discriminate.
    rewrite lookup_set_field_ne by discriminate.
    now rewrite lookup_set_field_eq.
  - rewrite lookup_set_field_ne by discriminate.
    now rewrite lookup_set_field_eq.
Qed.

Lemma actualize_resultsdb_testcase (fields : list (string * value)) :
  get (actualize_current_states (VObj fields)) ["resultsdb_testcase"]
  = VArr (map VStr
            (resultsdb_testcase doc_test_case_name
               (states_of_doc (VObj fields)))).
Proof.
  unfold actualize_current_states, states_of_doc. cbv zeta.
  cbn [assign_field get]. now rewrite lookup_set_field_eq.
Qed.

Lemma get_cons (v : value) (k : string) (rest : list string) :
  get v (k :: rest) = get (get v [k]) rest.
Proof.
  destruct v; simpl; try (now destruct rest).
  destruct (lookup k fields); auto. now destruct rest.
Qed.

Lemma get_bucket (fields : list (string * value)) (s : string) :
  get (actualize_current_states (VObj fields)) ["current_state"; s]
  = match lookup s (current_state doc_thread_id doc_timestamp doc_state
                      (states_of_doc (VObj fields))) with
    | Some b => VArr b
    | None => VUndefined
    end.
Proof.
  destruct (actualize_current_states_fields fields) as [Hc _].
  rewrite get_cons, Hc. cbn [get].
  rewrite (lookup_map_values (fun b => VArr b)).
  now destruct (lookup s _).
Qed.

Lemma get_lenght (fields : list (string * value)) (s : string) :
  get (actualize_current_states (VObj fields)) ["current_state_lenghts"; s]
  = match lookup s (current_state doc_thread_id doc_timestamp doc_state
                      (states_of_doc (VObj fields))) with
    | Some b => VNum (Z.of_nat (List.length b))
    | None => VUndefined
    end.
Proof.
  destruct (actualize_current_states_fields fields) as [_ Hl].
  rewrite get_cons, Hl. cbn [get].
  rewrite (lookup_map_values (fun n => VNum (Z.of_nat n))).
  unfold current_state_lenghts.
  rewrite (lookup_map_values (@List.length value)).
  now destruct (lookup s _).
Qed.

(** The readings of the refresh on a state that has the fields. *)
Lemma thread_key_doc (e : value) : thread_key (doc_thread_id e) = thread_of e.
Proof.
  unfold doc_thread_id, thread_of.
  destruct (get_str e "kai_state.thread_id"); reflexivity.
Qed.

Lemma doc_state_string (e : value) (s : string) :
  get_str e "kai_state.state" = VStr s -> doc_state e = s.
Proof. unfold doc_state. now intros ->. Qed.

Lemma state_is_string_doc (e : value) :
  state_is_string e = true ->
  get_str e "kai_state.state" = VStr (doc_state e).
Proof.
  unfold state_is_string, doc_state.
  destruct (get_str e "kai_state.state"); try discriminate. reflexivity.
Qed.

Lemma timestamp_is_number_doc (e : value) :
  timestamp_is_number e = true ->
  get_str e "kai_state.timestamp" = VNum (doc_timestamp e).
Proof.
  unfold timestamp_is_number, doc_timestamp.
  destruct (get_str e "kai_state.timestamp"); try discriminate. reflexivity.
Qed.

Lemma doc_timestamp_number (e : value) (t : Z) :
  get_str e "kai_state.timestamp" = VNum t -> doc_timestamp e = t.
Proof. unfold doc_timestamp. now intros ->. Qed.

(** The stored [current_state], bucket by bucket. *)
Lemma stored_bucket (fields : list (string * value)) (s : string)
  (b : list value) :
  get (actualize_current_states (VObj fields)) ["current_state"; s] = VArr b
  <-> lookup s (current_state doc_thread_id doc_timestamp doc_state
                  (states_of_doc (VObj fields))) = Some b.
Proof.
  rewrite get_bucket. destruct (lookup s _) as [b'|].
  - split; intros H; inversion H; reflexivity.
  - split; discriminate.
Qed.

End ActualizeFacts.

(** ** C5: [current_state_lenghts] *)

(** The third scenario of the spec: a thread is queued, then completes.
    The later entry is the one kept; [queued] stays as an empty bucket. *)
Example current_state_queued_then_complete :
  let queued := a_state "PIPE-1" "queued" 1640995200000 in
  let complete := a_state "PIPE-1" "complete" 1640995500000 in
  current_state_of [queued; complete] = [("complete", [complete]); ("queued", [])]
  /\ current_state_lenghts_of [queued; complete]
     = [("complete", 1%nat); ("queued", 0%nat)].
Proof. split; reflexivity. Qed.

(** Two threads in the same state, one of them with two entries of equal
    time: the earlier of the two is kept. *)
Example current_state_two_threads :
  let a1 := a_state "PIPE-1" "running" 5 in
  let b1 := a_state "PIPE-2" "running" 7 in
  let a2 := a_state "PIPE-1" "running" 5 in
  current_state_of [a1; b1; a2] = [("running", [a1; b1])]
  /\ current_state_lenghts_of [a1; b1; a2] = [("running", 2%nat)].
Proof. split; reflexivity. Qed.

(** C5, counterexample.  The only state has the empty string as its
    [kai_state.state].  [_.groupBy] makes a group for it, so
    [current_state_lenghts] has the key [""], which is not among the
    non-empty state values observed; the same on the stored document. *)
Lemma current_state_lenghts_empty_key :
  let states := [a_state "PIPE-1" "" 0] in
  let doc := VObj [("states", VArr (map DbMsgHandlers.state_to_value states))] in
  In "" (keys (current_state_lenghts_of states))
  /\ ~ ("" <> "" /\ In "" (map DbMsgHandlers.state_state states))
  /\ get (DbMsgHandlers.actualize_current_states doc)
         ["current_state_lenghts"; ""] = VNum 1.
Proof.
  split; [vm_compute; auto|]. split.
  - intros [H _]. now apply H.
  - reflexivity.
Qed.

(** C5, amended.  After a refresh of a document whose [states] is an array
    of states with a string for their [kai_state.state], [current_state] and
    [current_state_lenghts] are stored with the same keys, each once, and
    [current_state_lenghts[s]] is the number of entries of
    [current_state[s]]; a key is either a non-empty state value observed in
    [states], or the empty string when an entry kept in some bucket has the
    empty string for its state; a non-empty observed state that no kept
    entry has is stored with the empty bucket. *)
Theorem current_state_lenghts_keys
  (fields : list (string * value)) (states : list value) :
  get (VObj fields) ["states"] = VArr states ->
  forallb state_is_string states = true ->
  let doc := DbMsgHandlers.actualize_current_states (VObj fields) in
  let state_of e := get_str e "kai_state.state" in
  exists buckets : list (string * list value),
    get doc ["current_state"]
    = VObj (map (fun kv => (fst kv, VArr (snd kv))) buckets)
    /\ get doc ["current_state_lenghts"]
       = VObj (map (fun kv =>
                      (fst kv, VNum (Z.of_nat (List.length (snd kv)))))
                   buckets)
    /\ NoDup (keys buckets)
    /\ (forall s b,
          In (s, b) buckets ->
          get doc ["current_state"; s] = VArr b
          /\ get doc ["current_state_lenghts"; s]
             = VNum (Z.of_nat (List.length b)))
    /\ (forall s,
          ~ In s (keys buckets) ->
          get doc ["current_state"; s] = VUndefined
          /\ get doc ["current_state_lenghts"; s] = VUndefined)
    /\ (forall s,
          In s (keys buckets)
          <-> (s <> "" /\ exists e, In e states /\ state_of e = VStr s)
              \/ (s = ""
                  /\ exists s' b e,
                       In (s', b) buckets /\ In e b /\ state_of e = VStr ""))
    /\ (forall s,
          s <> "" ->
          (exists e, In e states /\ state_of e = VStr s) ->
          (forall s' b e,
             In (s', b) buckets -> In e b -> state_of e <> VStr s) ->
          In (s, []) buckets).
Proof.
  intros Hstates Hty doc state_of.
  assert (Es : states = states_of_doc (VObj fields))
    by (unfold states_of_doc; now rewrite Hstates).
  clear Hstates. subst states.
  set (states := states_of_doc (VObj fields)) in *.
  rewrite forallb_forall in Hty.
  set (cs := DbMsgHandlers.current_state DbMsgHandlers.doc_thread_id
               DbMsgHandlers.doc_timestamp DbMsgHandlers.doc_state states).
  set (recent := DbMsgHandlers.recent_for_each_thread
                   DbMsgHandlers.doc_thread_id DbMsgHandlers.doc_timestamp
                   states).
  destruct (actualize_current_states_fields fields) as [Hc Hl].
  pose proof (NoDup_keys_current_state DbMsgHandlers.doc_thread_id
                DbMsgHandlers.doc_timestamp DbMsgHandlers.doc_state states)
    as Hnd.
  fold cs in Hnd.
  assert (Hkept : forall e,
            In e recent <-> exists s b, In (s, b) cs /\ In e b).
  { intros e. unfold recent, cs.
    rewrite (kept_entries DbMsgHandlers.doc_thread_id
               DbMsgHandlers.doc_timestamp DbMsgHandlers.doc_state).
    split; intros [s [b [H He]]]; exists s, b; split; auto.
    - now apply lookup_In.
    - now apply In_lookup. }
  assert (Hrs : forall e, In e recent -> In e states).
  { intros e He.
    unfold recent in He.
    apply (recent_In_states _ _ DbMsgHandlers.doc_state) in He.
    exact (proj1 He). }
  assert (Hobs : forall s,
            In s (map DbMsgHandlers.doc_state states)
            <-> exists e, In e states /\ state_of e = VStr s).
  { intros s. rewrite in_map_iff. split; intros [e [H He]].
    - exists e. split; auto. unfold state_of.
      rewrite (state_is_string_doc _ (Hty e He)). now rewrite H.
    - exists e. split; auto. now apply doc_state_string. }
  assert (Hrec : forall s,
            In s (map DbMsgHandlers.doc_state recent)
            <-> exists s' b e,
                  In (s', b) cs /\ In e b /\ state_of e = VStr s).
  { intros s. rewrite in_map_iff. split.
    - intros [e [H He]]. pose proof (Hrs e He) as Hs.
      apply Hkept in He. destruct He as [s' [b [Hb He]]].
      exists s', b, e. repeat split; auto. unfold state_of.
      rewrite (state_is_string_doc _ (Hty e Hs)). now rewrite H.
    - intros [s' [b [e [Hb [He H]]]]]. exists e. split.
      + now apply doc_state_string.
      + apply Hkept. eauto. }
  exists cs. split; [exact Hc|]. split.
  { unfold doc. rewrite Hl. unfold DbMsgHandlers.current_state_lenghts.
    now rewrite map_map. }
  split; [exact Hnd|]. split; [|split; [|split]].
  - intros s b Hin. apply In_lookup in Hin; [|exact Hnd].
    unfold doc. rewrite get_bucket, get_lenght.
    fold states. fold cs. now rewrite Hin.
  - intros s Hout. apply (proj2 (lookup_None_not_In _ _)) in Hout.
    unfold doc. rewrite get_bucket, get_lenght.
    fold states. fold cs. now rewrite Hout.
  - intros s. unfold cs.
    rewrite (keys_current_state DbMsgHandlers.doc_thread_id
               DbMsgHandlers.doc_timestamp DbMsgHandlers.doc_state).
    fold recent. rewrite Hobs, Hrec. fold cs.
    destruct (string_dec s "") as [->|Hne].
    + split.
      * intros [H|[H _]]; [right; auto | contradiction].
      * intros [[H _]|[_ H]]; [contradiction | left; exact H].
    + split.
      * intros [[s' [b [e [Hb [He H]]]]]|[_ H]]; left; split; auto.
        exists e. split; auto. apply Hrs. apply Hkept. eauto.
      * intros [[_ H]|[H _]]; [right; auto | contradiction].
  - intros s Hne Ho Hno.
    destruct (current_state_lenghts_facts DbMsgHandlers.doc_thread_id
                DbMsgHandlers.doc_timestamp DbMsgHandlers.doc_state states)
      as [_ [_ [_ [_ Hempty]]]].
    apply lookup_In. fold cs in Hempty. apply Hempty; auto.
    + now apply Hobs.
    + fold recent. rewrite Hrec. intros [s' [b [e [Hb [He H]]]]].
      exact (Hno s' b e Hb He H).
Qed.

(** Two threads: one queued and then complete, one running. *)
Lemma current_state_lenghts_keys_witness :
  let fields :=
    [("states",
      VArr (map DbMsgHandlers.state_to_value
              [a_state "PIPE-1" "queued" 1640995200000;
               a_state "PIPE-1" "complete" 1640995500000;
               a_state "PIPE-2" "running" 1640995200000]))] in
  let doc := DbMsgHandlers.actualize_current_states (VObj fields) in
  exists buckets : list (string * list value),
    get doc ["current_state"]
    = VObj (map (fun kv => (fst kv, VArr (snd kv))) buckets)
    /\ get doc ["current_state_lenghts"]
       = VObj (map (fun kv =>
                      (fst kv, VNum (Z.of_nat (List.length (snd kv)))))
                   buckets)
    /\ NoDup (keys buckets).
Proof.
  intros fields doc.
  destruct (@current_state_lenghts_keys fields _ eq_refl eq_refl)
    as [buckets [Hc [Hl [Hnd _]]]].
  exists buckets. auto.
Defined.

(** ** C6: the most recent state of each thread *)

(** C6.  After a refresh of a document whose [states] is an array of states
    with a number for their [kai_state.timestamp] and a string for their
    [kai_state.state], [current_state] holds, under each state value,
    exactly the most recent state of each thread: every entry of
    [current_state[s]] is one of [states], has the state [s], and no state
    of its thread has a greater timestamp; every thread of [states] has an
    entry in some bucket; no thread has two entries, in one bucket or in
    two.  Threads are told apart as [_.groupBy] does, by the property key
    made of [kai_state.thread_id]. *)
Theorem current_state_most_recent
  (fields : list (string * value)) (states : list value) :
  get (VObj fields) ["states"] = VArr states ->
  forallb timestamp_is_number states = true ->
  forallb state_is_string states = true ->
  let doc := DbMsgHandlers.actualize_current_states (VObj fields) in
  let current s := get doc ["current_state"; s] in
  let time_of e := get_str e "kai_state.timestamp" in
  (forall s b e,
     current s = VArr b -> In e b ->
     In e states
     /\ get_str e "kai_state.state" = VStr s
     /\ exists t,
          time_of e = VNum t
          /\ forall e' t',
               In e' states -> thread_of e' = thread_of e ->
               time_of e' = VNum t' -> (t' <= t)%Z)
  /\ (forall e',
        In e' states ->
        exists s b e,
          current s = VArr b /\ In e b /\ thread_of e = thread_of e')
  /\ (forall s1 b1 e1 s2 b2 e2,
        current s1 = VArr b1 -> In e1 b1 ->
        current s2 = VArr b2 -> In e2 b2 ->
        thread_of e1 = thread_of e2 ->
        e1 = e2 /\ s1 = s2)
  /\ (forall s b, current s = VArr b -> NoDup (map thread_of b)).
Proof.
  intros Hstates Hnum Hstr doc current time_of.
  assert (Es : states = states_of_doc (VObj fields))
    by (unfold states_of_doc; now rewrite Hstates).
  clear Hstates. subst states.
  set (states := states_of_doc (VObj fields)) in *.
  rewrite forallb_forall in Hnum, Hstr.
  pose proof (current_state_facts DbMsgHandlers.doc_thread_id
                DbMsgHandlers.doc_timestamp DbMsgHandlers.doc_state states)
    as [_ [Hcover [Huniq Hnd]]].
  assert (Hcur : forall s b,
            current s = VArr b
            <-> lookup s (DbMsgHandlers.current_state
                            DbMsgHandlers.doc_thread_id
                            DbMsgHandlers.doc_timestamp
                            DbMsgHandlers.doc_state states) = Some b).
  { intros s b. apply stored_bucket. }
  split; [|split; [|split]].
  - intros s b e Hb He. apply Hcur in Hb.
    pose proof (bucket_entry_state _ _ _ _ _ _ Hb He) as Hs.
    assert (Hr : In e (DbMsgHandlers.recent_for_each_thread
                         DbMsgHandlers.doc_thread_id
                         DbMsgHandlers.doc_timestamp states)).
    { apply (kept_entries DbMsgHandlers.doc_thread_id
               DbMsgHandlers.doc_timestamp DbMsgHandlers.doc_state).
      eauto. }
    apply (recent_In_states _ _ DbMsgHandlers.doc_state) in Hr.
    cbv beta in Hr. destruct Hr as [Hin Hmax].
    split; [exact Hin|]. split.
    + rewrite (state_is_string_doc _ (Hstr e Hin)). now rewrite Hs.
    + exists (DbMsgHandlers.doc_timestamp e).
      split; [exact (timestamp_is_number_doc _ (Hnum e Hin))|].
      intros e' t' He' Ht Et'.
      rewrite <- (doc_timestamp_number _ Et').
      apply Hmax; auto. now rewrite !thread_key_doc.
  - intros e' He'. destruct (Hcover e' He') as [s [b [e [Hb [He Hk]]]]].
    exists s, b, e. rewrite !thread_key_doc in Hk.
    split; [now apply Hcur|]. auto.
  - intros s1 b1 e1 s2 b2 e2 H1 He1 H2 He2 Hk.
    apply Hcur in H1. apply Hcur in H2.
    apply (Huniq s1 b1 e1 s2 b2 e2 H1 He1 H2 He2).
    now rewrite !thread_key_doc.
  - intros s b Hb. apply Hcur in Hb. apply Hnd in Hb.
    erewrite map_ext; [exact Hb|].
    intros e. cbv beta. now rewrite thread_key_doc.
Qed.

(** The thread that was queued and then completed has its entry in a
    bucket. *)
Lemma current_state_most_recent_witness :
  let queued :=
    DbMsgHandlers.state_to_value (a_state "PIPE-1" "queued" 1640995200000) in
  let fields :=
    [("states",
      VArr [queued;
            DbMsgHandlers.state_to_value
              (a_state "PIPE-1" "complete" 1640995500000);
            DbMsgHandlers.state_to_value
              (a_state "PIPE-2" "running" 1640995200000)])] in
  let doc := DbMsgHandlers.actualize_current_states (VObj fields) in
  exists s b e,
    get doc ["current_state"; s] = VArr b
    /\ In e b
    /\ thread_of e = thread_of queued.
Proof.
  intros queued fields doc.
  exact (proj1 (proj2 (@current_state_most_recent fields _ eq_refl eq_refl
                         eq_refl))
           queued (or_introl eq_refl)).
Defined.

(* ===================================================================== *)
(** * The bulk loader                                                     *)
(* ===================================================================== *)

Section LoaderFacts.

Import Loader.

Variable Upsert : Type.
Variable getMsgUpserts : FileQueueMessage -> list Upsert.
Variable getObjectSize : Upsert -> Z.
Variable fq_msg_valid : FileQueueMessage -> bool.
Variable bulkUpdate : list Upsert -> bulk_result.

Let iteration := iteration getMsgUpserts getObjectSize fq_msg_valid bulkUpdate.
Let run := run getMsgUpserts getObjectSize fq_msg_valid bulkUpdate.

Lemma keeps_accumulating_iff (gap_ms : Z) (batch : list Upsert) (bytes : Z) :
  keeps_accumulating gap_ms batch bytes = true
  <-> (gap_ms < 3000)%Z /\ (List.length batch < 100)%nat
      /\ (bytes < bulkMaxSize)%Z.
Proof.
  unfold keeps_accumulating, bulkSecondsThreshold, bulkMaxEntries.
  rewrite !andb_true_iff, !Z.ltb_lt, Nat.ltb_lt. simpl (3 * 1000)%Z. tauto.
Qed.

Lemma bulk_calls_map_Commit (l : list FileQueueEntry) :
  bulk_calls (map (@Commit Upsert) l) = [].
Proof. induction l; simpl; auto. Qed.

Lemma bulk_calls_map_Rollback (l : list FileQueueEntry) :
  bulk_calls (map (@Rollback Upsert) l) = [].
Proof. induction l; simpl; auto. Qed.

Lemma bulk_calls_app (a b : list (action Upsert)) :
  bulk_calls (a ++ b) = bulk_calls a ++ bulk_calls b.
Proof. unfold bulk_calls. apply flat_map_app. Qed.

Lemma iteration_batch_valid (st st' : loader_state Upsert) (input : popped)
  (acts : list (action Upsert)) :
  batch_valid fq_msg_valid st ->
  iteration st input = (Some st', acts) ->
  batch_valid fq_msg_valid st'
  /\ forall e, In (Rollback Upsert e) acts -> fq_msg_valid (message e) = true.
Proof.
  unfold iteration, Loader.iteration, batch_valid. intros Hv.
  destruct input as [fq_entry t|]; [|discriminate].
  destruct (fq_msg_valid (message fq_entry)) eqn:V; simpl.
  - destruct (keeps_accumulating _ _ _).
    + intros H. inversion H; subst; simpl. split.
      * apply Forall_app. split; auto.
      * intros e [].
    + destruct (bulkUpdate _); try discriminate.
      intros H. inversion H; subst; simpl. split; [constructor|].
      intros e [He|He]; [discriminate|].
      apply in_map_iff in He. destruct He as [x [Ex _]]. discriminate.
  - intros H. inversion H; subst. split; auto.
    intros e [He|[]]. discriminate.
Qed.

Lemma iteration_exit_rollbacks (st : loader_state Upsert) (input : popped)
  (acts : list (action Upsert)) :
  batch_valid fq_msg_valid st ->
  iteration st input = (None, acts) ->
  forall e, In (Rollback Upsert e) acts -> fq_msg_valid (message e) = true.
Proof.
  unfold iteration, Loader.iteration, batch_valid. intros Hv.
  destruct input as [fq_entry t|].
  - destruct (fq_msg_valid (message fq_entry)) eqn:V; simpl; [|discriminate].
    destruct (keeps_accumulating _ _ _); [discriminate|].
    destruct (bulkUpdate _); try discriminate.
    + intros H. inversion H; subst. intros e [He|He]; [discriminate|].
      apply in_app_iff in He. destruct He as [He|[He|[]]]; [|discriminate].
      apply in_map_iff in He. destruct He as [x [Ex Hx]].
      inversion Ex; subst. apply in_app_iff in Hx.
      destruct Hx as [Hx|[Hx|[]]].
      * rewrite Forall_forall in Hv. now apply Hv.
      * now subst.
    + intros H. inversion H; subst. intros e [He|[He|[]]]; discriminate.
  - intros H. inversion H; subst. intros e [He|[]]. discriminate.
Qed.

Lemma run_rollbacks_valid (inputs : list popped) :
  forall st, batch_valid fq_msg_valid st ->
    forall e, In (Rollback Upsert e) (snd (run st inputs)) ->
              fq_msg_valid (message e) = true.
Proof.
  induction inputs as [|input rest IH]; intros st Hv e; simpl.
  - intros [].
  - unfold run in *. simpl.
    fold iteration.
    destruct (iteration st input) as [[st'|] acts] eqn:Ei.
    + destruct (iteration_batch_valid _ Hv Ei) as [Hv' Hr].
      specialize (IH st' Hv' e).
      destruct (Loader.run getMsgUpserts getObjectSize fq_msg_valid
                  bulkUpdate st' rest) as [final acts'].
      simpl in *. intros Hin. apply in_app_iff in Hin.
      destruct Hin; auto.
    + simpl. now apply (iteration_exit_rollbacks _ Hv Ei).
Qed.

End LoaderFacts.

(** ** C7: when the batch is flushed *)

(** C7, counterexample.  Three envelopes arrive 0.2 s, 0.5 s and 0.9 s after
    the start, one upsert each, and nothing follows.  The claim has one bulk
    call with three upserts; the loop measures the gap only when the next
    envelope is popped, so during the silence it waits in [fq.tpop] with the
    three upserts in the batch and no bulk call is made. *)
Lemma three_envelopes_then_silence :
  let inputs := [Loader.Popped (Scenario.entry "a") 200;
                 Loader.Popped (Scenario.entry "b") 500;
                 Loader.Popped (Scenario.entry "c") 900] in
  let '(final, acts) := Scenario.run_loader (Loader.initial string 0) inputs in
  Loader.bulk_calls acts = []
  /\ acts = []
  /\ option_map (@Loader.bulkUpserts string) final = Some ["a"; "b"; "c"].
Proof.
  vm_compute. repeat split.
Qed.

(** C7, amended.  The test is made once per envelope that passes the schema,
    after its upserts are appended: the batch, this envelope's upserts
    included, is sent in one bulk call exactly when the gap since the
    previous envelope is at least 3 seconds, or the batch has at least 100
    operations, or its accumulated size has reached [bulkMaxSize]; else it is
    kept and no call is made.  A batch that is kept has fewer than 100
    operations.  Three envelopes within 1 s followed by silence cause no bulk
    call; a fourth envelope 4 s later causes one bulk call with the upserts
    of all four, and the four entries are committed. *)
Theorem bulk_flush_rule
  (Upsert : Type) (getMsgUpserts : FileQueueMessage -> list Upsert)
  (getObjectSize : Upsert -> Z) (fq_msg_valid : FileQueueMessage -> bool)
  (bulkUpdate : list Upsert -> Loader.bulk_result)
  (st : Loader.loader_state Upsert) (fq_entry : Loader.FileQueueEntry)
  (newMsgTime : Z) :
  fq_msg_valid (Loader.message fq_entry) = true ->
  let batch := Loader.bulkUpserts st
               ++ getMsgUpserts (Loader.message fq_entry) in
  let bytes := (Loader.bulkSizeBytes st
                + Loader.sum (map getObjectSize
                                (getMsgUpserts (Loader.message fq_entry))))%Z in
  let gap_ms := (newMsgTime - Loader.prevMsgTime st)%Z in
  let next := Loader.iteration getMsgUpserts getObjectSize fq_msg_valid
                bulkUpdate st (Loader.Popped fq_entry newMsgTime) in
  (Loader.bulk_calls (snd next) = [batch]
   <-> (3000 <= gap_ms)%Z \/ (100 <= List.length batch)%nat
       \/ (Loader.bulkMaxSize <= bytes)%Z)
  /\ (Loader.bulk_calls (snd next) = []
      <-> (gap_ms < 3000)%Z /\ (List.length batch < 100)%nat
          /\ (bytes < Loader.bulkMaxSize)%Z)
  /\ (Loader.bulk_calls (snd next) = [] ->
      next = (Some {| Loader.fqEntries := Loader.fqEntries st ++ [fq_entry];
                      Loader.bulkUpserts := batch;
                      Loader.bulkSizeBytes := bytes;
                      Loader.prevMsgTime := newMsgTime |}, []))
  /\ (forall st', fst next = Some st' ->
                  (List.length (Loader.bulkUpserts st') < 100)%nat)
  /\ (let three := [Loader.Popped (Scenario.entry "a") 200;
                    Loader.Popped (Scenario.entry "b") 500;
                    Loader.Popped (Scenario.entry "c") 900] in
      Loader.bulk_calls
        (snd (Scenario.run_loader (Loader.initial string 0) three)) = []
      /\ snd (Scenario.run_loader (Loader.initial string 0)
                (three ++ [Loader.Popped (Scenario.entry "d") 4900]))
         = [Loader.BulkUpdate ["a"; "b"; "c"; "d"];
            Loader.Commit string (Scenario.entry "a");
            Loader.Commit string (Scenario.entry "b");
            Loader.Commit string (Scenario.entry "c");
            Loader.Commit string (Scenario.entry "d")]).
Proof.
  intros Hvalid batch bytes gap_ms next.
  assert (Hnext : next =
            if Loader.keeps_accumulating gap_ms batch bytes then
              (Some {| Loader.fqEntries := Loader.fqEntries st ++ [fq_entry];
                       Loader.bulkUpserts := batch;
                       Loader.bulkSizeBytes := bytes;
                       Loader.prevMsgTime := newMsgTime |}, [])
            else
              match bulkUpdate batch with
              | Loader.BulkOk =>
                  (Some {| Loader.fqEntries := []; Loader.bulkUpserts := [];
                           Loader.bulkSizeBytes := 0;
                           Loader.prevMsgTime := newMsgTime |},
                   Loader.BulkUpdate batch
                   :: map (@Loader.Commit Upsert)
                          (Loader.fqEntries st ++ [fq_entry]))
              | Loader.BulkError =>
                  (None,
                   Loader.BulkUpdate batch
                   :: map (@Loader.Rollback Upsert)
                          (Loader.fqEntries st ++ [fq_entry])
                      ++ [Loader.Exit Upsert 1])
              | Loader.BulkThrown =>
                  (None, [Loader.BulkUpdate batch; Loader.Exit Upsert 1])
              end).
  { subst next. unfold Loader.iteration. rewrite Hvalid. reflexivity. }
  assert (Hcalls : Loader.bulk_calls (snd next)
                   = if Loader.keeps_accumulating gap_ms batch bytes
                     then [] else [batch]).
  { rewrite Hnext. destruct (Loader.keeps_accumulating gap_ms batch bytes);
      [reflexivity|].
    destruct (bulkUpdate batch); simpl.
    - now rewrite bulk_calls_map_Commit.
    - now rewrite bulk_calls_app, bulk_calls_map_Rollback.
    - reflexivity. }
  split; [|split; [|split; [|split]]].
  - rewrite Hcalls.
    destruct (Loader.keeps_accumulating gap_ms batch bytes) eqn:E.
    + split; [discriminate|]. apply keeps_accumulating_iff in E. lia.
    + split; [intros _|reflexivity].
      destruct (Z_lt_le_dec gap_ms 3000); [|lia].
      destruct (Nat.lt_ge_cases (List.length batch) 100); [|lia].
      destruct (Z_lt_le_dec bytes Loader.bulkMaxSize); [|lia].
      assert (Loader.keeps_accumulating gap_ms batch bytes = true)
        by (apply keeps_accumulating_iff; auto).
      congruence.
  - rewrite Hcalls.
    destruct (Loader.keeps_accumulating gap_ms batch bytes) eqn:E.
    + split; [intros _; now apply keeps_accumulating_iff | reflexivity].
    + split; [discriminate|]. intros H. apply keeps_accumulating_iff in H. congruence.
  - rewrite Hcalls. rewrite Hnext.
    destruct (Loader.keeps_accumulating gap_ms batch bytes) eqn:E;
      [reflexivity | discriminate].
  - intros st'. rewrite Hnext.
    destruct (Loader.keeps_accumulating gap_ms batch bytes) eqn:E.
    + simpl. intros H. inversion H; subst. simpl. apply keeps_accumulating_iff in E. tauto.
    + destruct (bulkUpdate batch); simpl; try discriminate.
      intros H. inversion H; subst. simpl. lia.
  - vm_compute. split; reflexivity.
Qed.

(** The rule at the second envelope of a burst. *)
Lemma bulk_flush_rule_witness :
  let st := {| Loader.fqEntries := [Scenario.entry "a"];
               Loader.bulkUpserts := ["a"];
               Loader.bulkSizeBytes := 10;
               Loader.prevMsgTime := 200 |} in
  Scenario.accept_envelope (Loader.message (Scenario.entry "b")) = true
  /\ (Loader.bulk_calls
        (snd (Loader.iteration Scenario.one_upsert Scenario.ten_bytes
                Scenario.accept_envelope Scenario.bulk_succeeds st
                (Loader.Popped (Scenario.entry "b") 500))) = []
      <-> (500 - 200 < 3000)%Z /\ (2 < 100)%nat
          /\ (20 < Loader.bulkMaxSize)%Z).
Proof.
  split; [reflexivity|].
  exact (proj1 (proj2
    (@bulk_flush_rule string Scenario.one_upsert Scenario.ten_bytes
       Scenario.accept_envelope Scenario.bulk_succeeds
       {| Loader.fqEntries := [Scenario.entry "a"];
          Loader.bulkUpserts := ["a"];
          Loader.bulkSizeBytes := 10;
          Loader.prevMsgTime := 200 |}
       (Scenario.entry "b") 500 eq_refl))).
Defined.

(** ** C9: an envelope that fails the envelope schema *)

(** C9.  When the popped envelope fails the fq_msg schema, the turn of the
    loop commits the entry and does nothing else: the batch, its entries, its
    size and the clock are as before, and the loop goes on.  In the whole run
    that follows, whatever arrives, an entry that fails the schema is never
    rolled back. *)
Theorem invalid_envelope_committed
  (Upsert : Type) (getMsgUpserts : FileQueueMessage -> list Upsert)
  (getObjectSize : Upsert -> Z) (fq_msg_valid : FileQueueMessage -> bool)
  (bulkUpdate : list Upsert -> Loader.bulk_result)
  (st : Loader.loader_state Upsert) (fq_entry : Loader.FileQueueEntry)
  (newMsgTime : Z) :
  fq_msg_valid (Loader.message fq_entry) = false ->
  Loader.iteration getMsgUpserts getObjectSize fq_msg_valid bulkUpdate st
    (Loader.Popped fq_entry newMsgTime)
  = (Some st, [Loader.Commit Upsert fq_entry])
  /\ (forall start_time inputs,
        ~ In (Loader.Rollback Upsert fq_entry)
             (snd (Loader.run getMsgUpserts getObjectSize fq_msg_valid
                     bulkUpdate (Loader.initial Upsert start_time) inputs))).
Proof.
  intros Hinvalid. split.
  - unfold Loader.iteration. now rewrite Hinvalid.
  - intros start_time inputs Hin.
    apply run_rollbacks_valid in Hin.
    + congruence.
    + constructor.
Qed.

(** An entry without a file-queue id, under a schema that asks for one. *)
Lemma invalid_envelope_committed_witness :
  let st := {| Loader.fqEntries := [Scenario.entry "a"];
               Loader.bulkUpserts := ["a"];
               Loader.bulkSizeBytes := 10;
               Loader.prevMsgTime := 200 |} in
  Scenario.envelope_with_id (Loader.message (Scenario.entry "")) = false
  /\ Loader.iteration Scenario.one_upsert Scenario.ten_bytes
       Scenario.envelope_with_id Scenario.bulk_succeeds st
       (Loader.Popped (Scenario.entry "") 500)
     = (Some st, [Loader.Commit string (Scenario.entry "")]).
Proof.
  split; [reflexivity|].
  exact (proj1
    (@invalid_envelope_committed string Scenario.one_upsert Scenario.ten_bytes
       Scenario.envelope_with_id Scenario.bulk_succeeds
       {| Loader.fqEntries := [Scenario.entry "a"];
          Loader.bulkUpserts := ["a"];
          Loader.bulkSizeBytes := 10;
          Loader.prevMsgTime := 200 |}
       (Scenario.entry "") 500 eq_refl)).
Defined.


(* ===================================================================== *)
(** * Further properties: topics, thread ids                              *)
(* ===================================================================== *)

Section TopicFacts.

Lemma append_assoc (a b c : string) :
  ((a ++ b) ++ c)%string = (a ++ (b ++ c))%string.
Proof. induction a as [|x a IH]; simpl; auto. now rewrite IH. Qed.

Lemma split_dot_not_nil (s : string) : Str.split_dot s <> [].
Proof.
  induction s as [|c s IH]; simpl; [discriminate|].
  destruct (Ascii.eqb c "."); [discriminate|].
  destruct (Str.split_dot s); discriminate.
Qed.







End TopicFacts.




(** An envelope of the [FileQueueMessage] type, which has neither [address]
    nor [message_id]: [makeState] names the state after the topic,
    [mk_state] finds no topic and no identifier. *)
Example mk_state_without_address :
  let m := {| fq_msg_id := "1640995200-ID:1"; broker_msg_id := "ID:1";
              broker_topic := "org.centos.prod.ci.koji-build.test.queued";
              body := body (Scenario.queued_envelope 42 Scenario.with_pipeline);
              address := None; message_id := None |} in
  (exists s,
     MsgHandlers.makeState Scenario.digest Scenario.parse_date
       Scenario.accept_kai_state m = Ok s
     /\ msg_id (kai_state s) = Some "ID:1"
     /\ stage (kai_state s) = Some "test"
     /\ state (kai_state s) = "queued")
  /\ (exists s,
        DbMsgHandlers.mk_state Scenario.digest Scenario.parse_date
          Scenario.accept_kai_state m = Ok s
        /\ msg_id (kai_state s) = None
        /\ stage (kai_state s) = None
        /\ state (kai_state s) = "").
Proof.
  split; eexists; (split; [reflexivity|]); repeat split.
Qed.

(** A string without a dot is its own only segment. *)
Lemma split_dot_whole (s : string) :
  has_dot s = false -> Str.split_dot s = [s].
Proof.
  induction s as [|c s IH]; simpl; auto.
  destruct (Ascii.eqb c "."); simpl; [discriminate|].
  intros H. now rewrite (IH H).
Qed.

(** [_.get] with a string path, case by case: the object's key of that very
    name comes first, the walk along the segments second; anything that is
    not an object gives [undefined]. *)
Lemma get_str_cases (object : value) (path : string) :
  get_str object path
  = match object with
    | VObj fields =>
        match lookup path fields with
        | Some v => v
        | None => get object (Str.split_dot path)
        end
    | _ => VUndefined
    end.
Proof.
  unfold get_str, castPath, isKey, has_key.
  pose proof (split_dot_not_nil path) as Hne.
  destruct object as [| | | | | | | |fields];
    try (destruct (negb (has_dot path) || false); [reflexivity|];
         destruct (Str.split_dot path); [contradiction|reflexivity]).
  destruct (lookup path fields) as [v|] eqn:El.
  - rewrite orb_true_r. cbn [get]. now rewrite El.
  - rewrite orb_false_r. destruct (has_dot path) eqn:Hd; cbn [negb].
    + reflexivity.
    + now rewrite (split_dot_whole _ Hd).
Qed.

(** X2.  The thread id.  [mk_thread_id] and [mkThreadId] read [pipeline.id]
    and [run.url] of the body as [_.get] reads a string path: the body's own
    property of that very name when it has one, the nested property
    otherwise.  When they give a thread id, it is not empty and it is either
    the value read at [pipeline.id], or, that value not being a non-empty
    string, the text [dummy-thread-] followed by the digest of the non-empty
    string read at [run.url]; they give [undefined] exactly when neither
    value is a non-empty string; they never throw. *)
Theorem mk_thread_id_cases
  (sha256_hex : string -> string) (m : FileQueueMessage) :
  let read path nested :=
    match body m with
    | VObj fields =>
        match lookup path fields with
        | Some v => v
        | None => get (body m) nested
        end
    | _ => VUndefined
    end in
  let pipeline_id := read "pipeline.id" ["pipeline"; "id"] in
  let run_url := read "run.url" ["run"; "url"] in
  let cases (r : result (option string)) :=
    match r with
    | Ok (Some t) =>
        t <> ""
        /\ (pipeline_id = VStr t
            \/ ((forall p, pipeline_id = VStr p -> p = "")
                /\ exists u,
                     u <> ""
                     /\ run_url = VStr u
                     /\ t = ("dummy-thread-" ++ sha256_hex u)%string))
    | Ok None =>
        (forall p, pipeline_id = VStr p -> p = "")
        /\ (forall u, run_url = VStr u -> u = "")
    | Throw _ => False
    end in
  cases (DbMsgHandlers.mk_thread_id sha256_hex m)
  /\ cases (MsgHandlers.mkThreadId sha256_hex m).
Proof.
  intros read pipeline_id run_url cases.
  assert (Ep : get_str (body m) "pipeline.id" = pipeline_id).
  { rewrite get_str_cases. reflexivity. }
  assert (Eu : get_str (body m) "run.url" = run_url).
  { rewrite get_str_cases. reflexivity. }
  assert (Hstr : forall v,
            negb (isEmpty v) && isString v = true ->
            exists x, v = VStr x /\ x <> "").
  { intros v Hv. destruct v; simpl in Hv; try discriminate;
      try (destruct items; discriminate);
      try (destruct fields; discriminate).
    rewrite andb_true_r in Hv. apply negb_true_iff, String.eqb_neq in Hv.
    eauto. }
  assert (Hnot : forall v,
            negb (isEmpty v) && isString v = false ->
            forall x, v = VStr x -> x = "").
  { intros v Hv x E. subst v. simpl in Hv. rewrite andb_true_r in Hv.
    apply negb_false_iff, String.eqb_eq in Hv. exact Hv. }
  assert (Hcases : cases (DbMsgHandlers.mk_thread_id sha256_hex m)).
  { unfold DbMsgHandlers.mk_thread_id. cbv zeta. rewrite Ep, Eu.
    subst cases. cbv beta.
    destruct (negb (isEmpty pipeline_id) && isString pipeline_id) eqn:E1.
    - destruct (Hstr _ E1) as [x [Ex Hx]]. rewrite Ex. simpl. auto.
    - destruct (negb (isEmpty run_url) && isString run_url) eqn:E2.
      + destruct (Hstr _ E2) as [u [Ex Hu]]. rewrite Ex. simpl.
        split; [discriminate|]. right. split; [now apply Hnot|].
        exists u. auto.
      + split; now apply Hnot. }
  split; exact Hcases.
Qed.

(** A body that has a key named [pipeline.id] beside a [pipeline] object:
    the key is what is read. *)
Example mk_thread_id_own_key_first :
  let m := {| fq_msg_id := "1640995200-ID:1"; broker_msg_id := "ID:1";
              broker_topic := "org.centos.prod.ci.koji-build.test.queued";
              body := VObj [("pipeline.id", VStr "LIT");
                            ("pipeline", VObj [("id", VStr "NESTED")])];
              address := Some "org.centos.prod.ci.koji-build.test.queued";
              message_id := Some "ID:1" |} in
  DbMsgHandlers.mk_thread_id Scenario.digest m = Ok (Some "LIT")
  /\ MsgHandlers.mkThreadId Scenario.digest m = Ok (Some "LIT")
  /\ get (body m) ["pipeline"; "id"] = VStr "NESTED".
Proof. repeat split. Qed.

(* ===================================================================== *)
(** * Further properties: the handlers                                    *)
(* ===================================================================== *)

Section MoreHandlerFacts.

Import DbMsgHandlers.

Lemma get_assign_field_eq (k : string) (v : value)
  (fields : list (string * value)) :
  get (assign_field k v (VObj fields)) [k] = v.
Proof. simpl. now rewrite lookup_set_field_eq. Qed.

Lemma get_assign_field_ne (k k' : string) (v : value)
  (fields : list (string * value)) :
  k <> k' ->
  get (assign_field k' v (VObj fields)) [k] = get (VObj fields) [k].
Proof. intros Hne. simpl. now rewrite lookup_set_field_ne. Qed.

Lemma assign_field_object (k : string) (v : value)
  (fields : list (string * value)) :
  assign_field k v (VObj fields) = VObj (set_field k v fields).
Proof. reflexivity. Qed.

(** The refresh touches the three derived fields only. *)
Lemma actualize_current_states_frame (fields : list (string * value))
  (k : string) :
  k <> "current_state" -> k <> "current_state_lenghts" ->
  k <> "resultsdb_testcase" ->
  get (actualize_current_states (VObj fields)) [k] = get (VObj fields) [k].
Proof.
  intros H1 H2 H3. unfold actualize_current_states. cbv zeta.
  rewrite !assign_field_object. cbn [get].
  now rewrite !lookup_set_field_ne by assumption.
Qed.

Lemma actualize_current_states_object (fields : list (string * value)) :
  exists fields', actualize_current_states (VObj fields) = VObj fields'.
Proof.
  unfold actualize_current_states. cbv zeta.
  rewrite !assign_field_object. eauto.
Qed.

Lemma isEqual_VStr (v : value) (x : string) :
  isEqual v (VStr x) = true <-> v = VStr x.
Proof.
  destruct v; simpl; try (split; discriminate).
  rewrite String.eqb_eq. split; [now intros -> | now intros [= ->]].
Qed.

Lemma isEqual_string_or_undefined (v : value) (o : option string) :
  isEqual v (string_or_undefined o) = true <-> v = string_or_undefined o.
Proof.
  destruct o as [x|]; [apply isEqual_VStr|].
  destruct v; simpl; split; try discriminate; auto.
Qed.

Lemma not_seen_not_In (id : option string) (l : list value) :
  existsb (fun e => isEqual (get_str e "kai_state.msg_id")
                            (string_or_undefined id)) l = false
  <-> ~ In (string_or_undefined id) (msg_ids l).
Proof.
  unfold msg_ids. split.
  - intros Hex Hin. apply in_map_iff in Hin. destruct Hin as [e [Ee He]].
    assert (Ht : existsb (fun e => isEqual (get_str e "kai_state.msg_id")
                                           (string_or_undefined id)) l = true).
    { apply existsb_exists. exists e. split; auto.
      now apply isEqual_string_or_undefined. }
    congruence.
  - intros Hnot.
    destruct (existsb _ l) eqn:Ex; auto.
    apply existsb_exists in Ex. destruct Ex as [e [He Ee]].
    apply isEqual_string_or_undefined in Ee. exfalso. apply Hnot.
    apply in_map_iff. eauto.
Qed.

Lemma mk_state_msg_id
  (sha256_hex : string -> string) (Date_parse : value -> option Z)
  (kai_state_valid : KaiState -> bool)
  (m : FileQueueMessage) (s : ArtifactState) :
  mk_state sha256_hex Date_parse kai_state_valid m = Ok s ->
  get (state_to_value s) ["kai_state"; "msg_id"]
  = string_or_undefined (message_id m)
  /\ get_str (state_to_value s) "kai_state.msg_id"
     = string_or_undefined (message_id m).
Proof.
  unfold mk_state.
  destruct (mk_thread_id sha256_hex m) as [t|e]; [|discriminate].
  destruct (Date_parse (get (body m) ["generated_at"])) as [ts|];
    [|discriminate].
  match goal with
  | |- (if ?c then _ else _) = _ -> _ => destruct c; [|discriminate]
  end.
  intros H. inversion H; subst s. split; reflexivity.
Qed.

End MoreHandlerFacts.

Section HandlerResult.

Import DbMsgHandlers.

Variable sha256_hex : string -> string.
Variable Date_parse : value -> option Z.
Variable kai_state_valid : KaiState -> bool.
Variable db_artifact_valid : value -> bool.

(** A handler that returns has found or created its document and made its
    state; the proposal is made of the two. *)
Lemma handler_rpm_result (artifacts artifacts' : Db.collection)
  (m : FileQueueMessage) (doc : value) :
  handler_rpm_build_test_common sha256_hex Date_parse kai_state_valid
    db_artifact_valid artifacts m = (Ok doc, artifacts') ->
  exists stored new_state,
    Db.findOrCreate db_artifact_valid
      (get (get (body m) ["artifact"]) ["type"])
      (VStr (Str.toString (get (get (body m) ["artifact"]) ["id"])))
      artifacts = (Ok stored, artifacts')
    /\ mk_state sha256_hex Date_parse kai_state_valid m = Ok new_state
    /\ doc = rpm_proposal stored m new_state.
Proof.
  unfold handler_rpm_build_test_common, rpm_proposal.
  destruct (get (body m) ["artifact"]) eqn:Ea; try discriminate;
    (destruct (Db.findOrCreate _ _ _ artifacts) as [[stored|e] c1] eqn:Ef;
     [|discriminate]);
    (destruct (mk_state sha256_hex Date_parse kai_state_valid m)
       as [new_state|e] eqn:Emk; [|discriminate]);
    intros H; inversion H; subst; exists stored, new_state;
    repeat split; reflexivity.
Qed.

End HandlerResult.

(** X3.  The history under [handler_rpm_build_test_common].  The document
    found or created for the envelope being an object whose [states] is
    missing or an array, the proposal's [states] is the stored history, or
    the stored history with one state appended, the state of this envelope,
    and this only when its message id was not in the history; either way the
    proposal's history has the envelope's message id, and if the stored
    message ids were distinct, so are the proposal's. *)
Theorem handler_states_append_only
  (sha256_hex : string -> string) (Date_parse : value -> option Z)
  (kai_state_valid : KaiState -> bool) (db_artifact_valid : value -> bool)
  (artifacts artifacts' c1 : Db.collection) (m : FileQueueMessage)
  (fields : list (string * value)) (old : list value) (doc : value) :
  DbMsgHandlers.handler_rpm_build_test_common sha256_hex Date_parse
    kai_state_valid db_artifact_valid artifacts m = (Ok doc, artifacts') ->
  Db.findOrCreate db_artifact_valid
    (get (get (body m) ["artifact"]) ["type"])
    (VStr (Str.toString (get (get (body m) ["artifact"]) ["id"])))
    artifacts = (Ok (VObj fields), c1) ->
  (get (VObj fields) ["states"] = VArr old
   \/ (get (VObj fields) ["states"] = VUndefined /\ old = [])) ->
  artifacts' = c1
  /\ (states_of_doc doc = old
      \/ (~ In (string_or_undefined (message_id m)) (msg_ids old)
          /\ exists new_state,
               states_of_doc doc = old ++ [new_state]
               /\ get new_state ["kai_state"; "msg_id"]
                  = string_or_undefined (message_id m)
               /\ get new_state ["broker_msg_body"] = body m))
  /\ In (string_or_undefined (message_id m)) (msg_ids (states_of_doc doc))
  /\ (NoDup (msg_ids old) -> NoDup (msg_ids (states_of_doc doc))).
Proof.
  intros Hh Hfind Hstates.
  destruct (handler_rpm_result _ _ _ _ _ _ Hh)
    as [stored [new_state [Hf [Hmk Hdoc]]]].
  rewrite Hfind in Hf. inversion Hf; subst stored c1. clear Hf.
  split; [reflexivity|].
  assert (Hs : (match get (VObj fields) ["states"] with
                | VUndefined | VNull | VNaN => VArr []
                | v => v
                end) = VArr old).
  { destruct Hstates as [E|[E ->]]; rewrite E; auto. }
  destruct (mk_state_msg_id _ _ _ _ Hmk) as [Hid Hid'].
  assert (Hbody : get (DbMsgHandlers.state_to_value new_state)
                      ["broker_msg_body"] = body m).
  { unfold DbMsgHandlers.mk_state in Hmk.
    destruct (DbMsgHandlers.mk_thread_id sha256_hex m); [|discriminate].
    destruct (Date_parse (get (body m) ["generated_at"])); [|discriminate].
    match type of Hmk with
    | (if ?c then _ else _) = _ => destruct c; [|discriminate]
    end.
    inversion Hmk. reflexivity. }
  unfold rpm_proposal in Hdoc. cbv zeta in Hdoc. rewrite Hs in Hdoc.
  rewrite !assign_field_object in Hdoc.
  destruct (existsb
              (fun e => isEqual (get_str e "kai_state.msg_id")
                                (string_or_undefined (message_id m))) old)
    eqn:Eseen;
    cbn [negb] in Hdoc.
  - (* the message id is in the history *)
    rewrite assign_field_object in Hdoc.
    assert (Hd : states_of_doc doc = old).
    { subst doc. unfold states_of_doc.
      rewrite <- assign_field_object.
      rewrite get_assign_field_ne by discriminate.
      rewrite <- assign_field_object.
      now rewrite get_assign_field_eq. }
    rewrite Hd.
    assert (Hin : In (string_or_undefined (message_id m)) (msg_ids old)).
    { apply existsb_exists in Eseen. destruct Eseen as [e [He Ee]].
      apply isEqual_string_or_undefined in Ee. unfold msg_ids.
      apply in_map_iff. eauto. }
    auto.
  - (* a new state *)
    destruct (actualize_current_states_object
                (set_field "states"
                   (VArr (old ++ [DbMsgHandlers.state_to_value new_state]))
                   (set_field "states" (VArr old) fields)))
      as [fields' Ef].
    pose proof (@actualize_current_states_frame
                  (set_field "states"
                     (VArr (old ++ [DbMsgHandlers.state_to_value new_state]))
                     (set_field "states" (VArr old) fields))
                  "states") as Hframe.
    rewrite Ef in Hdoc, Hframe. rewrite assign_field_object in Hdoc.
    assert (Hd : states_of_doc doc
                 = old ++ [DbMsgHandlers.state_to_value new_state]).
    { subst doc. unfold states_of_doc.
      rewrite <- assign_field_object.
      rewrite get_assign_field_ne by discriminate.
      rewrite Hframe by discriminate.
      rewrite <- assign_field_object.
      now rewrite get_assign_field_eq. }
    rewrite Hd.
    apply not_seen_not_In in Eseen.
    split; [|split].
    + right. split; [exact Eseen|].
      exists (DbMsgHandlers.state_to_value new_state). auto.
    + unfold msg_ids. rewrite map_app. apply in_or_app. right.
      cbn [map]. left. exact Hid'.
    + intros Hnd. unfold msg_ids. rewrite map_app.
      apply NoDup_app; [exact Hnd | repeat constructor; simpl; tauto|].
      intros a Ha [Hb|[]]. subst a. rewrite Hid' in Ha. exact (Eseen Ha).
Qed.

Lemma handler_states_append_only_witness :
  let m := Scenario.queued_envelope 42 Scenario.with_pipeline in
  exists doc c' fields,
    DbMsgHandlers.handler_rpm_build_test_common Scenario.digest
      Scenario.parse_date Scenario.accept_kai_state Scenario.accept_document
      Scenario.empty_collection m = (Ok doc, c')
    /\ Db.findOrCreate Scenario.accept_document
         (get (get (body m) ["artifact"]) ["type"])
         (VStr (Str.toString (get (get (body m) ["artifact"]) ["id"])))
         Scenario.empty_collection = (Ok (VObj fields), c')
    /\ get (VObj fields) ["states"] = VUndefined
    /\ In (string_or_undefined (message_id m)) (msg_ids (states_of_doc doc)).
Proof.
  intros m. do 3 eexists.
  split; [vm_compute; reflexivity|].
  split; [vm_compute; reflexivity|].
  split; [reflexivity|].
  refine (proj1 (proj2 (proj2
    (@handler_states_append_only Scenario.digest Scenario.parse_date
       Scenario.accept_kai_state Scenario.accept_document
       Scenario.empty_collection _ _ m _ [] _ _ _ _)))).
  - vm_compute; reflexivity.
  - vm_compute; reflexivity.
  - right. split; reflexivity.
Defined.

(* ===================================================================== *)
(** * Further properties: the bulk loader                                 *)
(* ===================================================================== *)

Lemma filter_all {A : Type} (f : A -> bool) (l : list A) :
  Forall (fun x => f x = true) l ->
  filter f l = l /\ filter (fun x => negb (f x)) l = [].
Proof.
  induction 1 as [|x l Hx Hl [IH1 IH2]]; simpl; auto.
  rewrite Hx. simpl. now rewrite IH1, IH2.
Qed.

Lemma filter_none {A : Type} (f : A -> bool) (l : list A) :
  (forall x, In x l -> f x = false) -> filter f l = [].
Proof.
  induction l as [|x l IH]; simpl; auto.
  intros H. rewrite (H x) by auto. apply IH. intros y Hy. apply H. auto.
Qed.

Section LoaderConservation.

Import Loader.

Variable Upsert : Type.
Variable getMsgUpserts : FileQueueMessage -> list Upsert.
Variable getObjectSize : Upsert -> Z.
Variable fq_msg_valid : FileQueueMessage -> bool.
Variable bulkUpdate : list Upsert -> bulk_result.

Lemma sum_from (l : list Z) (a : Z) :
  fold_left Z.add l a = (a + sum l)%Z.
Proof.
  unfold sum. revert a. induction l as [|x l IH]; intros a; simpl.
  - lia.
  - rewrite IH. rewrite (IH x). lia.
Qed.

Lemma sum_app (a b : list Z) : sum (a ++ b) = (sum a + sum b)%Z.
Proof.
  unfold sum at 1. rewrite fold_left_app. fold (sum a). apply sum_from.
Qed.

Lemma committed_app (a b : list (action Upsert)) :
  committed (a ++ b) = committed a ++ committed b.
Proof. apply flat_map_app. Qed.

Lemma rolled_back_app (a b : list (action Upsert)) :
  rolled_back (a ++ b) = rolled_back a ++ rolled_back b.
Proof. apply flat_map_app. Qed.

Lemma committed_map_Commit (l : list FileQueueEntry) :
  committed (map (@Commit Upsert) l) = l.
Proof. induction l; simpl; congruence. Qed.

Lemma committed_map_Rollback (l : list FileQueueEntry) :
  committed (map (@Rollback Upsert) l) = [].
Proof. induction l; simpl; congruence. Qed.

Lemma rolled_back_map_Commit (l : list FileQueueEntry) :
  rolled_back (map (@Commit Upsert) l) = [].
Proof. induction l; simpl; congruence. Qed.

Lemma rolled_back_map_Rollback (l : list FileQueueEntry) :
  rolled_back (map (@Rollback Upsert) l) = l.
Proof. induction l; simpl; congruence. Qed.

Lemma upserts_of_app (a b : list FileQueueEntry) :
  upserts_of getMsgUpserts (a ++ b)
  = upserts_of getMsgUpserts a ++ upserts_of getMsgUpserts b.
Proof. apply flat_map_app. Qed.

Lemma upserts_of_one (e : FileQueueEntry) :
  upserts_of getMsgUpserts [e] = getMsgUpserts (message e).
Proof. unfold upserts_of. simpl. apply app_nil_r. Qed.

Lemma popped_entries_cons (input : popped) (rest : list popped) :
  popped_entries (input :: rest)
  = popped_entries [input] ++ popped_entries rest.
Proof. unfold popped_entries. simpl. now rewrite app_nil_r. Qed.

(** What one turn that goes on keeps, and what it accounts for. *)
Lemma iteration_accounts (st st' : loader_state Upsert) (input : popped)
  (acts : list (action Upsert)) :
  batch_valid fq_msg_valid st ->
  batch_consistent getMsgUpserts getObjectSize st ->
  iteration getMsgUpserts getObjectSize fq_msg_valid bulkUpdate st input
  = (Some st', acts) ->
  batch_valid fq_msg_valid st'
  /\ batch_consistent getMsgUpserts getObjectSize st'
  /\ rolled_back acts = []
  /\ filter (passes fq_msg_valid) (committed acts) ++ fqEntries st'
     = fqEntries st ++ filter (passes fq_msg_valid) (popped_entries [input])
  /\ filter (fun e => negb (passes fq_msg_valid e)) (committed acts)
     = filter (fun e => negb (passes fq_msg_valid e)) (popped_entries [input])
  /\ List.concat (bulk_calls acts)
     = upserts_of getMsgUpserts
         (filter (passes fq_msg_valid) (committed acts)).
Proof.
  unfold iteration, batch_valid, batch_consistent.
  intros Hv [Hb Hs].
  destruct input as [fq_entry t|]; [|discriminate].
  unfold popped_entries. simpl flat_map.
  destruct (fq_msg_valid (message fq_entry)) eqn:V; simpl negb; cbv iota.
  - assert (Hall : Forall (fun e => passes fq_msg_valid e = true)
                          (fqEntries st ++ [fq_entry])).
    { apply Forall_app. split; auto. }
    assert (Hone : filter (passes fq_msg_valid) [fq_entry] = [fq_entry]
                   /\ filter (fun e => negb (passes fq_msg_valid e)) [fq_entry]
                      = []).
    { unfold passes. simpl. now rewrite V. }
    destruct Hone as [O1 O2]. rewrite O1, O2.
    destruct (keeps_accumulating _ _ _).
    + intros H. inversion H; subst; simpl.
      repeat split; auto.
      * rewrite upserts_of_app, upserts_of_one. now rewrite Hb.
      * rewrite map_app, sum_app. now rewrite Hs.
    + destruct (bulkUpdate _) eqn:Eb; try discriminate.
      intros H. inversion H; subst; simpl.
      rewrite committed_map_Commit, rolled_back_map_Commit,
        bulk_calls_map_Commit.
      destruct (filter_all _ Hall) as [F1 F2]. rewrite F1, F2.
      repeat split; auto.
      * now rewrite app_nil_r.
      * simpl. rewrite app_nil_r, upserts_of_app, upserts_of_one.
        now rewrite Hb.
  - intros H. inversion H; subst; simpl.
    unfold passes. rewrite V. simpl. rewrite app_nil_r.
    repeat split; auto.
Qed.

(** What a run that goes on keeps, and what it accounts for. *)
Lemma run_accounts (inputs : list popped) :
  forall (st st' : loader_state Upsert) (acts : list (action Upsert)),
    batch_valid fq_msg_valid st ->
    batch_consistent getMsgUpserts getObjectSize st ->
    run getMsgUpserts getObjectSize fq_msg_valid bulkUpdate st inputs
    = (Some st', acts) ->
    batch_valid fq_msg_valid st'
    /\ batch_consistent getMsgUpserts getObjectSize st'
    /\ rolled_back acts = []
    /\ filter (passes fq_msg_valid) (committed acts) ++ fqEntries st'
       = fqEntries st ++ filter (passes fq_msg_valid) (popped_entries inputs)
    /\ filter (fun e => negb (passes fq_msg_valid e)) (committed acts)
       = filter (fun e => negb (passes fq_msg_valid e)) (popped_entries inputs)
    /\ List.concat (bulk_calls acts)
       = upserts_of getMsgUpserts
           (filter (passes fq_msg_valid) (committed acts)).
Proof.
  induction inputs as [|input rest IH]; intros st st' acts Hv Hc; cbn [run].
  - intros H. inversion H; subst. simpl. rewrite app_nil_r.
    split; [exact Hv|]. split; [exact Hc|]. repeat split.
  - destruct (iteration _ _ _ _ st input) as [[st1|] acts1] eqn:Ei;
      [|discriminate].
    destruct (run _ _ _ _ st1 rest) as [final acts2] eqn:Er.
    intros H. inversion H; subst. clear H.
    destruct (iteration_accounts _ Hv Hc Ei)
      as [Hv1 [Hc1 [R1 [P1 [N1 B1]]]]].
    destruct (IH _ _ _ Hv1 Hc1 Er) as [Hv2 [Hc2 [R2 [P2 [N2 B2]]]]].
    rewrite committed_app, rolled_back_app, bulk_calls_app, concat_app,
      !filter_app, upserts_of_app.
    rewrite popped_entries_cons, !filter_app.
    split; [exact Hv2|]. split; [exact Hc2|].
    repeat split.
    + now rewrite R1, R2.
    + rewrite <- app_assoc, P2, app_assoc, P1. now rewrite app_assoc.
    + now rewrite N1, N2.
    + now rewrite B1, B2.
Qed.

(** A turn that ends the process: the queue failed, or the bulk update of
    the batch with this entry's upserts did. *)
Lemma iteration_exit (st : loader_state Upsert) (input : popped)
  (acts : list (action Upsert)) :
  batch_consistent getMsgUpserts getObjectSize st ->
  iteration getMsgUpserts getObjectSize fq_msg_valid bulkUpdate st input
  = (None, acts) ->
  (input = PopFails /\ acts = [Exit Upsert 1])
  \/ exists e t,
       input = Popped e t
       /\ passes fq_msg_valid e = true
       /\ let batch := upserts_of getMsgUpserts (fqEntries st ++ [e]) in
          (bulkUpdate batch = BulkError
           /\ acts = BulkUpdate batch
                     :: map (@Rollback Upsert) (fqEntries st ++ [e])
                     ++ [Exit Upsert 1])
          \/ (bulkUpdate batch = BulkThrown
              /\ acts = [BulkUpdate batch; Exit Upsert 1]).
Proof.
  unfold iteration, batch_consistent. intros [Hb Hs].
  destruct input as [e t|]; [|intros H; inversion H; auto].
  destruct (fq_msg_valid (message e)) eqn:V; simpl negb; cbv iota;
    [|discriminate].
  destruct (keeps_accumulating _ _ _); [discriminate|].
  rewrite Hb. rewrite <- (upserts_of_one e), <- upserts_of_app.
  intros H. right. exists e, t. split; [reflexivity|]. split; [exact V|].
  cbv zeta.
  destruct (bulkUpdate (upserts_of getMsgUpserts (fqEntries st ++ [e])));
    inversion H; subst; auto.
Qed.

(** A run that ends the process is a run that goes on, then one turn that
    ends it. *)
Lemma run_exit (inputs : list popped) :
  forall (st : loader_state Upsert) (acts : list (action Upsert)),
    run getMsgUpserts getObjectSize fq_msg_valid bulkUpdate st inputs
    = (None, acts) ->
    exists consumed last rest st1 acts1 acts2,
      inputs = consumed ++ last :: rest
      /\ run getMsgUpserts getObjectSize fq_msg_valid bulkUpdate st consumed
         = (Some st1, acts1)
      /\ iteration getMsgUpserts getObjectSize fq_msg_valid bulkUpdate st1 last
         = (None, acts2)
      /\ acts = acts1 ++ acts2.
Proof.
  induction inputs as [|input rest IH]; intros st acts; cbn [run].
  - discriminate.
  - destruct (iteration _ _ _ _ st input) as [[st1|] acts1] eqn:Ei.
    + destruct (run _ _ _ _ st1 rest) as [final acts2] eqn:Er.
      intros H. inversion H; subst. clear H.
      destruct (IH _ _ Er) as [c [l [r [s1 [a1 [a2 [E1 [E2 [E3 E4]]]]]]]]].
      exists (input :: c), l, r, s1, (acts1 ++ a1), a2.
      split; [now rewrite E1|]. split; [|split; [exact E3|]].
      * cbn [run]. rewrite Ei, E2. reflexivity.
      * now rewrite E4, app_assoc.
    + intros H. inversion H; subst. clear H.
      exists [], input, rest, st, [], acts.
      repeat split; auto.
Qed.

Lemma popped_entries_app (a b : list popped) :
  popped_entries (a ++ b) = popped_entries a ++ popped_entries b.
Proof. apply flat_map_app. Qed.

End LoaderConservation.

(** X4.  The bulk loader while it runs.  After any run of the loop from its
    initial state that has not ended the process: nothing was rolled back;
    the entries that passed the envelope schema are, in the order they were
    popped, the committed ones followed by the ones waiting in the batch;
    the entries that failed it have all been committed; the batch is the
    upserts of the waiting entries and its size is the sum of their sizes;
    and the bulk calls made carried, in order, the upserts of the committed
    entries that passed the schema, and nothing else. *)
Theorem loader_accounts_for_every_entry
  (Upsert : Type) (getMsgUpserts : FileQueueMessage -> list Upsert)
  (getObjectSize : Upsert -> Z) (fq_msg_valid : FileQueueMessage -> bool)
  (bulkUpdate : list Upsert -> Loader.bulk_result)
  (start_time : Z) (inputs : list Loader.popped)
  (st : Loader.loader_state Upsert) (acts : list (Loader.action Upsert)) :
  Loader.run getMsgUpserts getObjectSize fq_msg_valid bulkUpdate
    (Loader.initial Upsert start_time) inputs = (Some st, acts) ->
  rolled_back acts = []
  /\ filter (passes fq_msg_valid) (committed acts) ++ Loader.fqEntries st
     = filter (passes fq_msg_valid) (popped_entries inputs)
  /\ filter (fun e => negb (passes fq_msg_valid e)) (committed acts)
     = filter (fun e => negb (passes fq_msg_valid e)) (popped_entries inputs)
  /\ Loader.bulkUpserts st
     = upserts_of getMsgUpserts (Loader.fqEntries st)
  /\ Loader.bulkSizeBytes st
     = Loader.sum (map getObjectSize (Loader.bulkUpserts st))
  /\ List.concat (Loader.bulk_calls acts)
     = upserts_of getMsgUpserts
         (filter (passes fq_msg_valid) (committed acts)).
Proof.
  intros Hrun.
  assert (Hv : batch_valid fq_msg_valid (Loader.initial Upsert start_time))
    by constructor.
  assert (Hc : batch_consistent getMsgUpserts getObjectSize
                 (Loader.initial Upsert start_time))
    by (split; reflexivity).
  eapply run_accounts in Hrun; [|exact Hv|exact Hc].
  destruct Hrun as [_ [[Hb Hs] [R [P [N B]]]]].
  simpl in P. auto 10.
Qed.

Lemma loader_accounts_for_every_entry_witness :
  let inputs := [Loader.Popped (Scenario.entry "a") 200;
                 Loader.Popped (Scenario.entry "") 300;
                 Loader.Popped (Scenario.entry "b") 4000;
                 Loader.Popped (Scenario.entry "c") 4100] in
  let st := {| Loader.fqEntries := [Scenario.entry "c"];
               Loader.bulkUpserts := ["c"];
               Loader.bulkSizeBytes := 10;
               Loader.prevMsgTime := 4100 |} in
  let acts := [Loader.Commit string (Scenario.entry "");
               Loader.BulkUpdate ["a"; "b"];
               Loader.Commit string (Scenario.entry "a");
               Loader.Commit string (Scenario.entry "b")] in
  Loader.run Scenario.one_upsert Scenario.ten_bytes Scenario.envelope_with_id
    Scenario.bulk_succeeds (Loader.initial string 0) inputs = (Some st, acts)
  /\ filter (passes Scenario.envelope_with_id) (committed acts)
     ++ Loader.fqEntries st
     = filter (passes Scenario.envelope_with_id) (popped_entries inputs).
Proof.
  intros inputs st acts. split; [reflexivity|].
  exact (proj1 (proj2
    (@loader_accounts_for_every_entry string Scenario.one_upsert
       Scenario.ten_bytes Scenario.envelope_with_id Scenario.bulk_succeeds
       0%Z inputs st acts eq_refl))).
Defined.

(** X5.  The bulk loader when it ends the process.  A run from the initial
    state that ends does so after some of the entries it was given, and its
    last action is the exit with code 1.  The entries that failed the
    envelope schema among those popped have all been committed.  Then either
    the queue failed, or the bulk update threw something that is not an
    [Error], and nothing was rolled back; or the bulk update threw an
    [Error]: the entries rolled back are those whose upserts that last bulk
    call carried, and the committed entries that passed the schema followed
    by the rolled back ones are the popped entries that passed it, in
    order. *)
Theorem loader_exit_rolls_back_the_batch
  (Upsert : Type) (getMsgUpserts : FileQueueMessage -> list Upsert)
  (getObjectSize : Upsert -> Z) (fq_msg_valid : FileQueueMessage -> bool)
  (bulkUpdate : list Upsert -> Loader.bulk_result)
  (start_time : Z) (inputs : list Loader.popped)
  (acts : list (Loader.action Upsert)) :
  Loader.run getMsgUpserts getObjectSize fq_msg_valid bulkUpdate
    (Loader.initial Upsert start_time) inputs = (None, acts) ->
  exists consumed rest before,
    inputs = consumed ++ rest
    /\ acts = before ++ [Loader.Exit Upsert 1]
    /\ filter (fun e => negb (passes fq_msg_valid e)) (committed acts)
       = filter (fun e => negb (passes fq_msg_valid e))
                (popped_entries consumed)
    /\ ((In Loader.PopFails consumed /\ rolled_back acts = [])
        \/ (exists calls ops,
              Loader.bulk_calls acts = calls ++ [ops]
              /\ bulkUpdate ops = Loader.BulkThrown
              /\ rolled_back acts = [])
        \/ (exists calls,
              Loader.bulk_calls acts
              = calls ++ [upserts_of getMsgUpserts (rolled_back acts)]
              /\ bulkUpdate (upserts_of getMsgUpserts (rolled_back acts))
                 = Loader.BulkError
              /\ filter (passes fq_msg_valid) (committed acts)
                 ++ rolled_back acts
                 = filter (passes fq_msg_valid) (popped_entries consumed))).
Proof.
  intros Hrun.
  apply run_exit in Hrun.
  destruct Hrun as [c [l [r [st1 [a1 [a2 [E1 [E2 [E3 E4]]]]]]]]].
  assert (Hv : batch_valid fq_msg_valid (Loader.initial Upsert start_time))
    by constructor.
  assert (Hc : batch_consistent getMsgUpserts getObjectSize
                 (Loader.initial Upsert start_time))
    by (split; reflexivity).
  eapply run_accounts in E2; [|exact Hv|exact Hc].
  destruct E2 as [Hv1 [Hc1 [R [P [N B]]]]].
  simpl in P.
  exists (c ++ [l]), r.
  eapply iteration_exit in E3; [|exact Hc1].
  destruct E3 as [[El Ea]|[e [t [El [Hp Hk]]]]].
  - (* the queue failed *)
    subst l a2 acts. exists a1.
    split; [now rewrite <- app_assoc|]. split; [reflexivity|].
    rewrite committed_app, rolled_back_app, popped_entries_app, !filter_app.
    simpl. rewrite !app_nil_r. split; [exact N|].
    left. split; [|exact R]. apply in_or_app. right. simpl. auto.
  - cbv zeta in Hk. destruct Hk as [[Eb Ea]|[Eb Ea]].
    + (* the bulk update threw an Error *)
      subst l a2 acts.
      exists (a1 ++ Loader.BulkUpdate
                      (upserts_of getMsgUpserts (Loader.fqEntries st1 ++ [e]))
                    :: map (@Loader.Rollback Upsert)
                           (Loader.fqEntries st1 ++ [e])).
      split; [now rewrite <- app_assoc|].
      split; [now rewrite <- app_assoc|].
      assert (Hr : rolled_back
                     (a1 ++ Loader.BulkUpdate
                              (upserts_of getMsgUpserts
                                 (Loader.fqEntries st1 ++ [e]))
                            :: map (@Loader.Rollback Upsert)
                                   (Loader.fqEntries st1 ++ [e])
                            ++ [Loader.Exit Upsert 1])
                   = Loader.fqEntries st1 ++ [e]).
      { rewrite rolled_back_app, R. simpl.
        rewrite rolled_back_app, rolled_back_map_Rollback. simpl.
        now rewrite app_nil_r. }
      assert (Hcm : committed
                      (a1 ++ Loader.BulkUpdate
                               (upserts_of getMsgUpserts
                                  (Loader.fqEntries st1 ++ [e]))
                             :: map (@Loader.Rollback Upsert)
                                    (Loader.fqEntries st1 ++ [e])
                             ++ [Loader.Exit Upsert 1])
                    = committed a1).
      { rewrite committed_app. simpl.
        rewrite committed_app, committed_map_Rollback. simpl.
        now rewrite app_nil_r. }
      rewrite Hr, Hcm, popped_entries_app, !filter_app.
      assert (Hone : filter (passes fq_msg_valid) (popped_entries [Loader.Popped e t])
                     = [e]
                     /\ filter (fun x => negb (passes fq_msg_valid x))
                               (popped_entries [Loader.Popped e t]) = []).
      { simpl. now rewrite Hp. }
      destruct Hone as [O1 O2]. rewrite O1, O2, app_nil_r.
      split; [exact N|]. right. right.
      exists (Loader.bulk_calls a1). split; [|split; [exact Eb|]].
      * rewrite bulk_calls_app. simpl.
        now rewrite bulk_calls_app, bulk_calls_map_Rollback.
      * now rewrite app_assoc, P.
    + (* the bulk update threw something else *)
      subst l a2 acts.
      exists (a1 ++ [Loader.BulkUpdate
                       (upserts_of getMsgUpserts
                          (Loader.fqEntries st1 ++ [e]))]).
      split; [now rewrite <- app_assoc|].
      split; [now rewrite <- app_assoc|].
      rewrite committed_app, rolled_back_app, popped_entries_app, !filter_app.
      simpl. rewrite Hp. simpl. rewrite !app_nil_r.
      split; [exact N|]. right. left.
      exists (Loader.bulk_calls a1),
             (upserts_of getMsgUpserts (Loader.fqEntries st1 ++ [e])).
      split; [|split; [exact Eb|exact R]].
      now rewrite bulk_calls_app.
Qed.

Lemma loader_exit_rolls_back_the_batch_witness :
  let inputs := [Loader.Popped (Scenario.entry "a") 200;
                 Loader.Popped (Scenario.entry "b") 4000;
                 Loader.Popped (Scenario.entry "c") 4100] in
  let acts := [Loader.BulkUpdate ["a"; "b"];
               Loader.Rollback string (Scenario.entry "a");
               Loader.Rollback string (Scenario.entry "b");
               Loader.Exit string 1] in
  Loader.run Scenario.one_upsert Scenario.ten_bytes Scenario.accept_envelope
    bulk_fails (Loader.initial string 0) inputs = (None, acts)
  /\ exists consumed rest before,
       inputs = consumed ++ rest
       /\ acts = before ++ [Loader.Exit string 1]
       /\ filter (fun e => negb (passes Scenario.accept_envelope e))
                 (committed acts)
          = filter (fun e => negb (passes Scenario.accept_envelope e))
                   (popped_entries consumed)
       /\ ((In Loader.PopFails consumed /\ rolled_back acts = [])
           \/ (exists calls ops,
                 Loader.bulk_calls acts = calls ++ [ops]
                 /\ bulk_fails ops = Loader.BulkThrown
                 /\ rolled_back acts = [])
           \/ (exists calls,
                 Loader.bulk_calls acts
                 = calls ++ [upserts_of Scenario.one_upsert (rolled_back acts)]
                 /\ bulk_fails (upserts_of Scenario.one_upsert
                                  (rolled_back acts))
                    = Loader.BulkError
                 /\ filter (passes Scenario.accept_envelope) (committed acts)
                    ++ rolled_back acts
                    = filter (passes Scenario.accept_envelope)
                             (popped_entries consumed))).
Proof.
  intros inputs acts. split; [reflexivity|].
  exact (@loader_exit_rolls_back_the_batch string Scenario.one_upsert
           Scenario.ten_bytes Scenario.accept_envelope bulk_fails
           0%Z inputs acts eq_refl).
Defined.

(* ===================================================================== *)
(** * Further properties: the update under optimistic concurrency         *)
(* ===================================================================== *)

Lemma isEqual_VNum (v : value) (n : Z) :
  isEqual v (VNum n) = true <-> v = VNum n.
Proof.
  destruct v; simpl; try (split; discriminate).
  rewrite Z.eqb_eq. split; [now intros -> | now intros [= ->]].
Qed.

Lemma isEqual_VOid (v : value) (i : nat) :
  isEqual v (VOid i) = true <-> v = VOid i.
Proof.
  destruct v; simpl; try (split; discriminate).
  rewrite Nat.eqb_eq. split; [now intros -> | now intros [= ->]].
Qed.

Section CasFacts.

Import Db Updater.

(** The first document that matches, and what is around it. *)
Lemma find_split (f : value -> bool) (ds : list value) (d : value) :
  find f ds = Some d ->
  exists l1 l2,
    ds = l1 ++ d :: l2 /\ f d = true /\ forall x, In x l1 -> f x = false.
Proof.
  induction ds as [|x ds IH]; simpl; [discriminate|].
  destruct (f x) eqn:Ex.
  - intros [= ->]. exists [], ds. repeat split; auto. intros y [].
  - intros H. destruct (IH H) as [l1 [l2 [E [Hd Hl]]]].
    exists (x :: l1), l2. subst ds. repeat split; auto.
    intros y [<-|Hy]; auto.
Qed.

Lemma replace_first_split (filter : list (string * value)) (new_doc : value)
  (l1 l2 : list value) (d : value) :
  matches filter d = true ->
  (forall x, In x l1 -> matches filter x = false) ->
  replace_first filter new_doc (l1 ++ d :: l2) = l1 ++ new_doc :: l2.
Proof.
  intros Hd. induction l1 as [|x l1 IH]; intros Hl; simpl.
  - now rewrite Hd.
  - rewrite (Hl x) by (simpl; auto). f_equal. apply IH.
    intros y Hy. apply Hl. simpl. auto.
Qed.

(** What a document that matches the filter of the update carries. *)
Lemma matches_pick (f : list (string * value)) (k : string) (v d : value) :
  (k = "_id" \/ k = "_version") ->
  lookup k f = Some v ->
  matches (pick_id_version (VObj f)) d = true ->
  isEqual (get d [k]) v = true.
Proof.
  intros Hk Hl Hm. unfold matches in Hm. rewrite forallb_forall in Hm.
  apply (Hm (k, v)). unfold pick_id_version. apply filter_In. split.
  - now apply lookup_In.
  - simpl. destruct Hk as [-> | ->]; reflexivity.
Qed.

(** [$set] on a path that does not start at [k] leaves [k] as it is. *)
Lemma set_path_other (k : string) (doc doc' : value) (p : path) (v : value) :
  match p with [] => False | k' :: _ => k' <> k end ->
  set_path doc p v = Some doc' ->
  get doc' [k] = get doc [k].
Proof.
  destruct p as [|k' rest]; [contradiction|]. intros Hne. simpl.
  destruct doc; try discriminate.
  destruct (set_path _ rest v) as [child'|]; [|discriminate].
  intros [= <-]. simpl. rewrite lookup_set_field_ne; auto.
Qed.

Lemma apply_set_other (k : string) (update_set : list (path * value)) :
  forall doc doc',
    (forall p v, In (p, v) update_set ->
                 match p with [] => False | k' :: _ => k' <> k end) ->
    apply_set update_set doc = Some doc' ->
    get doc' [k] = get doc [k].
Proof.
  induction update_set as [|[p v] rest IH]; intros doc doc' Hall;
    cbn [apply_set].
  - now intros [= <-].
  - destruct (set_path doc p v) as [doc1|] eqn:Es; [|discriminate].
    intros H. rewrite (IH doc1 doc'); auto.
    + apply (set_path_other k doc p v); auto. apply (Hall p v). simpl. auto.
    + intros p' v' Hin. apply (Hall p' v'). simpl. auto.
Qed.

(** What a successful update has done. *)
Lemma cas_update_Some (db_entry : value) (update_set : list (path * value))
  (c c' : collection) (d2 : value) :
  cas_update db_entry update_set c = Some (d2, c') ->
  exists d d1 l1 l2,
    docs c = l1 ++ d :: l2
    /\ matches (pick_id_version db_entry) d = true
    /\ (forall x, In x l1 -> matches (pick_id_version db_entry) x = false)
    /\ inc_version d = Some d1
    /\ apply_set update_set d1 = Some d2
    /\ get d2 ["_version"] = get d1 ["_version"]
    /\ docs c' = l1 ++ d2 :: l2
    /\ next_id c' = next_id c.
Proof.
  unfold cas_update.
  match goal with
  | |- (if ?b then _ else _) = _ -> _ => destruct b eqn:Ex; [discriminate|]
  end.
  destruct (findOne (pick_id_version db_entry) c) as [d|] eqn:Ef;
    [|discriminate].
  destruct (inc_version d) as [d1|] eqn:Ei; [|discriminate].
  destruct (apply_set update_set d1) as [d2'|] eqn:Ea; [|discriminate].
  intros [= <- <-].
  destruct (find_split _ _ Ef) as [l1 [l2 [E [Hd Hl]]]].
  exists d, d1, l1, l2. simpl. rewrite E.
  repeat split; auto.
  - apply (apply_set_other "_version" update_set d1); auto.
    intros p v Hin. apply not_true_iff_false in Ex.
    destruct p as [|k' rest].
    + apply Ex. apply existsb_exists. exists ([], v). split; auto.
    + apply String.eqb_neq. destruct (String.eqb k' "_version") eqn:E1; auto.
      exfalso. apply Ex. apply existsb_exists. exists (k' :: rest, v).
      split; auto.
  - now apply replace_first_split.
Qed.

(** [$inc] on a document whose [_version] is a number. *)
Lemma inc_version_VNum (d d1 : value) (n : Z) :
  get d ["_version"] = VNum n ->
  inc_version d = Some d1 ->
  get d1 ["_version"] = VNum (n + 1).
Proof.
  unfold inc_version. destruct d; try discriminate. simpl.
  destruct (lookup "_version" fields) as [x|]; [|discriminate].
  intros ->. intros [= <-]. simpl. now rewrite lookup_set_field_eq.
Qed.

End CasFacts.

(** X6.  The update of one attempt is a compare-and-swap on [_version].
    The document read having [_version] [n], a successful update has found
    in the collection a document with the [_id] read and [_version] [n],
    and has put in its place, and returned, a document whose [_version] is
    [n + 1]; no other document is touched, none is added, and the counter of
    fresh ids is as before. *)
Theorem cas_update_increments_version
  (f : list (string * value)) (n : Z)
  (update_set : list (path * value)) (c c' : Db.collection) (d2 : value) :
  lookup "_version" f = Some (VNum n) ->
  Updater.cas_update (VObj f) update_set c = Some (d2, c') ->
  get d2 ["_version"] = VNum (n + 1)
  /\ Db.next_id c' = Db.next_id c
  /\ exists d l1 l2,
       Db.docs c = l1 ++ d :: l2
       /\ Db.docs c' = l1 ++ d2 :: l2
       /\ get d ["_version"] = VNum n
       /\ forall id, lookup "_id" f = Some id ->
                     isEqual (get d ["_id"]) id = true.
Proof.
  intros Hv Hcas.
  destruct (cas_update_Some _ _ _ Hcas)
    as [d [d1 [l1 [l2 [E [Hm [Hl [Hi [Ha [Hg [E' Hn]]]]]]]]]]].
  assert (Hd : get d ["_version"] = VNum n).
  { apply isEqual_VNum. apply (@matches_pick f "_version"); auto. }
  split; [|split; [exact Hn|]].
  - rewrite Hg. eapply inc_version_VNum; eauto.
  - exists d, l1, l2. repeat split; auto.
    intros id Hid. apply (@matches_pick f "_id"); auto.
Qed.

Lemma cas_update_increments_version_witness :
  let f := [("_id", VOid 0); ("type", VStr "koji-build"); ("aid", VStr "42");
            ("_version", VNum 1)] in
  let c := {| Db.docs := [VObj f]; Db.next_id := 1 |} in
  let update_set := [(["rpm_build"; "nvr"], VStr "pkg-1.0-1.fc33")] in
  exists d2 c',
    lookup "_version" f = Some (VNum 1)
    /\ Updater.cas_update (VObj f) update_set c = Some (d2, c')
    /\ get d2 ["_version"] = VNum (1 + 1).
Proof.
  intros f c update_set. do 2 eexists.
  split; [reflexivity|]. split; [vm_compute; reflexivity|].
  refine (proj1 (@cas_update_increments_version f 1 update_set c _ _ _ _)).
  - reflexivity.
  - vm_compute; reflexivity.
Defined.

(** X7.  A stale read is refused.  In a collection where no two documents
    have the same [_id], once an update made from a read of [_id] [i] and
    [_version] [n] has succeeded, any update made from the same read is
    refused: nothing is modified by it. *)
Theorem cas_update_refuses_stale_read
  (f : list (string * value)) (i : nat) (n : Z)
  (update_set update_set' : list (path * value))
  (c c' : Db.collection) (d2 : value) :
  lookup "_id" f = Some (VOid i) ->
  lookup "_version" f = Some (VNum n) ->
  NoDup (map (fun d => get d ["_id"]) (Db.docs c)) ->
  Updater.cas_update (VObj f) update_set c = Some (d2, c') ->
  Updater.cas_update (VObj f) update_set' c' = None.
Proof.
  intros Hid Hv Hnd Hcas.
  destruct (cas_update_Some _ _ _ Hcas)
    as [d [d1 [l1 [l2 [E [Hm [Hl [Hi [Ha [Hg [E' Hn]]]]]]]]]]].
  assert (Hdv : get d ["_version"] = VNum n).
  { apply isEqual_VNum. apply (@matches_pick f "_version"); auto. }
  assert (Hdi : get d ["_id"] = VOid i).
  { apply isEqual_VOid. apply (@matches_pick f "_id"); auto. }
  assert (Hd2 : get d2 ["_version"] = VNum (n + 1)).
  { rewrite Hg. eapply inc_version_VNum; eauto. }
  assert (Hnone : Db.findOne (Db.pick_id_version (VObj f)) c' = None).
  { unfold Db.findOne. rewrite E'.
    destruct (find _ (l1 ++ d2 :: l2)) as [x|] eqn:Ef; auto.
    apply find_some in Ef. destruct Ef as [Hin Hx]. exfalso.
    assert (Hxv : get x ["_version"] = VNum n).
    { apply isEqual_VNum. apply (@matches_pick f "_version"); auto. }
    assert (Hxi : get x ["_id"] = VOid i).
    { apply isEqual_VOid. apply (@matches_pick f "_id"); auto. }
    apply in_app_iff in Hin. destruct Hin as [Hin|[<-|Hin]].
    - rewrite (Hl x Hin) in Hx. discriminate.
    - rewrite Hd2 in Hxv. inversion Hxv. lia.
    - rewrite E, map_app, map_cons in Hnd.
      apply NoDup_remove_2 in Hnd. apply Hnd.
      apply in_or_app. right. rewrite Hdi, <- Hxi.
      now apply (in_map (fun d => get d ["_id"])). }
  unfold Updater.cas_update. rewrite Hnone.
  match goal with
  | |- (if ?b then _ else _) = _ => destruct b; reflexivity
  end.
Qed.

Lemma cas_update_refuses_stale_read_witness :
  let f := [("_id", VOid 0); ("type", VStr "koji-build"); ("aid", VStr "42");
            ("_version", VNum 1)] in
  let c := {| Db.docs := [VObj f]; Db.next_id := 1 |} in
  let first := [(["rpm_build"; "nvr"], VStr "pkg-1.0-1.fc33")] in
  let second := [(["rpm_build"; "issuer"], VStr "alice")] in
  exists d2 c',
    Updater.cas_update (VObj f) first c = Some (d2, c')
    /\ Updater.cas_update (VObj f) second c' = None.
Proof.
  intros f c first second. do 2 eexists.
  split; [vm_compute; reflexivity|].
  refine (@cas_update_refuses_stale_read f 0 1 first second c _ _ _ _ _ _).
  - reflexivity.
  - reflexivity.
  - simpl. repeat constructor. simpl. tauto.
  - vm_compute; reflexivity.
Defined.

(* ===================================================================== *)
(** * Further properties: what [add] and [add_to_db] write                *)
(* ===================================================================== *)

Section WriteFacts.

Import Db Updater.

Lemma no_write_app (a b : list event) :
  no_write (a ++ b) <-> no_write a /\ no_write b.
Proof.
  unfold no_write. rewrite existsb_app. apply orb_false_iff.
Qed.

Lemma no_write_no_split (l pre post : list event) (d : value) :
  no_write l -> l <> pre ++ Written d :: post.
Proof.
  intros Hn ->. apply no_write_app in Hn. destruct Hn as [_ Hn].
  unfold no_write in Hn. simpl in Hn. discriminate.
Qed.

Lemma write_is_last (l pre post : list event) (d d' : value) :
  no_write l ->
  l ++ [Written d'] = pre ++ Written d :: post ->
  post = [] /\ pre = l /\ d = d'.
Proof.
  intros Hn E.
  destruct post as [|x post] using rev_ind.
  - apply app_inj_tail in E. destruct E as [-> [= ->]]. auto.
  - clear IHpost. exfalso.
    rewrite app_comm_cons, app_assoc in E.
    apply app_inj_tail in E. destruct E as [E _].
    now apply (no_write_no_split pre post d) in Hn.
Qed.

Lemma has_write_split (l : list event) :
  existsb is_write l = true ->
  exists pre d post, l = pre ++ Written d :: post.
Proof.
  intros H. apply existsb_exists in H. destruct H as [x [Hin Hx]].
  destruct x; try discriminate.
  apply in_split in Hin. destruct Hin as [pre [post E]]. eauto.
Qed.

Variable db_artifact_valid : value -> bool.
Variable faults : nat -> fault.

(** The turn of the loop made with [retries_left] above 1. *)
Lemma add_loop_unfold (handler : DbMsgHandlers.handler)
  (message : FileQueueMessage) (n : nat) (artifact : value)
  (c : collection) (log : list event) :
  add_loop db_artifact_valid faults handler message (S (S n)) artifact c log
  = match handler c message with
    | (Throw e, c1) =>
        {| returned := Throw e; store := c1;
           trace := log ++ [HandlerInvoked] |}
    | (Ok artifact, c1) =>
        let log := log ++ [HandlerInvoked] in
        if negb (db_artifact_valid artifact) then
          {| returned := Throw (ValidationError "db_artifact");
             store := c1; trace := log |}
        else
          let type := get artifact ["type"] in
          let aid := get artifact ["aid"] in
          let reread :=
            match faults (S n) with
            | FindOrCreateFails => (Throw (Error "findOrCreate"), c1)
            | _ => findOrCreate db_artifact_valid type aid c1
            end in
          match reread with
          | (Throw _, c2) =>
              add_loop db_artifact_valid faults handler message (S n)
                       artifact c2 (log ++ [ReRead])
          | (Ok db_entry, c2) =>
              let log := log ++ [ReRead] in
              let update_set := mk_update_set db_entry artifact in
              match update_set with
              | [] =>
                  {| returned := Ok artifact; store := c2; trace := log |}
              | _ :: _ =>
                  let c3 :=
                    match faults (S n) with
                    | ConcurrentWrite writer => writer c2
                    | _ => c2
                    end in
                  let updated :=
                    match faults (S n) with
                    | UpdateFails => None
                    | _ => cas_update db_entry update_set c3
                    end in
                  match updated with
                  | Some (modifiedDocument, c4) =>
                      {| returned := Ok modifiedDocument; store := c4;
                         trace := log ++ [Written modifiedDocument] |}
                  | None =>
                      add_loop db_artifact_valid faults handler message (S n)
                               artifact c3 (log ++ [WriteMissed])
                  end
              end
          end
    end.
Proof. reflexivity. Qed.

(** The ways the loop ends and the ways it goes round: a property of its
    outcomes is proved by going through them. *)
Lemma add_loop_outcomes (handler : DbMsgHandlers.handler)
  (message : FileQueueMessage)
  (Q : collection -> list event -> outcome -> Prop) :
  (forall artifact c log,
     Q c log {| returned := Throw (all_attempts_failed artifact);
                store := c; trace := log |}) ->
  (forall c log e c1,
     handler c message = (Throw e, c1) ->
     Q c log {| returned := Throw e; store := c1;
                trace := log ++ [HandlerInvoked] |}) ->
  (forall c log a c1,
     handler c message = (Ok a, c1) ->
     db_artifact_valid a = false ->
     Q c log {| returned := Throw (ValidationError "db_artifact");
                store := c1; trace := log ++ [HandlerInvoked] |}) ->
  (forall c log a c1 db_entry c2,
     handler c message = (Ok a, c1) ->
     db_artifact_valid a = true ->
     mk_update_set db_entry a = [] ->
     Q c log {| returned := Ok a; store := c2;
                trace := (log ++ [HandlerInvoked]) ++ [ReRead] |}) ->
  (forall c log a c1 db_entry c3 md c4,
     handler c message = (Ok a, c1) ->
     db_artifact_valid a = true ->
     mk_update_set db_entry a <> [] ->
     cas_update db_entry (mk_update_set db_entry a) c3 = Some (md, c4) ->
     Q c log {| returned := Ok md; store := c4;
                trace := ((log ++ [HandlerInvoked]) ++ [ReRead])
                         ++ [Written md] |}) ->
  (forall c log a c1 c2 o,
     handler c message = (Ok a, c1) ->
     Q c2 ((log ++ [HandlerInvoked]) ++ [ReRead]) o ->
     Q c log o) ->
  (forall c log a c1 c3 o,
     handler c message = (Ok a, c1) ->
     Q c3 (((log ++ [HandlerInvoked]) ++ [ReRead]) ++ [WriteMissed]) o ->
     Q c log o) ->
  forall retries_left artifact c log,
    Q c log (add_loop db_artifact_valid faults handler message retries_left
                      artifact c log).
Proof.
  intros Hex Hthrow Hinv Hsame Hwritten Hreread Hmissed.
  induction retries_left as [|n IH]; intros artifact c log.
  - apply Hex.
  - destruct n as [|n]; [apply Hex|].
    rewrite add_loop_unfold.
    destruct (handler c message) as [[a|e] c1] eqn:Eh; [|now apply Hthrow].
    cbv zeta.
    destruct (db_artifact_valid a) eqn:Ev; [|now apply (Hinv c log a c1)].
    cbn [negb].
    destruct (match faults (S n) with
              | FindOrCreateFails => (Throw (Error "findOrCreate"), c1)
              | _ => findOrCreate db_artifact_valid (get a ["type"])
                       (get a ["aid"]) c1
              end) as [[db_entry|e] c2].
    + destruct (mk_update_set db_entry a) as [|u us] eqn:Eu.
      * now apply (Hsame c log a c1 db_entry c2).
      * destruct (match faults (S n) with
                  | UpdateFails => None
                  | _ => cas_update db_entry (u :: us)
                           match faults (S n) with
                           | ConcurrentWrite writer => writer c2
                           | _ => c2
                           end
                  end) as [[md c4]|] eqn:Ec.
        -- destruct (faults (S n)); try discriminate;
             (eapply (Hwritten c log a c1 db_entry _ md c4); eauto;
              [rewrite Eu; discriminate | rewrite Eu; exact Ec]).
        -- eapply (Hmissed c log a c1); eauto.
    + eapply (Hreread c log a c1); eauto.
Qed.

Lemma grown_refl (c : collection) : grown_by_upserts c c.
Proof. exists []. rewrite app_nil_r. auto. Qed.

Lemma grown_trans (a b c : collection) :
  grown_by_upserts a b -> grown_by_upserts b c -> grown_by_upserts a c.
Proof.
  intros [x [Ex Hx]] [y [Ey Hy]]. exists (x ++ y). split.
  - now rewrite Ey, Ex, app_assoc.
  - apply Forall_app. auto.
Qed.

Lemma findOrCreate_grows (type aid : value) (c c' : collection)
  (r : result value) :
  findOrCreate db_artifact_valid type aid c = (r, c') ->
  grown_by_upserts c c'.
Proof.
  unfold findOrCreate.
  destruct (findOne [("type", type); ("aid", aid)] c) as [d|].
  - destruct (db_artifact_valid d); intros [= _ <-]; apply grown_refl.
  - match goal with
    | |- (if ?b then _ else _) = _ -> _ => destruct b
    end; intros [= _ <-];
      (eexists; split; [reflexivity|]; repeat constructor;
       unfold upserted; eauto).
Qed.

Variable sha256_hex : string -> string.
Variable Date_parse : value -> option Z.
Variable kai_state_valid : KaiState -> bool.
Variable koji_getBuild : string -> value -> result value.
Variable atype_to_hub_map : string -> option string.

(** A handler changes the collection through [findOrCreate] only. *)
Lemma handler_grows (topic : string) (handler : DbMsgHandlers.handler)
  (c c' : collection) (message : FileQueueMessage) (r : result value) :
  DbMsgHandlers.get_handler sha256_hex Date_parse kai_state_valid
    db_artifact_valid koji_getBuild atype_to_hub_map topic = Some handler ->
  handler c message = (r, c') ->
  grown_by_upserts c c'.
Proof.
  assert (Htag : forall type,
            DbMsgHandlers.handler_buildsys_tag db_artifact_valid
              koji_getBuild atype_to_hub_map type c message = (r, c') ->
            grown_by_upserts c c').
  { intros type. unfold DbMsgHandlers.handler_buildsys_tag.
    destruct (atype_to_hub_map type) as [hub|];
      [|intros [= _ <-]; apply grown_refl].
    destruct (koji_getBuild hub _) as [info|e];
      [|intros [= _ <-]; apply grown_refl].
    destruct (findOrCreate _ _ _ c) as [[artifact|e] c1] eqn:Ef;
      intros [= _ <-]; exact (findOrCreate_grows _ _ _ Ef). }
  assert (Hrpm :
            DbMsgHandlers.handler_rpm_build_test_common sha256_hex Date_parse
              kai_state_valid db_artifact_valid c message = (r, c') ->
            grown_by_upserts c c').
  { unfold DbMsgHandlers.handler_rpm_build_test_common.
    destruct (get (body message) ["artifact"]);
      try (intros [= _ <-]; apply grown_refl);
      (destruct (findOrCreate _ _ _ c) as [[stored|e] c1] eqn:Ef;
       [|intros [= _ <-]; exact (findOrCreate_grows _ _ _ Ef)]);
      (destruct (DbMsgHandlers.mk_state _ _ _ message) as [st|e];
       intros [= _ <-]; exact (findOrCreate_grows _ _ _ Ef)). }
  unfold DbMsgHandlers.get_handler.
  destruct (DbMsgHandlers.match_whole "org.centos.prod.buildsys.tag" topic);
    [intros [= <-]; apply Htag|].
  destruct (DbMsgHandlers.match_whole "org.fedoraproject.prod.buildsys.tag"
              topic);
    [intros [= <-]; apply Htag|].
  destruct (DbMsgHandlers.match_prefix "org.centos.prod.ci.koji-build.test."
              topic) as [rest|]; [|discriminate].
  match goal with
  | |- (if ?b then _ else _) = _ -> _ => destruct b; [|discriminate]
  end.
  intros [= <-]. exact Hrpm.
Qed.

(** A call of the loop that makes no update leaves the stored documents in
    place and adds upserts only, when no other writer acts. *)
Lemma add_loop_grows (handler : DbMsgHandlers.handler)
  (message : FileQueueMessage) :
  no_other_writer faults ->
  (forall c r c1, handler c message = (r, c1) -> grown_by_upserts c c1) ->
  forall retries_left artifact c log,
    no_write
      (trace (add_loop db_artifact_valid faults handler message retries_left
                artifact c log)) ->
    grown_by_upserts c
      (store (add_loop db_artifact_valid faults handler message retries_left
                artifact c log)).
Proof.
  intros Hfaults Hh.
  induction retries_left as [|n IH]; intros artifact c log.
  - intros _. apply grown_refl.
  - destruct n as [|n]; [intros _; apply grown_refl|].
    rewrite add_loop_unfold.
    destruct (handler c message) as [[a|e] c1] eqn:Eh;
      [|intros _; exact (Hh _ _ _ Eh)].
    pose proof (Hh _ _ _ Eh) as G1.
    cbv zeta.
    destruct (db_artifact_valid a); cbn [negb]; [|intros _; exact G1].
    pose proof (Hfaults (S n)) as Hf.
    destruct (match faults (S n) with
              | FindOrCreateFails => (Throw (Error "findOrCreate"), c1)
              | _ => findOrCreate db_artifact_valid (get a ["type"])
                       (get a ["aid"]) c1
              end) as [[db_entry|e] c2] eqn:Er.
    + assert (G2 : grown_by_upserts c1 c2).
      { destruct (faults (S n));
          try exact (findOrCreate_grows _ _ _ Er); discriminate. }
      assert (Ec3 : match faults (S n) with
                    | ConcurrentWrite writer => writer c2
                    | _ => c2
                    end = c2)
        by (destruct (faults (S n)); auto; contradiction).
      rewrite Ec3.
      destruct (mk_update_set db_entry a) as [|u us].
      * intros _. exact (grown_trans G1 G2).
      * destruct (match faults (S n) with
                  | UpdateFails => None
                  | _ => cas_update db_entry (u :: us) c2
                  end) as [[md c4]|].
        -- intros Hn. exfalso. cbn [trace] in Hn.
           apply no_write_app in Hn. destruct Hn as [_ Hn].
           unfold no_write in Hn. simpl in Hn. discriminate.
        -- intros Hn. apply IH in Hn.
           exact (grown_trans (grown_trans G1 G2) Hn).
    + assert (G2 : grown_by_upserts c1 c2).
      { destruct (faults (S n));
          try exact (findOrCreate_grows _ _ _ Er);
          inversion Er; subst; apply grown_refl. }
      intros Hn. apply IH in Hn.
      exact (grown_trans (grown_trans G1 G2) Hn).
Qed.

End WriteFacts.

(** X8.  What [add_to_db] writes.  Whatever the envelope, the collection,
    the handler's collaborators and the faults of the attempts: the call
    makes at most one update of a document ([findOneAndUpdate] with [$inc]
    and [$set]); the update is the last thing it does, the document it wrote
    is the document returned, and it is in the collection afterwards.  A call
    that throws has made no such update.  The upsert of [findOrCreate], in
    the handler and in the re-read, writes as well: a call that makes no
    update, a call that throws among them, leaves every document that was
    stored in its place and unchanged and may leave new documents after
    them, each as the upsert inserts it, when no other writer acts.  An
    envelope whose body fails the schema of its topic reaches no handler and
    leaves the collection as it was. *)
Theorem add_to_db_writes_at_most_once
  (db_artifact_valid : value -> bool) (faults : nat -> Updater.fault)
  (sha256_hex : string -> string) (Date_parse : value -> option Z)
  (kai_state_valid : KaiState -> bool)
  (koji_getBuild : string -> value -> result value)
  (atype_to_hub_map : string -> option string)
  (body_valid : string -> value -> bool)
  (message : FileQueueMessage) (c : Db.collection) :
  let o := Collections.add_to_db db_artifact_valid faults sha256_hex
             Date_parse kai_state_valid koji_getBuild atype_to_hub_map
             body_valid message c in
  (forall pre d post,
     Updater.trace o = pre ++ Updater.Written d :: post ->
     post = [] /\ no_write pre /\ Updater.returned o = Ok d
     /\ In d (Db.docs (Updater.store o)))
  /\ (forall e, Updater.returned o = Throw e -> no_write (Updater.trace o))
  /\ (no_other_writer faults ->
      no_write (Updater.trace o) ->
      exists added,
        Db.docs (Updater.store o) = Db.docs c ++ added
        /\ Forall upserted added)
  /\ (body_valid (broker_topic message) (body message) = false ->
      Updater.trace o = [] /\ Updater.store o = c).
Proof.
  intros o.
  assert (Hloop : forall handler retries_left artifact c0 log,
            no_write log ->
            forall pre d post,
              Updater.trace
                (Updater.add_loop db_artifact_valid faults handler message
                   retries_left artifact c0 log)
              = pre ++ Updater.Written d :: post ->
              post = [] /\ no_write pre
              /\ Updater.returned
                   (Updater.add_loop db_artifact_valid faults handler message
                      retries_left artifact c0 log) = Ok d
              /\ In d (Db.docs
                         (Updater.store
                            (Updater.add_loop db_artifact_valid faults handler
                               message retries_left artifact c0 log)))).
  { intros handler.
    apply (@add_loop_outcomes db_artifact_valid faults handler message
             (fun _ log o =>
                no_write log ->
                forall pre d post,
                  Updater.trace o = pre ++ Updater.Written d :: post ->
                  post = [] /\ no_write pre /\ Updater.returned o = Ok d
                  /\ In d (Db.docs (Updater.store o)))).
    - intros artifact c0 log Hn pre d post E. simpl in E.
      now apply no_write_no_split in E.
    - intros c0 log e c1 _ Hn pre d post E. simpl in E.
      apply no_write_no_split in E; [contradiction|].
      apply no_write_app. split; [exact Hn | reflexivity].
    - intros c0 log a c1 _ _ Hn pre d post E. simpl in E.
      apply no_write_no_split in E; [contradiction|].
      apply no_write_app. split; [exact Hn | reflexivity].
    - intros c0 log a c1 db_entry c2 _ _ _ Hn pre d post E. simpl in E.
      apply no_write_no_split in E; [contradiction|].
      apply no_write_app. split; [|reflexivity].
      apply no_write_app. split; [exact Hn | reflexivity].
    - intros c0 log a c1 db_entry c3 md c4 _ _ _ Hcas Hn pre d post E.
      simpl in E.
      apply write_is_last in E.
      + destruct E as [-> [-> ->]]. simpl.
        split; [reflexivity|]. split.
        * apply no_write_app. split; [|reflexivity].
          apply no_write_app. split; [exact Hn | reflexivity].
        * split; [reflexivity|].
          destruct (cas_update_Some _ _ _ Hcas)
            as [d0 [d1 [l1 [l2 [_ [_ [_ [_ [_ [_ [E' _]]]]]]]]]]].
          rewrite E'. apply in_or_app. right. simpl. auto.
      + apply no_write_app. split; [|reflexivity].
        apply no_write_app. split; [exact Hn | reflexivity].
    - intros c0 log a c1 c2 o0 _ IH Hn. apply IH.
      apply no_write_app. split; [|reflexivity].
      apply no_write_app. split; [exact Hn | reflexivity].
    - intros c0 log a c1 c3 o0 _ IH Hn. apply IH.
      apply no_write_app. split; [|reflexivity].
      apply no_write_app. split; [|reflexivity].
      apply no_write_app. split; [exact Hn | reflexivity]. }
  assert (Hfirst : forall pre d post,
            Updater.trace o = pre ++ Updater.Written d :: post ->
            post = [] /\ no_write pre /\ Updater.returned o = Ok d
            /\ In d (Db.docs (Updater.store o))).
  { subst o. unfold Collections.add_to_db, Updater.add.
    destruct (body_valid (broker_topic message) (body message)).
    - destruct (DbMsgHandlers.get_handler _ _ _ _ _ _ (broker_topic message))
        as [handler|].
      + apply Hloop. reflexivity.
      + intros pre d post E. simpl in E. now destruct pre.
    - intros pre d post E. simpl in E. now destruct pre. }
  split; [exact Hfirst|]. split; [|split].
  - intros e He. unfold no_write.
    destruct (existsb Updater.is_write (Updater.trace o)) eqn:Ex; auto.
    apply has_write_split in Ex. destruct Ex as [pre [d [post E]]].
    destruct (Hfirst _ _ _ E) as [_ [_ [Hr _]]]. congruence.
  - intros Hfaults. subst o. unfold Collections.add_to_db, Updater.add.
    destruct (body_valid (broker_topic message) (body message));
      [|intros _; apply grown_refl].
    destruct (DbMsgHandlers.get_handler _ _ _ _ _ _ (broker_topic message))
      as [handler|] eqn:Eh; [|intros _; apply grown_refl].
    apply add_loop_grows; [exact Hfaults|].
    intros c0 r c1 H. eapply handler_grows; [exact Eh | exact H].
  - intros Hb. subst o. unfold Collections.add_to_db. rewrite Hb. auto.
Qed.

(** A test-queued event without [generated_at]: the handler's upsert has
    inserted the document of the build when [mk_state] throws. *)
Example add_to_db_throws_after_upsert :
  let message :=
    {| fq_msg_id := "1640995200-ID:1"; broker_msg_id := "ID:1";
       broker_topic := "org.centos.prod.ci.koji-build.test.queued";
       body := VObj [("artifact",
                      VObj [("type", VStr "koji-build"); ("id", VNum 42)]);
                     ("pipeline", VObj [("id", VStr "PIPE-1")])];
       address := Some "org.centos.prod.ci.koji-build.test.queued";
       message_id := Some "ID:1" |} in
  let o := Collections.add_to_db Scenario.accept_document Scenario.no_faults
             Scenario.digest Scenario.parse_date Scenario.accept_kai_state
             Scenario.no_hub Scenario.no_hub_map (fun _ _ => true) message
             Scenario.empty_collection in
  Updater.returned o = Throw (ValidationError "kai_state")
  /\ Updater.trace o = [Updater.HandlerInvoked]
  /\ Db.docs (Updater.store o)
     = [VObj [("_id", VOid 0); ("type", VStr "koji-build");
              ("aid", VStr "42"); ("_version", VNum 1)]].
Proof. vm_compute. repeat split. Qed.

(* ===================================================================== *)
(** * Further properties: the update set                                  *)
(* ===================================================================== *)

(** A JavaScript value is equal to itself. *)
Lemma isEqual_refl (v : value) : well_formed v = true -> isEqual v v = true.
Proof.
  induction v as [| |b|n| |s|n|items IH|fields IH] using value_ind;
    intros Hwf; simpl; auto.
  - now destruct b.
  - apply Z.eqb_refl.
  - apply String.eqb_refl.
  - apply Nat.eqb_refl.
  - simpl in Hwf. induction IH as [|x l Hx Hl IHl]; auto.
    simpl in Hwf. apply andb_true_iff in Hwf. destruct Hwf as [Hwx Hwl].
    rewrite (Hx Hwx). simpl. now apply IHl.
  - simpl in Hwf. apply andb_true_iff in Hwf. destruct Hwf as [Hnd Hall].
    apply nodupb_NoDup in Hnd. rewrite forallb_forall in Hall.
    rewrite Forall_forall in IH.
    rewrite Nat.eqb_refl. simpl.
    assert (Hgo : forall f1, incl f1 fields ->
              (fix go (f : list (string * value)) : bool :=
                 match f with
                 | [] => true
                 | (k, x) :: r =>
                     match lookup k fields with
                     | Some y => isEqual x y
                     | None => false
                     end && go r
                 end) f1 = true).
    { induction f1 as [|[k x] f1 IH1]; intros Hincl; auto.
      assert (Hin : In (k, x) fields) by (apply Hincl; simpl; auto).
      rewrite (In_lookup k x fields Hnd Hin).
      pose proof (IH (k, x) Hin (Hall (k, x) Hin)) as Hx. simpl in Hx.
      rewrite Hx. simpl.
      apply IH1. intros y Hy. apply Hincl. simpl. auto. }
    apply Hgo. apply incl_refl.
Qed.

(** X9.  What the update set holds.  For a proposal that is a JavaScript
    value, every pair of the update set is a leaf path of the proposal with
    the proposal's value at that path; the value is neither [null] nor
    [undefined] nor an embedded document, and it differs from what the
    persisted document holds at the same path.  So an update set never asks
    to remove a field, and never rewrites a field with the value it has. *)
Theorem mk_update_set_sound (present newdata : value)
  (p : path) (v : value) :
  well_formed newdata = true ->
  In (p, v) (Db.mk_update_set present newdata) ->
  In p (paths_mongodb_pack_array newdata)
  /\ v = get newdata p
  /\ v <> VNull /\ v <> VUndefined
  /\ (forall f, v <> VObj f)
  /\ isEqual v (get present p) = false.
Proof.
  intros Hwf Hin.
  pose proof (mk_update_set_within_spec present newdata p v Hwf Hin) as Hspec.
  apply mk_update_set_spec in Hin. destruct Hin as [Hp [Hv _]].
  unfold drop_empty_paths in Hp. apply filter_In in Hp.
  destruct Hp as [Hleaf Hdef]. apply negb_true_iff in Hdef.
  pose proof (paths_end_at_leaves newdata Hwf p Hleaf) as Hend.
  rewrite <- Hv in Hdef, Hend.
  repeat split; auto.
  - intros ->. discriminate.
  - intros ->. discriminate.
  - intros f ->. exact Hend.
  - unfold update_set_of_the_spec in Hspec. apply in_map_iff in Hspec.
    destruct Hspec as [p' [E Hf]]. inversion E; subst p'.
    apply filter_In in Hf. destruct Hf as [_ Hf].
    apply negb_true_iff in Hf. exact Hf.
Qed.

Lemma mk_update_set_sound_witness :
  let present := VObj [("_id", VOid 0); ("type", VStr "koji-build");
                       ("aid", VStr "42"); ("_version", VNum 1)] in
  let newdata := VObj [("_id", VOid 0); ("type", VStr "koji-build");
                       ("aid", VStr "42"); ("_version", VNum 1);
                       ("rpm_build", VObj [("nvr", VStr "pkg-1.0-1.fc33")])] in
  well_formed newdata = true
  /\ In (["rpm_build"; "nvr"], VStr "pkg-1.0-1.fc33")
        (Db.mk_update_set present newdata)
  /\ isEqual (VStr "pkg-1.0-1.fc33") (get present ["rpm_build"; "nvr"])
     = false.
Proof.
  intros present newdata.
  split; [reflexivity|]. split; [vm_compute; auto|].
  refine (proj2 (proj2 (proj2 (proj2 (proj2
    (@mk_update_set_sound present newdata ["rpm_build"; "nvr"]
       (VStr "pkg-1.0-1.fc33") _ _)))))).
  - reflexivity.
  - vm_compute; auto.
Defined.

(** X10.  Nothing new, nothing to write.  When every leaf of the proposal
    that is neither [null] nor [undefined] is equal to what the persisted
    document holds at the same path, the update set is empty; so it is for
    a proposal that is the persisted document itself. *)
Theorem mk_update_set_nothing_new (present newdata : value) :
  well_formed newdata = true ->
  (forall p, In p (paths_mongodb_pack_array newdata) ->
             isNull (get newdata p) || isUndefined (get newdata p) = true
             \/ isEqual (get newdata p) (get present p) = true) ->
  Db.mk_update_set present newdata = []
  /\ Db.mk_update_set newdata newdata = [].
Proof.
  intros Hwf Hall.
  assert (Hempty : forall pres,
            (forall p, In p (paths_mongodb_pack_array newdata) ->
               isNull (get newdata p) || isUndefined (get newdata p) = true
               \/ isEqual (get newdata p) (get pres p) = true) ->
            Db.mk_update_set pres newdata = []).
  { intros pres Hp.
    destruct (Db.mk_update_set pres newdata) as [|[p v] rest] eqn:E; auto.
    exfalso.
    assert (Hin : In (p, v) (Db.mk_update_set pres newdata))
      by (rewrite E; simpl; auto).
    pose proof (mk_update_set_within_spec pres newdata p v Hwf Hin) as Hs.
    unfold update_set_of_the_spec in Hs. apply in_map_iff in Hs.
    destruct Hs as [p' [Ep Hf]]. inversion Ep; subst p'.
    apply filter_In in Hf. destruct Hf as [Hd Hne].
    unfold drop_empty_paths in Hd. apply filter_In in Hd.
    destruct Hd as [Hleaf Hdef].
    apply negb_true_iff in Hne, Hdef.
    destruct (Hp p Hleaf) as [H|H]; congruence. }
  split; [now apply Hempty|].
  apply Hempty. intros p Hp.
  destruct (isNull (get newdata p) || isUndefined (get newdata p)) eqn:E;
    auto.
  right.
  pose proof (paths_end_at_leaves newdata Hwf p Hp) as Hend.
  assert (Hwfp : forall (q : path) (x : value),
            well_formed x = true -> well_formed (get x q) = true).
  { induction q as [|k q IHq]; intros x Hx; simpl; auto.
    destruct x; auto. simpl in Hx. apply andb_true_iff in Hx.
    destruct Hx as [_ Hx]. rewrite forallb_forall in Hx.
    destruct (lookup k fields) as [y|] eqn:El; auto.
    apply IHq. apply lookup_In in El. apply (Hx (k, y) El). }
  apply isEqual_refl. now apply Hwfp.
Qed.

Lemma mk_update_set_nothing_new_witness :
  let present := VObj [("_id", VOid 0); ("type", VStr "koji-build");
                       ("aid", VStr "42"); ("_version", VNum 7);
                       ("rpm_build", VObj [("nvr", VStr "pkg-1.0-1.fc33");
                                           ("scratch", VBool false)])] in
  let newdata := VObj [("type", VStr "koji-build");
                       ("rpm_build", VObj [("nvr", VStr "pkg-1.0-1.fc33");
                                           ("source", VUndefined)])] in
  well_formed newdata = true
  /\ Db.mk_update_set present newdata = [].
Proof.
  intros present newdata. split; [reflexivity|].
  refine (proj1 (@mk_update_set_nothing_new present newdata _ _)).
  - reflexivity.
  - intros p Hp. simpl in Hp.
    destruct Hp as [<-|[<-|[<-|[]]]]; vm_compute; auto.
Defined.

(* ===================================================================== *)
(** * Further properties: [findOrCreate]                                  *)
(* ===================================================================== *)

Lemma find_app_None {A : Type} (f : A -> bool) (l l' : list A) :
  find f l = None -> find f (l ++ l') = find f l'.
Proof.
  induction l as [|x l IH]; simpl; auto.
  destruct (f x); [discriminate|auto].
Qed.

Lemma matches_type_aid (t a : string) (d : value) :
  Db.matches [("type", VStr t); ("aid", VStr a)] d = true
  <-> type_aid d = (VStr t, VStr a).
Proof.
  unfold Db.matches, type_aid. cbn [forallb fst snd]. split.
  - intros H. apply andb_true_iff in H. destruct H as [H1 H2].
    apply andb_true_iff in H2. destruct H2 as [H2 _].
    apply isEqual_VStr in H1, H2. f_equal; [exact H1 | exact H2].
  - intros [= H1 H2].
    apply andb_true_iff. split; [now apply isEqual_VStr|].
    apply andb_true_iff. split; [now apply isEqual_VStr | reflexivity].
Qed.

(** X11.  One document for one build.  [findOrCreate] asked for a type and
    an aid leaves every document of the collection in place, and afterwards
    the collection has a document with that type and aid, which a second
    call finds: the second call returns what the first returned and changes
    nothing.  If no two documents had the same type and aid before the
    call, no two have afterwards. *)
Theorem findOrCreate_one_document_per_build
  (db_artifact_valid : value -> bool) (t a : string) (c : Db.collection) :
  let r := Db.findOrCreate db_artifact_valid (VStr t) (VStr a) c in
  Db.findOrCreate db_artifact_valid (VStr t) (VStr a) (snd r) = r
  /\ (exists d,
        Db.findOne [("type", VStr t); ("aid", VStr a)] (snd r) = Some d
        /\ type_aid d = (VStr t, VStr a)
        /\ fst r = (if db_artifact_valid d then Ok d
                    else Throw (ValidationError "db_artifact")))
  /\ (exists added, Db.docs (snd r) = Db.docs c ++ added
                    /\ (List.length added <= 1)%nat)
  /\ (NoDup (map type_aid (Db.docs c)) ->
      NoDup (map type_aid (Db.docs (snd r)))).
Proof.
  intros r. subst r. unfold Db.findOrCreate.
  destruct (Db.findOne [("type", VStr t); ("aid", VStr a)] c) as [d|] eqn:Ef.
  - (* a document matches *)
    assert (Hs : snd (if db_artifact_valid d then (Ok d, c)
                      else (Throw (ValidationError "db_artifact"), c)) = c)
      by now destruct (db_artifact_valid d).
    rewrite Hs, Ef. split; [reflexivity|]. split; [|split].
    + exists d. split; [reflexivity|]. split.
      * unfold Db.findOne in Ef. apply find_some in Ef.
        now apply matches_type_aid.
      * now destruct (db_artifact_valid d).
    + exists []. rewrite app_nil_r. auto.
    + auto.
  - (* no document matches *)
    set (d := VObj [("_id", VOid (Db.next_id c)); ("type", VStr t);
                    ("aid", VStr a); ("_version", VNum 1)]).
    set (c' := {| Db.docs := Db.docs c ++ [d];
                  Db.next_id := S (Db.next_id c) |}).
    assert (Hs : snd (if db_artifact_valid d then (Ok d, c')
                      else (Throw (ValidationError "db_artifact"), c')) = c')
      by now destruct (db_artifact_valid d).
    assert (Hd : Db.matches [("type", VStr t); ("aid", VStr a)] d = true).
    { apply matches_type_aid. reflexivity. }
    assert (Ef' : Db.findOne [("type", VStr t); ("aid", VStr a)] c' = Some d).
    { unfold Db.findOne in *. unfold c'. cbn [Db.docs].
      rewrite (find_app_None _ _ _ Ef). cbn [find]. now rewrite Hd. }
    rewrite Hs, Ef'. split; [reflexivity|]. split; [|split].
    + exists d. split; [reflexivity|]. split; [reflexivity|].
      now destruct (db_artifact_valid d).
    + exists [d]. auto.
    + intros Hnd. simpl. rewrite map_app. apply NoDup_app; auto.
      * repeat constructor. simpl. tauto.
      * intros k Hk [<-|[]]. apply in_map_iff in Hk.
        destruct Hk as [x [Ex Hx]].
        unfold Db.findOne in Ef.
        apply (find_none _ _ Ef) in Hx.
        apply matches_type_aid in Ex. congruence.
Qed.

(* ===================================================================== *)
(** * Further properties: the tag handler                                 *)
(* ===================================================================== *)

Lemma get_assign_field_two (k k2 : string) (v : value)
  (fields : list (string * value)) :
  get (DbMsgHandlers.assign_field k v (VObj fields)) [k; k2] = get v [k2].
Proof.
  unfold DbMsgHandlers.assign_field. cbn [get].
  now rewrite lookup_set_field_eq.
Qed.

(** A field of the source that is a boolean, a number or [null] is the
    field of the merged record. *)
Lemma mergeWith_field (object : value) (source : list (string * value))
  (k : string) (nv : value) :
  object = VUndefined \/ (exists r, object = VObj r) ->
  NoDup (keys source) ->
  lookup k source = Some nv ->
  match nv with VBool _ | VNum _ | VNull => True | _ => False end ->
  get (Merge.mergeWith object source) [k] = nv.
Proof.
  intros Hobj Hnd Hk Hnv.
  assert (Hm : forall o, Merge.mergeValue o nv = nv).
  { intros o. destruct nv; try contradiction; destruct o; reflexivity. }
  destruct Hobj as [-> | [r ->]]; unfold Merge.mergeWith;
    rewrite (@get_merge_fields k nv source _ Hnd Hk); apply Hm.
Qed.

(** X12.  What [handler_buildsys_tag] proposes.  A tag handler that returns
    has found the hub of its artifact type, has been given the build by the
    hub, and has found or created the document of the build's task; it
    proposes that document with [rpm_build] merged and nothing else changed:
    every other field, the history of states among them, is as stored.
    When the stored [rpm_build] is missing or an object, the proposal's
    [rpm_build.scratch] is [false]. *)
Theorem handler_buildsys_tag_frame
  (db_artifact_valid : value -> bool)
  (koji_getBuild : string -> value -> result value)
  (atype_to_hub_map : string -> option string)
  (type : string) (artifacts artifacts' : Db.collection)
  (m : FileQueueMessage) (doc : value) :
  DbMsgHandlers.handler_buildsys_tag db_artifact_valid koji_getBuild
    atype_to_hub_map type artifacts m = (Ok doc, artifacts') ->
  exists hub_name buildInfo stored,
    atype_to_hub_map type = Some hub_name
    /\ koji_getBuild hub_name (get (body m) ["build_id"]) = Ok buildInfo
    /\ Db.findOrCreate db_artifact_valid (VStr type)
         (VStr (Str.toString (get buildInfo ["task_id"]))) artifacts
       = (Ok stored, artifacts')
    /\ (forall k, k <> "rpm_build" -> get doc [k] = get stored [k])
    /\ states_of_doc doc = states_of_doc stored
    /\ (forall fields,
          stored = VObj fields ->
          lookup "rpm_build" fields = None
          \/ (exists r, lookup "rpm_build" fields = Some (VObj r)) ->
          get doc ["rpm_build"; "scratch"] = VBool false).
Proof.
  unfold DbMsgHandlers.handler_buildsys_tag.
  destruct (atype_to_hub_map type) as [hub_name|]; [|discriminate].
  destruct (koji_getBuild hub_name (get (body m) ["build_id"]))
    as [buildInfo|e] eqn:Eb; [|discriminate].
  cbv zeta.
  destruct (Db.findOrCreate db_artifact_valid (VStr type)
              (VStr (Str.toString (get buildInfo ["task_id"]))) artifacts)
    as [[stored|e] c1] eqn:Ef; [|discriminate].
  intros H. inversion H; subst. clear H.
  exists hub_name, buildInfo, stored.
  split; [reflexivity|]. split; [exact Eb|]. split; [exact Ef|].
  assert (Hframe : forall k v, k <> "rpm_build" ->
            get (DbMsgHandlers.assign_field "rpm_build" v stored) [k]
            = get stored [k]).
  { intros k v Hk. destruct stored; try reflexivity.
    now apply get_assign_field_ne. }
  split; [|split].
  - intros k Hk. now apply Hframe.
  - unfold states_of_doc. rewrite Hframe by discriminate. reflexivity.
  - intros fields -> Hrpm.
    rewrite get_assign_field_two. apply mergeWith_field.
    + cbn [get]. destruct Hrpm as [-> | [r ->]]; eauto.
    + apply nodupb_NoDup. reflexivity.
    + reflexivity.
    + reflexivity.
Qed.

Lemma handler_buildsys_tag_frame_witness :
  exists doc c',
    DbMsgHandlers.handler_buildsys_tag Scenario.accept_document build_found
      one_hub "koji-build" Scenario.empty_collection tag_envelope
    = (Ok doc, c')
    /\ states_of_doc doc = []
    /\ get doc ["rpm_build"; "scratch"] = VBool false.
Proof.
  do 2 eexists. split; [vm_compute; reflexivity|].
  destruct (@handler_buildsys_tag_frame Scenario.accept_document build_found
              one_hub "koji-build" Scenario.empty_collection _ tag_envelope _
              eq_refl)
    as [hub_name [buildInfo [stored [_ [E2 [E3 [_ [F2 F3]]]]]]]].
  inversion E2; subst buildInfo. vm_compute in E3.
  inversion E3; subst stored. split.
  - exact F2.
  - apply (F3 _ eq_refl). left. reflexivity.
Defined.

(* ===================================================================== *)
(** * Further properties: the derived fields                              *)
(* ===================================================================== *)

Section UniqFacts.

Variable B : Type.
Variable eqb : B -> B -> bool.
Hypothesis eqb_eq : forall x y, eqb x y = true <-> x = y.

Lemma In_uniq_by (l : list B) (x : B) :
  In x (DbMsgHandlers.uniq eqb l) <-> In x l.
Proof.
  induction l as [|a l IH]; simpl; [tauto|].
  rewrite filter_In, IH. split.
  - intros [H|[H _]]; auto.
  - intros [H|H]; auto.
    destruct (eqb a x) eqn:E.
    + left. now apply eqb_eq.
    + right. auto.
Qed.

Lemma NoDup_uniq_by (l : list B) : NoDup (DbMsgHandlers.uniq eqb l).
Proof.
  induction l as [|a l IH]; simpl; constructor.
  - intros H. apply filter_In in H. destruct H as [_ H].
    assert (eqb a a = true) by now apply eqb_eq.
    rewrite H0 in H. discriminate.
  - now apply NoDup_filter.
Qed.

End UniqFacts.

Lemma option_string_eqb_eq (x y : option string) :
  DbMsgHandlers.option_string_eqb x y = true <-> x = y.
Proof.
  destruct x as [x|], y as [y|]; simpl; try (split; congruence).
  rewrite String.eqb_eq. split; congruence.
Qed.

Lemma NoDup_flat_map {B C : Type} (g : B -> list C) (l : list B) :
  NoDup l ->
  (forall x, NoDup (g x)) ->
  (forall x y t, In t (g x) -> In t (g y) -> x = y) ->
  NoDup (flat_map g l).
Proof.
  intros Hnd Hg Hinj. induction Hnd as [|a l Ha Hl IH]; simpl.
  - constructor.
  - apply NoDup_app; auto.
    intros t Ht1 Ht2. apply in_flat_map in Ht2.
    destruct Ht2 as [y [Hy Hty]].
    assert (a = y) by (eapply Hinj; eauto). subst y. contradiction.
Qed.

(** The test case names, whatever the entries are. *)
Lemma resultsdb_testcase_facts
  (A : Type) (test_case_name_of : A -> option string) (states : list A) :
  (forall t,
     In t (DbMsgHandlers.resultsdb_testcase test_case_name_of states)
     <-> t <> "" /\ exists e, In e states /\ test_case_name_of e = Some t)
  /\ NoDup (DbMsgHandlers.resultsdb_testcase test_case_name_of states).
Proof.
  unfold DbMsgHandlers.resultsdb_testcase. split.
  - intros t. rewrite in_flat_map. split.
    + intros [o [Ho Ht]].
      apply (proj1 (@In_uniq_by _ _ option_string_eqb_eq _ _)) in Ho.
      apply in_map_iff in Ho. destruct Ho as [e [Ee He]].
      destruct o as [s|]; [|contradiction].
      destruct (String.eqb s "") eqn:Es; [contradiction|].
      destruct Ht as [<-|[]]. apply String.eqb_neq in Es. eauto.
    + intros [Hne [e [He Ee]]]. exists (Some t). split.
      * apply (proj2 (@In_uniq_by _ _ option_string_eqb_eq _ _)).
        rewrite <- Ee. now apply in_map.
      * apply String.eqb_neq in Hne. rewrite Hne. simpl. auto.
  - apply NoDup_flat_map.
    + apply (@NoDup_uniq_by _ _ option_string_eqb_eq).
    + intros [s|]; [|constructor].
      destruct (String.eqb s ""); repeat constructor. simpl. tauto.
    + intros [x|] [y|] t Hx Hy; try contradiction.
      destruct (String.eqb x ""); [contradiction|].
      destruct (String.eqb y ""); [contradiction|].
      destruct Hx as [<-|[]]. destruct Hy as [<-|[]]. reflexivity.
Qed.

(** X13.  The test case names of a document.  After a refresh of a document
    whose [states] is an array, none of the states having an array or an
    object for its [kai_state.test_case_name] (which [_.isEmpty] would keep
    when it has elements), the stored [resultsdb_testcase] is an array of
    strings: the test case names that some state carries and that are not
    empty, each once. *)
Theorem resultsdb_testcase_distinct_names
  (fields : list (string * value)) (states : list value) :
  get (VObj fields) ["states"] = VArr states ->
  forallb test_case_name_is_plain states = true ->
  let doc := DbMsgHandlers.actualize_current_states (VObj fields) in
  exists names : list string,
    get doc ["resultsdb_testcase"] = VArr (map VStr names)
    /\ NoDup names
    /\ forall t,
         In t names
         <-> t <> ""
             /\ exists e,
                  In e states
                  /\ get_str e "kai_state.test_case_name" = VStr t.
Proof.
  intros Hstates _ doc.
  assert (Es : states = states_of_doc (VObj fields))
    by (unfold states_of_doc; now rewrite Hstates).
  clear Hstates. subst states.
  set (states := states_of_doc (VObj fields)) in *.
  destruct (resultsdb_testcase_facts DbMsgHandlers.doc_test_case_name states)
    as [Hin Hnd].
  exists (DbMsgHandlers.resultsdb_testcase DbMsgHandlers.doc_test_case_name
            states).
  split; [apply actualize_resultsdb_testcase|]. split; [exact Hnd|].
  intros t. rewrite Hin.
  assert (Hread : forall e,
            DbMsgHandlers.doc_test_case_name e = Some t
            <-> get_str e "kai_state.test_case_name" = VStr t).
  { intros e. unfold DbMsgHandlers.doc_test_case_name.
    destruct (get_str e "kai_state.test_case_name");
      split; intros H; try discriminate; inversion H; reflexivity. }
  split; intros [Hne [e [He H]]]; (split; [exact Hne|]); exists e;
    (split; [exact He|]); now apply Hread.
Qed.

(** Two states of one test case and a state without a name. *)
Lemma resultsdb_testcase_distinct_names_witness :
  let named :=
    DbMsgHandlers.state_to_value queued_state in
  let fields :=
    [("states",
      VArr [named; named;
            DbMsgHandlers.state_to_value
              (a_state "PIPE-2" "running" 1640995200000)])] in
  let doc := DbMsgHandlers.actualize_current_states (VObj fields) in
  exists names : list string,
    get doc ["resultsdb_testcase"] = VArr (map VStr names)
    /\ NoDup names
    /\ In "x.y.z" names.
Proof.
  intros named fields doc.
  destruct (@resultsdb_testcase_distinct_names fields _ eq_refl eq_refl)
    as [names [Hr [Hnd Hin]]].
  exists names. split; [exact Hr|]. split; [exact Hnd|].
  apply Hin. split; [discriminate|].
  exists named. split; [left; reflexivity | reflexivity].
Defined.

Section LengthFacts.

Import DbMsgHandlers.

Variable A : Type.






End LengthFacts.




Lemma set_field_same {B : Type} (k : string) (v : B)
  (f : list (string * B)) :
  lookup k f = Some v -> set_field k v f = f.
Proof.
  induction f as [|[k' v'] f IH]; simpl; [discriminate|].
  destruct (String.eqb k k') eqn:E.
  - intros [= ->]. reflexivity.
  - intros H. now rewrite IH.
Qed.

(** X15.  The refresh is a function of the history.  [actualize_current_states]
    leaves every field of the document but [current_state],
    [current_state_lenghts] and [resultsdb_testcase] as it is, the history
    of states among them; a second refresh changes nothing. *)
Theorem actualize_current_states_idempotent (db_artifact : value) :
  DbMsgHandlers.actualize_current_states
    (DbMsgHandlers.actualize_current_states db_artifact)
  = DbMsgHandlers.actualize_current_states db_artifact
  /\ states_of_doc (DbMsgHandlers.actualize_current_states db_artifact)
     = states_of_doc db_artifact
  /\ forall k,
       k <> "current_state" -> k <> "current_state_lenghts" ->
       k <> "resultsdb_testcase" ->
       get (DbMsgHandlers.actualize_current_states db_artifact) [k]
       = get db_artifact [k].
Proof.
  destruct db_artifact as [| | | | | | | |fields];
    try (repeat split; reflexivity).
  assert (Hframe : forall k,
            k <> "current_state" -> k <> "current_state_lenghts" ->
            k <> "resultsdb_testcase" ->
            get (DbMsgHandlers.actualize_current_states (VObj fields)) [k]
            = get (VObj fields) [k])
    by (intros; now apply actualize_current_states_frame).
  assert (Hstates : get (DbMsgHandlers.actualize_current_states (VObj fields))
                        ["states"]
                    = get (VObj fields) ["states"])
    by (apply Hframe; discriminate).
  split; [|split; [|exact Hframe]].
  - unfold DbMsgHandlers.actualize_current_states at 1. cbv zeta.
    rewrite Hstates.
    unfold DbMsgHandlers.actualize_current_states. cbv zeta.
    rewrite !assign_field_object. f_equal.
    rewrite (@set_field_same _ "current_state").
    + rewrite (@set_field_same _ "current_state_lenghts").
      * rewrite (@set_field_same _ "resultsdb_testcase"); auto.
        now rewrite lookup_set_field_eq.
      * rewrite lookup_set_field_ne by discriminate.
        now rewrite lookup_set_field_eq.
    + rewrite lookup_set_field_ne by discriminate.
      rewrite lookup_set_field_ne by discriminate.
      now rewrite lookup_set_field_eq.
  - unfold states_of_doc. now rewrite Hstates.
Qed.

(* ===================================================================== *)
(** * Further properties: the collection classes                          *)
(* ===================================================================== *)

Section IndexFacts.

Import Collections.

Variable name_of_keys : value -> string.

(** [cfg_indexes] drops, then creates. *)
Lemma cfg_indexes_eq (cfg_collections_indexes : string -> list IndexConfig)
  (this : DBCollection) (indexes_active : list string) :
  cfg_indexes cfg_collections_indexes this indexes_active
  = map dropIndex
        (filter (fun name =>
                   negb (kept_name (cfg_collections_indexes (cfg_entry this))
                                   name))
                indexes_active)
    ++ map createIndex
           (filter (fun index => negb (index_present indexes_active index))
                   (cfg_collections_indexes (cfg_entry this))).
Proof.
  unfold cfg_indexes. cbv zeta. fold (kept_name (cfg_collections_indexes (cfg_entry this))).
  destruct indexes_active as [|a active];
    destruct (cfg_collections_indexes (cfg_entry this)) as [|i config];
    cbn [List.length Nat.eqb filter map app];
    rewrite ?app_nil_r; reflexivity.
Qed.

Lemma server_indexes_app (names : list string) (a b : list index_action) :
  server_indexes name_of_keys names (a ++ b)
  = server_indexes name_of_keys (server_indexes name_of_keys names a) b.
Proof. apply fold_left_app. Qed.

Lemma In_after_drops (dropped : list string) :
  forall names n,
    In n (server_indexes name_of_keys names (map dropIndex dropped))
    <-> In n names /\ ~ In n dropped.
Proof.
  unfold server_indexes.
  induction dropped as [|d dropped IH]; intros names n; simpl.
  - tauto.
  - rewrite IH, filter_In, negb_true_iff, String.eqb_neq. 
    split; [intros [[H1 H2] H3] | intros [H1 H2]]; repeat split; auto.
    intros [E|E]; auto.
Qed.

Lemma In_after_creates (created : list IndexConfig) :
  forall names n,
    In n (server_indexes name_of_keys names (map createIndex created))
    <-> In n names
        \/ exists index, In index created /\ index_name name_of_keys index = n.
Proof.
  unfold server_indexes.
  induction created as [|i created IH]; intros names n; simpl.
  - split; [auto | intros [H|[x [[] _]]]; auto].
  - rewrite IH.
    destruct (existsb (String.eqb (index_name name_of_keys i)) names) eqn:E.
    + split.
      * intros [H|[x [Hx Ex]]]; eauto.
      * intros [H|[x [[<-|Hx] Ex]]]; eauto.
        left. apply existsb_exists in E. destruct E as [y [Hy Ey]].
        apply String.eqb_eq in Ey. congruence.
    + rewrite in_app_iff. simpl. split.
      * intros [[H|[H|[]]]|[x [Hx Ex]]]; eauto.
      * intros [H|[x [[<-|Hx] Ex]]]; eauto.
Qed.

Lemma kept_name_iff (indexes_config : list IndexConfig) (n : string) :
  kept_name indexes_config n = true
  <-> n = "_id_"
      \/ exists index, In index indexes_config
                       /\ index_options_name index = Some n.
Proof.
  unfold kept_name. rewrite existsb_exists. split.
  - intros [[k|] [Hin Hk]]; [|discriminate].
    apply String.eqb_eq in Hk. subst k.
    simpl in Hin. destruct Hin as [[= <-]|Hin]; auto.
    apply in_map_iff in Hin. destruct Hin as [index [E Hi]]. eauto.
  - intros [->|[index [Hi E]]].
    + exists (Some "_id_"). split; simpl; auto.
    + exists (Some n). split; [|apply String.eqb_refl].
      simpl. right. rewrite <- E. now apply in_map.
Qed.

Lemma index_present_iff (indexes_active : list string) (index : IndexConfig) :
  index_present indexes_active index = true
  <-> exists n, index_options_name index = Some n /\ In n indexes_active.
Proof.
  unfold index_present.
  destruct (index_options_name index) as [n|].
  - rewrite existsb_exists. split.
    + intros [a [Ha E]]. apply String.eqb_eq in E. subst. eauto.
    + intros [m [[= <-] Hm]]. exists n. split; auto. apply String.eqb_refl.
  - split; [discriminate | intros [n [E _]]; discriminate].
Qed.

Lemma index_name_named (index : IndexConfig) (n : string) :
  index_options_name index = Some n -> index_name name_of_keys index = n.
Proof. unfold index_name. now intros ->. Qed.

End IndexFacts.

(** X16.  The indexes after [cfg_indexes].  The index [_id_] is never
    dropped.  Once the collection has done what it was asked, its indexes
    are those of the configuration, under their names, and [_id_] if it was
    there; every other index is gone.  When every configured index has a
    name, a second [cfg_indexes] asks for nothing. *)
Theorem cfg_indexes_reconciles
  (cfg_collections_indexes : string -> list Collections.IndexConfig)
  (name_of_keys : value -> string)
  (this : Collections.DBCollection) (indexes_active : list string) :
  let indexes_config :=
    cfg_collections_indexes (Collections.cfg_entry this) in
  let asked :=
    Collections.cfg_indexes cfg_collections_indexes this indexes_active in
  let after :=
    Collections.server_indexes name_of_keys indexes_active asked in
  ~ In (Collections.dropIndex "_id_") asked
  /\ (forall n,
        In n after
        <-> (n = "_id_" /\ In "_id_" indexes_active)
            \/ exists index,
                 In index indexes_config
                 /\ Collections.index_name name_of_keys index = n)
  /\ ((forall index, In index indexes_config ->
                     Collections.index_options_name index <> None) ->
      Collections.cfg_indexes cfg_collections_indexes this after = []).
Proof.
  intros indexes_config asked after.
  assert (Hafter : forall n,
            In n after
            <-> (n = "_id_" /\ In "_id_" indexes_active)
                \/ exists index,
                     In index indexes_config
                     /\ Collections.index_name name_of_keys index = n).
  { intros n. subst after asked. rewrite cfg_indexes_eq.
    fold indexes_config. rewrite server_indexes_app.
    rewrite In_after_creates, In_after_drops. split.
    - intros [[Hin Hkept]|[index [Hi En]]].
      + assert (Hk : kept_name indexes_config n = true).
        { destruct (kept_name indexes_config n) eqn:E; auto.
          exfalso. apply Hkept. apply filter_In. rewrite E. auto. }
        apply kept_name_iff in Hk. destruct Hk as [->|[index [Hi En]]]; auto.
        right. exists index. split; auto. now apply index_name_named.
      + apply filter_In in Hi. destruct Hi as [Hi _]. eauto.
    - intros [[-> Hin]|[index [Hi En]]].
      + left. split; auto. intros H. apply filter_In in H.
        destruct H as [_ H]. discriminate.
      + destruct (index_present indexes_active index) eqn:Ep.
        * apply index_present_iff in Ep. destruct Ep as [m [Em Hm]].
          rewrite (index_name_named name_of_keys _ Em) in En. subst m.
          left. split; auto. intros H. apply filter_In in H.
          destruct H as [_ H]. apply negb_true_iff in H.
          assert (kept_name indexes_config n = true)
            by (apply kept_name_iff; eauto).
          congruence.
        * right. exists index. split; auto. apply filter_In.
          rewrite Ep. split; [exact Hi | reflexivity]. }
  split; [|split; [exact Hafter|]].
  - subst asked. rewrite cfg_indexes_eq. intros H.
    apply in_app_iff in H. destruct H as [H|H].
    + apply in_map_iff in H. destruct H as [n [[= ->] H]].
      apply filter_In in H. destruct H as [_ H]. discriminate.
    + apply in_map_iff in H. destruct H as [i [E _]]. discriminate.
  - intros Hnamed. rewrite cfg_indexes_eq. fold indexes_config.
    rewrite !filter_none; auto.
    + intros index Hi. apply negb_false_iff. apply index_present_iff.
      destruct (Collections.index_options_name index) as [n|] eqn:En.
      * exists n. split; auto. apply Hafter. right. exists index.
        split; auto. now apply index_name_named.
      * exfalso. now apply (Hnamed index Hi).
    + intros n Hn. apply negb_false_iff. apply kept_name_iff.
      apply Hafter in Hn. destruct Hn as [[-> _]|[index [Hi En]]]; auto.
      right. exists index. split; auto.
      destruct (Collections.index_options_name index) as [m|] eqn:Em.
      * rewrite (index_name_named name_of_keys _ Em) in En. now subst.
      * exfalso. now apply (Hnamed index Hi).
Qed.

(** X17.  What [get_collection] makes of its arguments.  It constructs an
    object for the three names [artifacts], [invalid] and [no_handler] and
    for no other.  Each of the three subclasses hands its [url] and
    [collection_name] to the base constructor in the other order: the
    object's [url] is the [collection_name] argument and its
    [collection_name] is the [url] argument, each replaced by the configured
    value when it is missing or empty.  Called with the name alone, the
    object has the configured url, collection name and database name. *)
Theorem get_collection_arguments
  (cfg_db_url cfg_db_name : string) (cfg_collections_name : string -> string)
  (name : string) (url collection_name db_name : option string)
  (c : Collections.DBCollection) :
  Collections.get_collection cfg_db_url cfg_db_name cfg_collections_name
    name url collection_name db_name = Ok c ->
  In name ["artifacts"; "invalid"; "no_handler"]
  /\ Collections.cfg_entry c = name
  /\ Collections.url c = Collections.or_else collection_name cfg_db_url
  /\ Collections.collection_name c
     = Collections.or_else url (cfg_collections_name name)
  /\ Collections.db_name c = Collections.or_else db_name cfg_db_name
  /\ (forall u n, url = Some u -> collection_name = Some n ->
                  u <> "" -> n <> "" ->
                  Collections.url c = n /\ Collections.collection_name c = u)
  /\ (url = None -> collection_name = None -> db_name = None ->
      Collections.url c = cfg_db_url
      /\ Collections.collection_name c = cfg_collections_name name
      /\ Collections.db_name c = cfg_db_name).
Proof.
  unfold Collections.get_collection.
  assert (Hor : forall x d, x <> "" -> Collections.or_else (Some x) d = x).
  { intros x d Hx. unfold Collections.or_else.
    apply String.eqb_neq in Hx. now rewrite Hx. }
  destruct (String.eqb name "artifacts") eqn:E1;
    [|destruct (String.eqb name "invalid") eqn:E2;
      [|destruct (String.eqb name "no_handler") eqn:E3; [|discriminate]]];
    intros [= <-];
    match goal with
    | H : String.eqb name _ = true |- _ => apply String.eqb_eq in H; subst name
    end;
    (split; [simpl; tauto|]);
    (split; [reflexivity|]); (split; [reflexivity|]);
    (split; [reflexivity|]); (split; [reflexivity|]);
    (split;
     [ intros u n -> -> Hu Hn; simpl; split; now apply Hor
     | intros -> -> ->; repeat split ]).
Qed.

Lemma get_collection_arguments_witness :
  let c := {| Collections.cfg_entry := "invalid";
              Collections.collection_name := "mongodb://db.example:27017";
              Collections.url := "rejected";
              Collections.db_name := "ci" |} in
  Collections.get_collection "mongodb://localhost" "ci"
    (fun entry => entry) "invalid"
    (Some "mongodb://db.example:27017") (Some "rejected") None = Ok c
  /\ Collections.url c = "rejected"
  /\ Collections.collection_name c = "mongodb://db.example:27017".
Proof.
  intros c. split; [reflexivity|].
  refine (proj1 (proj2 (proj2 (proj2 (proj2 (proj2
    (@get_collection_arguments "mongodb://localhost" "ci" (fun entry => entry)
       "invalid" (Some "mongodb://db.example:27017") (Some "rejected") None
       c eq_refl)))))) _ _ eq_refl eq_refl _ _); discriminate.
Defined.

(* ===================================================================== *)
(** * Further properties: the receiver links of the listener              *)
(* ===================================================================== *)

Section LinkFacts.

Import Listener.

Lemma has_char_app (c : ascii) (a b : string) :
  has_char c (a ++ b)%string = has_char c a || has_char c b.
Proof.
  induction a as [|x a IH]; simpl; auto.
  rewrite IH. now rewrite orb_assoc.
Qed.

Lemma indexOf_app_char (c : ascii) (a b : string) :
  has_char c a = false ->
  indexOf c (a ++ String c b)%string = Some (String.length a).
Proof.
  induction a as [|x a IH]; simpl.
  - now rewrite Ascii.eqb_refl.
  - intros H. apply orb_false_iff in H. destruct H as [Hx Ha].
    rewrite Hx, (IH Ha). reflexivity.
Qed.

Lemma substring_prefix (a b : string) :
  String.substring 0 (String.length a) (a ++ b)%string = a.
Proof.
  induction a as [|x a IH]; simpl.
  - now destruct b.
  - now rewrite IH.
Qed.

Lemma append_inj_l (p a b : string) :
  (p ++ a)%string = (p ++ b)%string -> a = b.
Proof. induction p as [|x p IH]; simpl; [auto | intros [= H]; auto]. Qed.

Lemma NoDup_map_inj {B C : Type} (f : B -> C) (l : list B) :
  (forall x y, f x = f y -> x = y) -> NoDup l -> NoDup (map f l).
Proof.
  intros Hinj. induction 1 as [|x l Hx Hl IH]; simpl; constructor; auto.
  intros H. apply in_map_iff in H. destruct H as [y [E Hy]].
  apply Hinj in E. now subst.
Qed.

Variable client_name : string.
Variable subscription_id : string.
Variable prefetch : Z.

Lemma queue_name_of_address (topic : string) :
  has_char "?" (receiver_address client_name subscription_id topic) = false ->
  queue_name_of
    {| source_address :=
         activemq_address client_name subscription_id prefetch topic |}
  = receiver_address client_name subscription_id topic.
Proof.
  intros Hq. unfold queue_name_of, activemq_address. cbn [source_address].
  rewrite append_assoc.
  change ("?consumer.prefetchSize=" ++ Str.of_Z prefetch)%string
    with (String "?" ("consumer.prefetchSize=" ++ Str.of_Z prefetch)).
  cbn [String.append].
  rewrite indexOf_app_char by exact Hq. apply substring_prefix.
Qed.

Lemma create_links_eq (topics_cfg : list string)
  (createReceiver_resolves : string -> bool) (links : list Receiver) :
  create_links client_name subscription_id prefetch topics_cfg
    createReceiver_resolves links
  = links
    ++ map (fun topic =>
              {| source_address :=
                   activemq_address client_name subscription_id prefetch
                     topic |})
           (filter (fun topic =>
                      createReceiver_resolves
                        (activemq_address client_name subscription_id
                           prefetch topic))
                   (DbMsgHandlers.uniq String.eqb topics_cfg)).
Proof.
  unfold create_links. cbv zeta.
  revert links.
  induction (DbMsgHandlers.uniq String.eqb topics_cfg) as [|t ts IH];
    intros links; simpl.
  - now rewrite app_nil_r.
  - rewrite IH.
    destruct (createReceiver_resolves _); simpl; auto.
    now rewrite <- app_assoc.
Qed.

Lemma close_all_links_open (isOpen close_returns : Receiver -> bool)
  (links : list Receiver) :
  fst (fst (close_all_links isOpen close_returns links)) = Ok tt ->
  snd (fst (close_all_links isOpen close_returns links))
  = filter (fun l => negb (isOpen l)) links
  /\ snd (close_all_links isOpen close_returns links)
     = map queue_name_of (filter isOpen links).
Proof.
  induction links as [|l links IH]; simpl; auto.
  destruct (isOpen l) eqn:Eo; simpl.
  - destruct (close_returns l); [|discriminate].
    destruct (close_all_links isOpen close_returns links) as [[r rem] cl].
    simpl in *. intros Hr. destruct (IH Hr) as [-> ->]. auto.
  - destruct (close_all_links isOpen close_returns links) as [[r rem] cl].
    simpl in *. intros Hr. destruct (IH Hr) as [-> ->]. auto.
Qed.

End LinkFacts.

(** X18.  The links and their queue names.  When neither the client name,
    nor the subscription id, nor any configured topic has a question mark,
    the queue name [close_all_links] makes of a link that [create_links]
    created is the address [Consumer.<client>.<subscription>.<topic>] the
    link was subscribed under; [create_links], starting from no link, makes
    one link for each distinct topic whose receiver could be created, and
    their queue names are distinct.  A [close_all_links] that returns has
    set out to close the open links, in order, and has left in the set the
    links that were not open. *)
Theorem links_and_queue_names
  (client_name subscription_id : string) (prefetch : Z)
  (topics_cfg : list string) (createReceiver_resolves : string -> bool) :
  has_char "?" client_name = false ->
  has_char "?" subscription_id = false ->
  (forall topic, In topic topics_cfg -> has_char "?" topic = false) ->
  let links :=
    Listener.create_links client_name subscription_id prefetch topics_cfg
      createReceiver_resolves [] in
  map Listener.queue_name_of links
  = map (Listener.receiver_address client_name subscription_id)
        (filter (fun topic =>
                   createReceiver_resolves
                     (Listener.activemq_address client_name subscription_id
                        prefetch topic))
                (DbMsgHandlers.uniq String.eqb topics_cfg))
  /\ NoDup (map Listener.queue_name_of links)
  /\ forall isOpen close_returns,
       fst (fst (Listener.close_all_links isOpen close_returns links)) = Ok tt ->
       snd (fst (Listener.close_all_links isOpen close_returns links))
       = filter (fun l => negb (isOpen l)) links
       /\ snd (Listener.close_all_links isOpen close_returns links)
          = map Listener.queue_name_of (filter isOpen links).
Proof.
  intros Hc Hs Ht links.
  assert (Hnames :
            map Listener.queue_name_of links
            = map (Listener.receiver_address client_name subscription_id)
                  (filter (fun topic =>
                             createReceiver_resolves
                               (Listener.activemq_address client_name
                                  subscription_id prefetch topic))
                          (DbMsgHandlers.uniq String.eqb topics_cfg))).
  { subst links. rewrite create_links_eq. cbn [app].
    rewrite map_map. apply map_ext_in. intros topic Hin.
    apply queue_name_of_address.
    apply filter_In in Hin. destruct Hin as [Hin _].
    apply (proj1 (In_uniq _ _)) in Hin.
    unfold Listener.receiver_address.
    rewrite !has_char_app, Hc, Hs, (Ht topic Hin). reflexivity. }
  split; [exact Hnames|]. split.
  - rewrite Hnames. apply NoDup_map_inj.
    + intros x y E. unfold Listener.receiver_address in E.
      now repeat apply append_inj_l in E.
    + apply NoDup_filter. apply NoDup_uniq.
  - intros isOpen close_returns. apply close_all_links_open.
Qed.

Lemma links_and_queue_names_witness :
  map Listener.queue_name_of
      (Listener.create_links "kaijs" "sub-1" 10
         ["VirtualTopic.eng.brew.build.tag.>";
          "VirtualTopic.eng.ci.>";
          "VirtualTopic.eng.brew.build.tag.>"]
         (fun _ => true) [])
  = ["Consumer.kaijs.sub-1.VirtualTopic.eng.brew.build.tag.>";
     "Consumer.kaijs.sub-1.VirtualTopic.eng.ci.>"].
Proof.
  refine (eq_trans
    (proj1 (@links_and_queue_names "kaijs" "sub-1" 10
              ["VirtualTopic.eng.brew.build.tag.>";
               "VirtualTopic.eng.ci.>";
               "VirtualTopic.eng.brew.build.tag.>"]
              (fun _ => true) eq_refl eq_refl _)) eq_refl).
  intros topic [<-|[<-|[<-|[]]]]; reflexivity.
Defined.

(* ===================================================================== *)
(** * Further properties: the derived fields of a proposal                *)
(* ===================================================================== *)

(** X19.  A new state refreshes the derived fields.  When the envelope's
    message id is not in the stored history, the proposal of
    [handler_rpm_build_test_common] carries [current_state],
    [current_state_lenghts] and [resultsdb_testcase] computed from the
    proposal's own history, the new state included. *)
Theorem handler_refreshes_derived_fields
  (sha256_hex : string -> string) (Date_parse : value -> option Z)
  (kai_state_valid : KaiState -> bool) (db_artifact_valid : value -> bool)
  (artifacts artifacts' c1 : Db.collection) (m : FileQueueMessage)
  (fields : list (string * value)) (old : list value) (doc : value) :
  DbMsgHandlers.handler_rpm_build_test_common sha256_hex Date_parse
    kai_state_valid db_artifact_valid artifacts m = (Ok doc, artifacts') ->
  Db.findOrCreate db_artifact_valid
    (get (get (body m) ["artifact"]) ["type"])
    (VStr (Str.toString (get (get (body m) ["artifact"]) ["id"])))
    artifacts = (Ok (VObj fields), c1) ->
  (get (VObj fields) ["states"] = VArr old
   \/ (get (VObj fields) ["states"] = VUndefined /\ old = [])) ->
  ~ In (string_or_undefined (message_id m)) (msg_ids old) ->
  get doc ["current_state"]
  = VObj (map (fun kv => (fst kv, VArr (snd kv)))
              (DbMsgHandlers.current_state DbMsgHandlers.doc_thread_id
                 DbMsgHandlers.doc_timestamp DbMsgHandlers.doc_state
                 (states_of_doc doc)))
  /\ get doc ["current_state_lenghts"]
     = VObj (map (fun kv => (fst kv, VNum (Z.of_nat (snd kv))))
                 (DbMsgHandlers.current_state_lenghts
                    DbMsgHandlers.doc_thread_id DbMsgHandlers.doc_timestamp
                    DbMsgHandlers.doc_state (states_of_doc doc)))
  /\ get doc ["resultsdb_testcase"]
     = VArr (map VStr
               (DbMsgHandlers.resultsdb_testcase
                  DbMsgHandlers.doc_test_case_name (states_of_doc doc))).
Proof.
  intros Hh Hfind Hstates Hnew.
  destruct (handler_rpm_result _ _ _ _ _ _ Hh)
    as [stored [new_state [Hf [Hmk Hdoc]]]].
  rewrite Hfind in Hf. inversion Hf; subst stored c1. clear Hf.
  assert (Hs : (match get (VObj fields) ["states"] with
                | VUndefined | VNull | VNaN => VArr []
                | v => v
                end) = VArr old).
  { destruct Hstates as [E|[E ->]]; rewrite E; auto. }
  apply not_seen_not_In in Hnew.
  unfold rpm_proposal in Hdoc. cbv zeta in Hdoc. rewrite Hs in Hdoc.
  rewrite !assign_field_object in Hdoc. rewrite Hnew in Hdoc.
  cbn [negb] in Hdoc.
  set (history := set_field "states"
                    (VArr (old ++ [DbMsgHandlers.state_to_value new_state]))
                    (set_field "states" (VArr old) fields)) in *.
  destruct (actualize_current_states_object history) as [fields' Ef].
  pose proof (actualize_current_states_fields history) as [Hcs Hl].
  pose proof (actualize_resultsdb_testcase history) as Hr.
  pose proof (@actualize_current_states_frame history "states") as Hframe.
  rewrite Ef in Hdoc, Hcs, Hl, Hr, Hframe.
  rewrite assign_field_object in Hdoc.
  assert (Hd : states_of_doc doc = states_of_doc (VObj history)).
  { subst doc. unfold states_of_doc.
    rewrite <- assign_field_object.
    rewrite get_assign_field_ne by discriminate.
    now rewrite Hframe by discriminate. }
  rewrite Hd. subst doc.
  rewrite <- assign_field_object.
  rewrite !get_assign_field_ne by discriminate.
  auto.
Qed.

Lemma handler_refreshes_derived_fields_witness :
  let m := Scenario.queued_envelope 42 Scenario.with_pipeline in
  exists doc c' fields,
    DbMsgHandlers.handler_rpm_build_test_common Scenario.digest
      Scenario.parse_date Scenario.accept_kai_state Scenario.accept_document
      Scenario.empty_collection m = (Ok doc, c')
    /\ Db.findOrCreate Scenario.accept_document
         (get (get (body m) ["artifact"]) ["type"])
         (VStr (Str.toString (get (get (body m) ["artifact"]) ["id"])))
         Scenario.empty_collection = (Ok (VObj fields), c')
    /\ get (VObj fields) ["states"] = VUndefined
    /\ get doc ["resultsdb_testcase"]
       = VArr (map VStr
                 (DbMsgHandlers.resultsdb_testcase
                    DbMsgHandlers.doc_test_case_name (states_of_doc doc))).
Proof.
  intros m. do 3 eexists.
  split; [vm_compute; reflexivity|].
  split; [vm_compute; reflexivity|].
  split; [reflexivity|].
  refine (proj2 (proj2
    (@handler_refreshes_derived_fields Scenario.digest Scenario.parse_date
       Scenario.accept_kai_state Scenario.accept_document
       Scenario.empty_collection _ _ m _ [] _ _ _ _ _))).
  - vm_compute; reflexivity.
  - vm_compute; reflexivity.
  - right. split; reflexivity.
  - simpl. tauto.
Defined.

Lemma well_formed_get (p : path) :
  forall v, well_formed v = true -> well_formed (get v p) = true.
Proof.
  induction p as [|k p IH]; intros v Hv; simpl; auto.
  destruct v; auto. simpl in Hv. apply andb_true_iff in Hv.
  destruct Hv as [_ Hv]. rewrite forallb_forall in Hv.
  destruct (lookup k fields) as [y|] eqn:El; auto.
  apply IH. apply lookup_In in El. apply (Hv (k, y) El).
Qed.

Lemma paths_of_object_not_nil (fields : list (string * value)) (p : path) :
  In p (paths_mongodb_pack_array (VObj fields)) ->
  exists k rest, p = k :: rest.
Proof.
  rewrite paths_object. intros H. apply in_flat_map in H.
  destruct H as [[k x] [_ H]]. apply in_map_iff in H.
  destruct H as [rest [<- _]]. eauto.
Qed.

(** X20.  What a proposal can change.  The proposal of
    [handler_rpm_build_test_common] differs from the document found or
    created at most in [states], [current_state], [current_state_lenghts],
    [resultsdb_testcase] and [rpm_build]: every other field is as stored,
    [_id], [_version], [type] and [aid] among them.  So the update set made
    of the proposal against that document names paths under these five
    fields only; it never sets [_version], which is left to the increment
    of the update. *)
Theorem handler_proposal_keeps_identity
  (sha256_hex : string -> string) (Date_parse : value -> option Z)
  (kai_state_valid : KaiState -> bool) (db_artifact_valid : value -> bool)
  (artifacts artifacts' c1 : Db.collection) (m : FileQueueMessage)
  (fields : list (string * value)) (doc : value) :
  DbMsgHandlers.handler_rpm_build_test_common sha256_hex Date_parse
    kai_state_valid db_artifact_valid artifacts m = (Ok doc, artifacts') ->
  Db.findOrCreate db_artifact_valid
    (get (get (body m) ["artifact"]) ["type"])
    (VStr (Str.toString (get (get (body m) ["artifact"]) ["id"])))
    artifacts = (Ok (VObj fields), c1) ->
  well_formed doc = true ->
  let changed := ["states"; "current_state"; "current_state_lenghts";
                  "resultsdb_testcase"; "rpm_build"] in
  (forall k, ~ In k changed -> get doc [k] = get (VObj fields) [k])
  /\ (forall p v,
        In (p, v) (Db.mk_update_set (VObj fields) doc) ->
        exists k rest, p = k :: rest /\ In k changed).
Proof.
  intros Hh Hfind Hwf changed.
  destruct (handler_rpm_result _ _ _ _ _ _ Hh)
    as [stored [new_state [Hf [Hmk Hdoc]]]].
  rewrite Hfind in Hf. inversion Hf; subst stored c1. clear Hf.
  assert (Hframe : forall k, ~ In k changed ->
                             get doc [k] = get (VObj fields) [k]).
  { intros k Hk.
    assert (Hne : k <> "states" /\ k <> "current_state"
                  /\ k <> "current_state_lenghts"
                  /\ k <> "resultsdb_testcase" /\ k <> "rpm_build").
    { unfold changed in Hk. simpl in Hk. repeat split; intros ->; tauto. }
    destruct Hne as [N1 [N2 [N3 [N4 N5]]]].
    subst doc. unfold rpm_proposal. cbv zeta.
    rewrite !assign_field_object.
    match goal with
    | |- context [negb ?b] => destruct b
    end; cbn [negb].
    - rewrite get_assign_field_ne by assumption.
      rewrite <- assign_field_object.
      now rewrite get_assign_field_ne by assumption.
    - match goal with
      | |- context [DbMsgHandlers.actualize_current_states (VObj ?f)] =>
          destruct (actualize_current_states_object f) as [fields' Ef];
          pose proof (@actualize_current_states_frame f k N2 N3 N4) as Hfr;
          rewrite Ef in *
      end.
      rewrite get_assign_field_ne by assumption. rewrite Hfr.
      rewrite <- assign_field_object.
      rewrite get_assign_field_ne by assumption.
      rewrite <- assign_field_object.
      now rewrite get_assign_field_ne by assumption. }
  split; [exact Hframe|].
  intros p v Hin.
  assert (Hobj : exists f', doc = VObj f').
  { subst doc. unfold rpm_proposal. cbv zeta.
    rewrite !assign_field_object.
    match goal with
    | |- context [negb ?b] => destruct b
    end; cbn [negb].
    - rewrite assign_field_object. eauto.
    - match goal with
      | |- context [DbMsgHandlers.actualize_current_states (VObj ?f)] =>
          destruct (actualize_current_states_object f) as [fields' Ef];
          rewrite Ef
      end.
      rewrite assign_field_object. eauto. }
  destruct Hobj as [f' Ef'].
  pose proof (mk_update_set_within_spec (VObj fields) doc p v Hwf Hin) as Hs.
  unfold update_set_of_the_spec in Hs. apply in_map_iff in Hs.
  destruct Hs as [p' [Ep Hflt]]. inversion Ep; subst p'.
  apply filter_In in Hflt. destruct Hflt as [Hd Hne].
  unfold drop_empty_paths in Hd. apply filter_In in Hd.
  destruct Hd as [Hleaf _]. apply negb_true_iff in Hne.
  rewrite Ef' in Hleaf. apply paths_of_object_not_nil in Hleaf.
  destruct Hleaf as [k [rest ->]]. exists k, rest. split; [reflexivity|].
  destruct (in_dec string_dec k changed) as [Hk|Hk]; [exact Hk|].
  exfalso.
  rewrite (get_cons doc k rest), (get_cons (VObj fields) k rest) in Hne.
  rewrite (Hframe k Hk) in Hne.
  rewrite isEqual_refl in Hne; [discriminate|].
  rewrite <- (Hframe k Hk), <- get_cons. now apply well_formed_get.
Qed.

Lemma handler_proposal_keeps_identity_witness :
  let m := Scenario.queued_envelope 42 Scenario.with_pipeline in
  exists doc c' fields,
    DbMsgHandlers.handler_rpm_build_test_common Scenario.digest
      Scenario.parse_date Scenario.accept_kai_state Scenario.accept_document
      Scenario.empty_collection m = (Ok doc, c')
    /\ Db.findOrCreate Scenario.accept_document
         (get (get (body m) ["artifact"]) ["type"])
         (VStr (Str.toString (get (get (body m) ["artifact"]) ["id"])))
         Scenario.empty_collection = (Ok (VObj fields), c')
    /\ well_formed doc = true
    /\ get doc ["_version"] = get (VObj fields) ["_version"].
Proof.
  intros m. do 3 eexists.
  split; [vm_compute; reflexivity|].
  split; [vm_compute; reflexivity|].
  split; [vm_compute; reflexivity|].
  refine (proj1
    (@handler_proposal_keeps_identity Scenario.digest Scenario.parse_date
       Scenario.accept_kai_state Scenario.accept_document
       Scenario.empty_collection _ _ m _ _ _ _ _) "_version" _).
  - vm_compute; reflexivity.
  - vm_compute; reflexivity.
  - vm_compute; reflexivity.
  - simpl. intros [H|[H|[H|[H|[H|[]]]]]]; discriminate.
Defined.

(* ===================================================================== *)
(** * Further properties: the failover set of the listener                *)
(* ===================================================================== *)

Section FailoverFacts.

Lemma split_colon_not_nil (s : string) : Listener.split_colon s <> [].
Proof.
  induction s as [|c s IH]; simpl; [discriminate|].
  destruct (Ascii.eqb c ":"); [discriminate|].
  destruct (Listener.split_colon s); discriminate.
Qed.

Lemma mod_wrap (a n i : nat) :
  n <> 0 -> i < n ->
  (a + i) mod n
  = if Nat.ltb (a mod n + i) n then a mod n + i else a mod n + i - n.
Proof.
  intros Hn Hi.
  pose proof (Nat.mod_upper_bound a n Hn) as Hr.
  rewrite (Nat.div_mod a n Hn) at 1.
  rewrite <- Nat.add_assoc, Nat.add_comm, Nat.mul_comm, Nat.Div0.mod_add.
  destruct (Nat.ltb (a mod n + i) n) eqn:E.
  - apply Nat.ltb_lt in E. now apply Nat.mod_small.
  - apply Nat.ltb_ge in E.
    transitivity ((a mod n + i - n + 1 * n) mod n); [f_equal; lia|].
    rewrite Nat.Div0.mod_add. apply Nat.mod_small. lia.
Qed.

(** The entries met by consecutive values of the counter, once round. *)
Lemma rotation (l : list string) (a : nat) :
  l <> [] ->
  map (fun i => nth ((a + i) mod List.length l) l "")
      (seq 0 (List.length l))
  = skipn (a mod List.length l) l ++ firstn (a mod List.length l) l.
Proof.
  intros Hl.
  assert (Hn : List.length l <> 0) by (destruct l; simpl; congruence).
  pose proof (Nat.mod_upper_bound a _ Hn) as Hr.
  set (r := a mod List.length l) in *.
  apply (nth_ext _ _ "" "").
  - rewrite length_map, length_seq, length_app, length_skipn, length_firstn.
    lia.
  - intros i Hi. rewrite length_map, length_seq in Hi.
    rewrite (nth_indep _ _ (nth ((a + 0) mod List.length l) l ""))
      by (rewrite length_map, length_seq; exact Hi).
    rewrite (map_nth (fun i => nth ((a + i) mod List.length l) l "")).
    rewrite seq_nth by exact Hi. cbn [Nat.add].
    rewrite (mod_wrap a Hn Hi). fold r.
    destruct (Nat.ltb (r + i) (List.length l)) eqn:E.
    + apply Nat.ltb_lt in E.
      rewrite app_nth1 by (rewrite length_skipn; lia).
      now rewrite nth_skipn.
    + apply Nat.ltb_ge in E.
      rewrite app_nth2 by (rewrite length_skipn; lia).
      rewrite length_skipn.
      rewrite nth_firstn.
      assert (Hlt : Nat.ltb (i - (List.length l - r)) r = true)
        by (apply Nat.ltb_lt; lia).
      rewrite Hlt. f_equal. lia.
Qed.

Lemma seq_from (a n : nat) : seq a n = map (fun i => a + i) (seq 0 n).
Proof.
  induction a as [|a IH].
  - now rewrite map_id.
  - rewrite <- seq_shift, IH, map_map. reflexivity.
Qed.

End FailoverFacts.

(** X21.  The failover set is gone through in order.  With a failover set
    that is not empty, the attempt made with the counter at [a] goes to the
    entry at index [a mod n] of the set, [n] being its size: its host is the
    text before the first colon of the entry and its port the text between
    the first and the second, and the counter goes up by one.  Any [n]
    consecutive attempts go to every entry of the set once, in the order of
    the set, starting from the entry at [a mod n].  With an empty set every
    attempt goes to the configured host and port. *)
Theorem failover_round_robin
  (failover : list string) (connectionOptions_host connectionOptions_port : value)
  (a : nat) :
  let n := List.length failover in
  (failover <> [] ->
   fst (Listener.connection_details failover connectionOptions_host
          connectionOptions_port a)
   = {| Listener.host := fst (host_and_port (nth (a mod n) failover ""));
        Listener.options_port :=
          snd (host_and_port (nth (a mod n) failover "")) |}
   /\ attempts_made failover (seq a n)
      = map host_and_port
            (skipn (a mod n) failover ++ firstn (a mod n) failover))
  /\ (failover = [] ->
      fst (Listener.connection_details failover connectionOptions_host
             connectionOptions_port a)
      = {| Listener.host := Str.toString connectionOptions_host;
           Listener.options_port := connectionOptions_port |})
  /\ snd (Listener.connection_details failover connectionOptions_host
            connectionOptions_port a) = S a.
Proof.
  intros n.
  assert (Hone : forall host port b,
            failover <> [] ->
            fst (Listener.connection_details failover host port b)
            = {| Listener.host :=
                   fst (host_and_port (nth (b mod n) failover ""));
                 Listener.options_port :=
                   snd (host_and_port (nth (b mod n) failover "")) |}).
  { intros host port b Hne. subst n.
    unfold Listener.connection_details, host_and_port.
    destruct failover as [|x l]; [congruence|].
    match goal with
    | |- context [Listener.split_colon ?e] =>
        pose proof (split_colon_not_nil e) as Hs;
        destruct (Listener.split_colon e) as [|h [|p t]]
    end; [congruence| |]; reflexivity. }
  subst n. split; [|split].
  - intros Hne. split; [now apply Hone|].
    unfold attempts_made.
    rewrite <- (rotation a Hne).
    rewrite map_map.
    rewrite (seq_from a). rewrite map_map. apply map_ext. intros i.
    rewrite (Hone VUndefined VUndefined (a + i) Hne). cbn [fst].
    cbn [Listener.host Listener.options_port].
    now destruct (host_and_port
                    (nth ((a + i) mod List.length failover) failover "")).
  - intros ->. reflexivity.
  - unfold Listener.connection_details.
    destruct failover as [|x l]; [reflexivity|].
    match goal with
    | |- snd (let '(_, _) := ?e in _) = _ => destruct e
    end.
    reflexivity.
Qed.

(* ===================================================================== *)
(** * Further properties: merging the same record twice                   *)
(* ===================================================================== *)

Section MergeTwice.

Import Merge.

Lemma nth_of_nth_error (l : list value) (j : nat) :
  nth j l VUndefined
  = match nth_error l j with Some x => x | None => VUndefined end.
Proof.
  revert j. induction l as [|x l IH]; intros [|j]; simpl; auto.
Qed.

Lemma nth_set_index_eq (i : nat) (v : value) (d : list value) :
  nth i (set_index i v d) VUndefined = v.
Proof.
  revert d. induction i as [|i IH]; intros [|x d]; simpl; auto.
Qed.

Lemma nth_error_set_index_lt (i j : nat) (v : value) (d : list value) :
  j < i -> j < List.length d ->
  nth_error (set_index i v d) j = nth_error d j.
Proof.
  revert j d. induction i as [|i IH]; intros [|j] [|x d] Hlt Hj; simpl in *;
    try lia; auto.
  apply IH; lia.
Qed.

Lemma set_index_same (i : nat) (d : list value) :
  i < List.length d -> set_index i (nth i d VUndefined) d = d.
Proof.
  revert d. induction i as [|i IH]; intros [|x d] Hi; simpl in *; try lia; auto.
  now rewrite IH by lia.
Qed.

(** One step of the merge of an array, and what it leaves at its index. *)
Lemma merge_step (i : nat) (o s : value) (d : list value) :
  o = nth i d VUndefined ->
  let d' := match mergeValue o s with
            | VUndefined =>
                if Nat.ltb i (List.length d) then d
                else set_index i (mergeValue o s) d
            | _ => set_index i (mergeValue o s) d
            end in
  i < List.length d'
  /\ nth i d' VUndefined = mergeValue o s
  /\ List.length d <= List.length d'
  /\ (forall j, i < j -> nth j d' VUndefined = nth j d VUndefined).
Proof.
  intros Ho d'.
  assert (Hset : i < List.length (set_index i (mergeValue o s) d)
                 /\ nth i (set_index i (mergeValue o s) d) VUndefined
                    = mergeValue o s
                 /\ List.length d
                    <= List.length (set_index i (mergeValue o s) d)
                 /\ (forall j, i < j ->
                       nth j (set_index i (mergeValue o s) d) VUndefined
                       = nth j d VUndefined)).
  { rewrite length_set_index. repeat split; try lia.
    - apply nth_set_index_eq.
    - intros j Hj. rewrite !nth_of_nth_error.
      now rewrite nth_error_set_index_ne. }
  subst d'. destruct (mergeValue o s) eqn:M; try exact Hset.
  destruct (Nat.ltb i (List.length d)) eqn:E; [|exact Hset].
  apply Nat.ltb_lt in E. repeat split; auto.
  apply mergeValue_undefined_inv in M. congruence.
Qed.

(** What the merge of an array leaves at the indexes of the source. *)
Lemma merge_items_result (src : list value) :
  forall i dest j,
    j < List.length src ->
    i + j < List.length (merge_items i src dest)
    /\ nth (i + j) (merge_items i src dest) VUndefined
       = mergeValue (nth (i + j) dest VUndefined) (nth j src VUndefined).
Proof.
  induction src as [|s src IH]; intros i dest j Hj; simpl in Hj; [lia|].
  cbn [merge_items]. cbv zeta.
  destruct (merge_step i s dest eq_refl) as [H1 [H2 [H3 H4]]].
  set (d' := match mergeValue (nth i dest VUndefined) s with
             | VUndefined =>
                 if Nat.ltb i (List.length dest) then dest
                 else set_index i (mergeValue (nth i dest VUndefined) s) dest
             | _ => set_index i (mergeValue (nth i dest VUndefined) s) dest
             end) in *.
  assert (Hlen : forall s0 k d0, List.length d0
                                 <= List.length (merge_items k s0 d0)).
  { induction s0 as [|v s0 IHs]; intros k d0; simpl; auto.
    destruct (merge_step k v d0 eq_refl) as [_ [_ [L _]]].
    eapply Nat.le_trans; [exact L|]. apply IHs. }
  assert (Hhead : forall s0 k d0 n, n < k -> n < List.length d0 ->
                    nth n (merge_items k s0 d0) VUndefined
                    = nth n d0 VUndefined).
  { induction s0 as [|v s0 IHs]; intros k d0 n Hn Hn'; simpl; auto.
    destruct (merge_step k v d0 eq_refl) as [_ [_ [L _]]].
    rewrite IHs by lia.
    destruct (mergeValue (nth k d0 VUndefined) v);
      try (rewrite !nth_of_nth_error;
           now rewrite nth_error_set_index_lt by lia).
    destruct (Nat.ltb k (List.length d0)); auto.
    rewrite !nth_of_nth_error. now rewrite nth_error_set_index_lt by lia. }
  destruct j as [|j].
  - rewrite Nat.add_0_r. split.
    + eapply Nat.lt_le_trans; [exact H1|]. apply Hlen.
    + rewrite Hhead by lia. exact H2.
  - replace (i + S j) with (S i + j) by lia.
    destruct (IH (S i) d' j) as [I1 I2]; [lia|].
    split; [exact I1|]. rewrite I2. f_equal. apply H4. lia.
Qed.

(** A destination that already holds the merged values is left as it is. *)
Lemma merge_items_stable (src : list value) :
  forall i r,
    (forall j, j < List.length src ->
       i + j < List.length r
       /\ mergeValue (nth (i + j) r VUndefined) (nth j src VUndefined)
          = nth (i + j) r VUndefined) ->
    merge_items i src r = r.
Proof.
  induction src as [|s src IH]; intros i r H; simpl; auto.
  destruct (H 0) as [Hi Hm]; [simpl; lia|].
  rewrite Nat.add_0_r in Hi, Hm. simpl in Hm. rewrite Hm.
  assert (E : match nth i r VUndefined with
              | VUndefined =>
                  if Nat.ltb i (List.length r) then r
                  else set_index i (nth i r VUndefined) r
              | _ => set_index i (nth i r VUndefined) r
              end = r).
  { apply Nat.ltb_lt in Hi as Hb.
    destruct (nth i r VUndefined) eqn:En;
      try (rewrite <- En; now apply set_index_same).
    now rewrite Hb. }
  rewrite E. apply IH. intros j Hj.
  replace (S i + j) with (i + S j) by lia. apply (H (S j)). simpl. lia.
Qed.

Lemma lookup_assignMergeValue_eq (k : string) (v : value)
  (d : list (string * value)) :
  lookup k (assignMergeValue k v d) <> None.
Proof.
  unfold assignMergeValue, has_key.
  destruct v; try (rewrite lookup_set_field_eq; discriminate).
  destruct (lookup k d) eqn:E; [now rewrite E|].
  rewrite lookup_set_field_eq. discriminate.
Qed.

Lemma merge_fields_keeps_key (k : string) (s d : list (string * value)) :
  lookup k d <> None -> lookup k (merge_fields s d) <> None.
Proof.
  revert d. induction s as [|[k' v] s IH]; intros d H; simpl; auto.
  apply IH. destruct (String.eqb k k') eqn:E.
  - apply String.eqb_eq in E. subst. apply lookup_assignMergeValue_eq.
  - rewrite lookup_assignMergeValue_ne; auto. now apply String.eqb_neq.
Qed.

Lemma merge_fields_has_key (k : string) (s d : list (string * value)) :
  In k (keys s) -> lookup k (merge_fields s d) <> None.
Proof.
  revert d. induction s as [|[k' v] s IH]; intros d H; simpl in *;
    [contradiction|].
  destruct H as [->|H]; auto.
  apply merge_fields_keeps_key. apply lookup_assignMergeValue_eq.
Qed.

(** A destination that already holds the merged values is left as it is. *)
Lemma merge_fields_stable (src r : list (string * value)) :
  (forall k nv, In (k, nv) src ->
     exists x, lookup k r = Some x /\ mergeValue x nv = x) ->
  merge_fields src r = r.
Proof.
  induction src as [|[k nv] src IH]; intros H; simpl; auto.
  destruct (H k nv) as [x [Hl Hm]]; [simpl; auto|].
  rewrite Hl, Hm.
  assert (E : assignMergeValue k x r = r).
  { unfold assignMergeValue, has_key.
    destruct x; try (now apply set_field_same). now rewrite Hl. }
  rewrite E. apply IH. intros k' nv' Hin. apply H. simpl. auto.
Qed.

(** The merge of an object into a destination, a second time. *)
Lemma merge_fields_twice (src d : list (string * value)) :
  NoDup (keys src) ->
  Forall (fun kv => forall o, mergeValue (mergeValue o (snd kv)) (snd kv)
                              = mergeValue o (snd kv)) src ->
  merge_fields src (merge_fields src d) = merge_fields src d.
Proof.
  intros Hnd Hall. apply merge_fields_stable. intros k nv Hin.
  pose proof (In_lookup k nv src Hnd Hin) as Hl.
  pose proof (@get_merge_fields k nv src d Hnd Hl) as Hg.
  cbn [get] in Hg.
  destruct (lookup k (merge_fields src d)) as [x|] eqn:Ex.
  - exists x. split; auto. rewrite Hg.
    rewrite Forall_forall in Hall. apply (Hall (k, nv) Hin).
  - exfalso. apply (@merge_fields_has_key k src d); auto.
    change k with (fst (k, nv)). now apply in_map.
Qed.

Lemma merge_items_twice (src d : list value) :
  Forall (fun s => forall o, mergeValue (mergeValue o s) s = mergeValue o s)
         src ->
  merge_items 0 src (merge_items 0 src d) = merge_items 0 src d.
Proof.
  intros Hall. apply merge_items_stable. intros j Hj.
  destruct (@merge_items_result src 0 d j Hj) as [H1 H2].
  split; [exact H1|]. rewrite H2.
  rewrite Forall_forall in Hall. apply Hall. now apply nth_In.
Qed.

(** Merging a value a second time changes nothing. *)
Lemma mergeValue_twice (s : value) :
  well_formed s = true ->
  forall o, mergeValue (mergeValue o s) s = mergeValue o s.
Proof.
  induction s as [| |b|n| |x|n|items IH|fields IH] using value_ind;
    intros Hwf o;
    try (destruct o; reflexivity).
  - (* a string *)
    destruct o; simpl; unfold customMerge; simpl;
      destruct (String.eqb x "") eqn:E; simpl; now rewrite ?E.
  - (* an array *)
    assert (Hall : Forall (fun s => forall o,
                             mergeValue (mergeValue o s) s = mergeValue o s)
                          items).
    { simpl in Hwf. rewrite forallb_forall in Hwf.
      rewrite Forall_forall in *. intros v Hv. apply IH; auto. }
    destruct items as [|v items].
    + destruct o; reflexivity.
    + assert (Hc : forall o', customMerge o' (VArr (v :: items)) = None).
      { intros o'. unfold customMerge. destruct o'; reflexivity. }
      rewrite (mergeValue_arr o _ (Hc o)).
      rewrite (mergeValue_arr _ _ (Hc _)).
      now rewrite merge_items_twice.
  - (* an object *)
    simpl in Hwf. apply andb_true_iff in Hwf. destruct Hwf as [Hnd Hwf].
    apply nodupb_NoDup in Hnd.
    assert (Hall : Forall (fun kv => forall o,
                             mergeValue (mergeValue o (snd kv)) (snd kv)
                             = mergeValue o (snd kv)) fields).
    { rewrite forallb_forall in Hwf.
      rewrite Forall_forall in *. intros kv Hkv. apply IH; auto. }
    destruct o;
      try (match goal with
           | |- mergeValue (mergeValue ?o0 _) _ = _ =>
               rewrite (@mergeValue_obj_fresh o0 fields I)
           end;
           rewrite mergeValue_obj_obj;
           now rewrite merge_fields_twice);
      try reflexivity.
    rewrite !mergeValue_obj_obj. now rewrite merge_fields_twice.
Qed.

End MergeTwice.

(** X22.  Merging twice is merging once.  For a source record that is a
    JavaScript value, [_.mergeWith(object, source, customMerge)] applied to
    its own result with the same source gives that result again, whatever
    the destination was; so does the merge of any value into any
    destination.  A handler that meets the same event again proposes the
    same sub-record. *)
Theorem mergeWith_twice (object : value) (source : list (string * value)) :
  well_formed (VObj source) = true ->
  Merge.mergeWith (Merge.mergeWith object source) source
  = Merge.mergeWith object source
  /\ forall o, Merge.mergeValue (Merge.mergeValue o (VObj source))
                                (VObj source)
               = Merge.mergeValue o (VObj source).
Proof.
  intros Hwf. split; [|now apply mergeValue_twice].
  pose proof Hwf as Hwf'.
  simpl in Hwf'. apply andb_true_iff in Hwf'. destruct Hwf' as [Hnd Hall].
  apply nodupb_NoDup in Hnd.
  assert (Hf : Forall (fun kv => forall o,
                         Merge.mergeValue (Merge.mergeValue o (snd kv))
                                          (snd kv)
                         = Merge.mergeValue o (snd kv)) source).
  { rewrite forallb_forall in Hall. apply Forall_forall.
    intros kv Hkv. apply mergeValue_twice. now apply Hall. }
  unfold Merge.mergeWith.
  destruct object; try reflexivity; now rewrite merge_fields_twice.
Qed.

Lemma mergeWith_twice_witness :
  let stored := VObj [("task_id", VNum 42); ("nvr", VStr "pkg-1.0-1.fc33");
                      ("gate_tag", VArr [VStr "f33"])] in
  let source := [("task_id", VNum 42); ("nvr", VStr "");
                 ("issuer", VStr "alice"); ("gate_tag", VArr [])] in
  well_formed (VObj source) = true
  /\ Merge.mergeWith (Merge.mergeWith stored source) source
     = Merge.mergeWith stored source.
Proof.
  intros stored source. split; [reflexivity|].
  exact (proj1 (@mergeWith_twice stored source eq_refl)).
Defined.

(* ===================================================================== *)
(** * Further properties: what the listener puts in the file queue        *)
(* ===================================================================== *)

Section FqueueIdFacts.






End FqueueIdFacts.


(* ===================================================================== *)
(** * Further properties: the routing of topics                           *)
(* ===================================================================== *)

Lemma match_prefix_length (pattern : string) :
  forall topic rest,
    DbMsgHandlers.match_prefix pattern topic = Some rest ->
    String.length topic = String.length pattern + String.length rest.
Proof.
  induction pattern as [|p pattern IH]; intros topic rest; simpl.
  - now intros [= ->].
  - destruct topic as [|c topic]; [discriminate|].
    destruct (Ascii.eqb p ".").
    + destruct (Ascii.eqb c "010" || Ascii.eqb c "013"); [discriminate|].
      intros H. simpl. now rewrite (IH _ _ H).
    + destruct (Ascii.eqb p c); [|discriminate].
      intros H. simpl. now rewrite (IH _ _ H).
Qed.

Lemma match_whole_length (pattern topic : string) :
  DbMsgHandlers.match_whole pattern topic = true ->
  String.length topic = String.length pattern.
Proof.
  unfold DbMsgHandlers.match_whole.
  destruct (DbMsgHandlers.match_prefix pattern topic) as [rest|] eqn:E;
    [|discriminate].
  destruct rest; [|discriminate]. intros _.
  rewrite (match_prefix_length _ _ E). simpl. lia.
Qed.

(** X24.  No topic has two handlers.  The three patterns of [get_handler]
    exclude each other: a topic that matches the first has 28 characters,
    one that matches the second has 35, and one that matches the third has
    between 40 and 43; so the order in which the handlers were set does not
    matter, and [get_handler] gives no handler exactly for the topics that
    match none of the three. *)
Theorem get_handler_patterns_exclusive
  (sha256_hex : string -> string) (Date_parse : value -> option Z)
  (kai_state_valid : KaiState -> bool) (db_artifact_valid : value -> bool)
  (koji_getBuild : string -> value -> result value)
  (atype_to_hub_map : string -> option string)
  (broker_topic : string) :
  (is_centos_tag broker_topic = true ->
   String.length broker_topic = 28
   /\ is_fedora_tag broker_topic = false
   /\ is_koji_build_test broker_topic = false)
  /\ (is_fedora_tag broker_topic = true ->
      String.length broker_topic = 35
      /\ is_centos_tag broker_topic = false
      /\ is_koji_build_test broker_topic = false)
  /\ (is_koji_build_test broker_topic = true ->
      40 <= String.length broker_topic <= 43
      /\ is_centos_tag broker_topic = false
      /\ is_fedora_tag broker_topic = false)
  /\ (DbMsgHandlers.get_handler sha256_hex Date_parse kai_state_valid
        db_artifact_valid koji_getBuild atype_to_hub_map broker_topic = None
      <-> is_centos_tag broker_topic = false
          /\ is_fedora_tag broker_topic = false
          /\ is_koji_build_test broker_topic = false).
Proof.
  assert (Ha : is_centos_tag broker_topic = true ->
               String.length broker_topic = 28).
  { unfold is_centos_tag. intros H.
    apply (@match_whole_length "org.centos.prod.buildsys.tag") in H.
    exact H. }
  assert (Hb : is_fedora_tag broker_topic = true ->
               String.length broker_topic = 35).
  { unfold is_fedora_tag. intros H.
    apply (@match_whole_length "org.fedoraproject.prod.buildsys.tag") in H.
    exact H. }
  assert (Hc : is_koji_build_test broker_topic = true ->
               40 <= String.length broker_topic <= 43).
  { unfold is_koji_build_test.
    destruct (DbMsgHandlers.match_prefix
                "org.centos.prod.ci.koji-build.test." broker_topic)
      as [rest|] eqn:E; [|discriminate].
    apply match_prefix_length in E. rewrite E. intros H.
    repeat (apply orb_true_iff in H; destruct H as [H|H]);
      apply String.eqb_eq in H; subst rest; simpl; lia. }
  assert (Hnot : forall b : bool, (b = true -> False) -> b = false)
    by (intros [|] H; [exfalso; now apply H | reflexivity]).
  split; [|split; [|split]].
  - intros H. specialize (Ha H). repeat split; auto;
      apply Hnot; intros H'; [specialize (Hb H') | specialize (Hc H')]; lia.
  - intros H. specialize (Hb H). repeat split; auto;
      apply Hnot; intros H'; [specialize (Ha H') | specialize (Hc H')]; lia.
  - intros H. specialize (Hc H). repeat split; try lia;
      apply Hnot; intros H'; [specialize (Ha H') | specialize (Hb H')]; lia.
  - unfold DbMsgHandlers.get_handler, is_centos_tag, is_fedora_tag,
      is_koji_build_test.
    destruct (DbMsgHandlers.match_whole "org.centos.prod.buildsys.tag"
                broker_topic);
      [split; [discriminate | intros [H _]; discriminate]|].
    destruct (DbMsgHandlers.match_whole "org.fedoraproject.prod.buildsys.tag"
                broker_topic);
      [split; [discriminate | intros [_ [H _]]; discriminate]|].
    destruct (DbMsgHandlers.match_prefix
                "org.centos.prod.ci.koji-build.test." broker_topic)
      as [rest|]; [|split; [intros _; repeat split | reflexivity]].
    destruct (String.eqb rest "complete" || String.eqb rest "queued"
              || String.eqb rest "running" || String.eqb rest "error").
    + split; [discriminate | intros [_ [_ H]]; discriminate].
    + split; [intros _; repeat split | reflexivity].
Qed.
